(** * MQTT-Server: a shallow embedding of the broker core

    The development follows the layout of the Go repository:

    - [mqtt]   : packet types and the wire codec (package [internal/mqtt]);
    - [config] : the configuration record, its defaults and its validation
                 (package [internal/config]);
    - [server] : the broker: topic matching, the client registry, the
                 retained store, the packet handlers, start and shutdown
                 (package [internal/server]);
    - [store]  : the keys of the bbolt store (package [internal/store]).

    Conventions.  A Go [byte], [uint16] or [int] is a [Z]; where the Go type
    truncates, the truncation is written out.  A Go [string] is a Rocq
    [string] (a sequence of 8-bit characters).  A Go [map] is a [gmap]; a
    [range] loop over a map visits the entries in an order chosen by the Go
    runtime, which the handlers receive as an explicit enumeration function.
    A [*Client] is an address into a store of client objects, so that the
    registry and a connection handler can alias the same object.

    Effects.  A handler is a function from the broker state to an outcome:
    a result and a new state, or a Go panic.  The state carries the trace of
    socket writes and closes, which is what a peer can observe, and of the
    goroutines started.  The broker
    serves every connection in a goroutine of its own; the handlers are
    described between two packets.  A [go s.deliverMessage(...)] only
    starts a goroutine: the trace records the start, and the delivery is
    a computation of its own, [deliverMessage], which runs in whatever
    state the broker has reached when the goroutine is scheduled.

    The modules [spec] and [scenario] hold the vocabulary of the statements
    and the concrete inputs; the theorems follow, by component. *)

From stdpp Require Import gmap strings list pretty.
From Stdlib Require Import ZArith Ascii.

Local Open Scope Z_scope.

(* ===================================================================== *)
(** * Package mqtt: packets and the wire codec                            *)
(* ===================================================================== *)

Module mqtt.

(** ** Packet types *)

Definition CONNECT     : Z := 1.
Definition CONNACK     : Z := 2.
Definition PUBLISH     : Z := 3.
Definition PUBACK      : Z := 4.
Definition PUBREC      : Z := 5.
Definition PUBREL      : Z := 6.
Definition PUBCOMP     : Z := 7.
Definition SUBSCRIBE   : Z := 8.
Definition SUBACK      : Z := 9.
Definition UNSUBSCRIBE : Z := 10.
Definition UNSUBACK    : Z := 11.
Definition PINGREQ     : Z := 12.
Definition PINGRESP    : Z := 13.
Definition DISCONNECT  : Z := 14.

(** ** Errors and results *)

(** [io.EOF], [io.ErrUnexpectedEOF], and the errors built by [fmt.Errorf],
    with the wrapped cause of a [%w] verb when there is one. *)
Inductive error : Type :=
  | EOF
  | ErrUnexpectedEOF
  | Errorf (msg : string)
  | Wrapped (msg : string) (cause : error).

Inductive result (A : Type) : Type :=
  | Ok (a : A)
  | Err (e : error).
Arguments Ok {A} a.
Arguments Err {A} e.

(** ** Integer conversions *)

(** [byte(x)] for a non-negative [x]. *)
Definition to_byte (x : Z) : Z := x mod 256.

(** [uint16(x)] for a non-negative [x]. *)
Definition to_uint16 (x : Z) : Z := x mod 65536.

(** [binary.BigEndian.Uint16]. *)
Definition Uint16 (b : list Z) : Z :=
  match b with
  | [b0; b1] => Z.lor b1 (Z.shiftl b0 8)
  | _ => 0
  end.

(** [binary.BigEndian.PutUint16], as the two bytes written. *)
Definition PutUint16 (v : Z) : list Z :=
  [to_byte (Z.shiftr v 8); to_byte v].

(** [[]byte(s)] and [string(b)]. *)
Definition bytes_of_string (s : string) : list Z :=
  (λ c, Z.of_N (N_of_ascii c)) <$> String.list_ascii_of_string s.

Definition string_of_bytes (b : list Z) : string :=
  String.string_of_list_ascii ((λ x, ascii_of_N (Z.to_N (to_byte x))) <$> b).

(** [len(s)] of a string. *)
Definition len (s : string) : Z := Z.of_nat (String.length s).

(** ** Readers

    An [io.Reader] over a byte slice: the state is the list of bytes not yet
    read.  A decoder returns its value and the bytes left, or an error. *)

Definition Reader (A : Type) : Type := list Z → result (A * list Z).

Definition ret {A} (a : A) : Reader A := λ r, Ok (a, r).

Definition bind {A B} (m : Reader A) (k : A → Reader B) : Reader B :=
  λ r, match m r with
       | Ok (a, r') => k a r'
       | Err e => Err e
       end.

Definition fail {A} (e : error) : Reader A := λ _, Err e.

(** [if err != nil { return nil, fmt.Errorf(msg + ": %w", err) }] *)
Definition wrap {A} (msg : string) (m : Reader A) : Reader A :=
  λ r, match m r with
       | Ok x => Ok x
       | Err e => Err (Wrapped msg e)
       end.

Notation "'let*' x ':=' m 'in' k" := (bind m (λ x, k))
  (at level 10, x name, m at level 100, k at level 200, only parsing).

(** [io.ReadFull(r, buf)] with [len(buf) = n]: reads exactly [n] bytes;
    [io.EOF] when no byte is left, [io.ErrUnexpectedEOF] when fewer than [n]
    are. *)
Definition ReadFull (n : Z) : Reader (list Z) :=
  λ r, if n <=? 0 then Ok ([], r)
       else match r with
            | [] => Err EOF
            | _ :: _ =>
                if Z.of_nat (length r) <? n then Err ErrUnexpectedEOF
                else Ok (take (Z.to_nat n) r, drop (Z.to_nat n) r)
            end.

(** One byte ([buf := make([]byte, 1)] then [io.ReadFull]). *)
Definition ReadByte : Reader Z :=
  let* buf := ReadFull 1 in ret (default 0 (head buf)).

(** ** Packets *)

Record FixedHeader : Type := mkFixedHeader {
  PacketType   : Z;
  Flags        : Z;
  RemainingLen : Z
}.

Record ConnectPacket : Type := mkConnectPacket {
  ProtocolName    : string;
  ProtocolVersion : Z;
  CleanSession    : bool;
  WillFlag        : bool;
  WillQoS         : Z;
  WillRetain      : bool;
  PasswordFlag    : bool;
  UsernameFlag    : bool;
  KeepAlive       : Z;
  ClientID        : string;
  WillTopic       : string;
  WillMessage     : list Z;
  Username        : string;
  Password        : list Z
}.

Record ConnackPacket : Type := mkConnackPacket {
  SessionPresent : bool;
  ReturnCode     : Z
}.

Record PublishPacket : Type := mkPublishPacket {
  Dup      : bool;
  QoS      : Z;
  Retain   : bool;
  Topic    : string;
  PacketID : Z;
  Payload  : list Z
}.

Record PubackPacket : Type := mkPubackPacket {
  Puback_PacketID : Z
}.

Record Subscription : Type := mkSubscription {
  Sub_Topic : string;
  Sub_QoS   : Z
}.

Record SubscribePacket : Type := mkSubscribePacket {
  Subscribe_PacketID : Z;
  Subscribe_Topics   : list Subscription
}.

Record SubackPacket : Type := mkSubackPacket {
  Suback_PacketID : Z;
  ReturnCodes     : list Z
}.

Record UnsubscribePacket : Type := mkUnsubscribePacket {
  Unsubscribe_PacketID : Z;
  Unsubscribe_Topics   : list string
}.

Record UnsubackPacket : Type := mkUnsubackPacket {
  Unsuback_PacketID : Z
}.

Inductive PingrespPacket : Type := mkPingrespPacket.

(** ** Encoders *)

Definition ConnackPacket_Encode (c : ConnackPacket) : result (list Z) :=
  Ok [ to_byte (Z.shiftl CONNACK 4);
       2;
       if SessionPresent c then 1 else 0;
       ReturnCode c ].

(** The source has no PUBLISH encoder yet: the method only returns an
    error. *)
Definition PublishPacket_Encode (p : PublishPacket) : result (list Z) :=
  Err (Errorf "PUBLISH encoding not yet implemented").

Definition PubackPacket_Encode (p : PubackPacket) : result (list Z) :=
  Ok ([to_byte (Z.shiftl PUBACK 4); 2] ++ PutUint16 (Puback_PacketID p)).

Definition SubackPacket_Encode (s : SubackPacket) : result (list Z) :=
  Ok ([ to_byte (Z.shiftl SUBACK 4);
        to_byte (2 + Z.of_nat (length (ReturnCodes s))) ]
      ++ PutUint16 (Suback_PacketID s)
      ++ ReturnCodes s).

Definition UnsubackPacket_Encode (u : UnsubackPacket) : result (list Z) :=
  Ok ([to_byte (Z.shiftl UNSUBACK 4); 2] ++ PutUint16 (Unsuback_PacketID u)).

Definition PingrespPacket_Encode (p : PingrespPacket) : result (list Z) :=
  Ok [to_byte (Z.shiftl PINGRESP 4); 0].

(** [WriteString] writes a length-prefixed string. *)
Definition WriteString (s : string) : list Z :=
  PutUint16 (to_uint16 (len s)) ++ bytes_of_string s.

(** ** Decoders *)

(** The remaining-length loop of [ReadFixedHeader]: one byte is read per
    iteration, so the loop is structural in the bytes left. *)
Fixpoint readRemainingLen (multiplier value : Z) (r : list Z)
  : result (Z * list Z) :=
  match r with
  | [] => Err EOF
  | b :: r' =>
      let value := value + Z.land b 0x7F * multiplier in
      if Z.land b 0x80 =? 0 then Ok (value, r')
      else
        let multiplier := multiplier * 128 in
        if multiplier >? 128 * 128 * 128
        then Err (Errorf "malformed remaining length")
        else readRemainingLen multiplier value r'
  end.

Definition ReadFixedHeader : Reader FixedHeader :=
  let* b := ReadByte in
  let* value := readRemainingLen 1 0 in
  ret {| PacketType := Z.land (Z.shiftr b 4) 0x0F;
         Flags := Z.land b 0x0F;
         RemainingLen := value |}.

Definition ReadString : Reader string :=
  let* lenBuf := ReadFull 2 in
  let length := Uint16 lenBuf in
  if length =? 0 then ret ""
  else
    let* strBuf := ReadFull length in
    ret (string_of_bytes strBuf).

(** A [uint16]-length-prefixed byte field (will message, password):
    [make([]byte, n)] then [io.ReadFull], which succeeds at once for
    [n = 0]. *)
Definition readLengthPrefixed : Reader (list Z) :=
  let* lenBuf := ReadFull 2 in
  ReadFull (Uint16 lenBuf).

Definition DecodeConnectPacket (remainingLen : Z) : Reader ConnectPacket :=
  let* protocolName := wrap "failed to read protocol name" ReadString in
  let* version := ReadByte in
  let* flags := ReadByte in
  let usernameFlag := Z.land flags 0x80 >? 0 in
  let passwordFlag := Z.land flags 0x40 >? 0 in
  let willRetain := Z.land flags 0x20 >? 0 in
  let willQoS := Z.land (Z.shiftr flags 3) 0x03 in
  let willFlag := Z.land flags 0x04 >? 0 in
  let cleanSession := Z.land flags 0x02 >? 0 in
  let* keepAliveBuf := ReadFull 2 in
  let* clientID := wrap "failed to read client ID" ReadString in
  let* will :=
    (if willFlag
     then let* willTopic := ReadString in
          let* willMessage := readLengthPrefixed in
          ret (willTopic, willMessage)
     else ret (""%string, [])) in
  let* username := (if usernameFlag then ReadString else ret ""%string) in
  let* password := (if passwordFlag then readLengthPrefixed else ret []) in
  ret {| ProtocolName := protocolName;
         ProtocolVersion := version;
         CleanSession := cleanSession;
         WillFlag := willFlag;
         WillQoS := willQoS;
         WillRetain := willRetain;
         PasswordFlag := passwordFlag;
         UsernameFlag := usernameFlag;
         KeepAlive := Uint16 keepAliveBuf;
         ClientID := clientID;
         WillTopic := will.1;
         WillMessage := will.2;
         Username := username;
         Password := password |}.

Definition DecodePublishPacket (header : FixedHeader) : Reader PublishPacket :=
  let dup := Z.land (Flags header) 0x08 >? 0 in
  let qos := Z.land (Z.shiftr (Flags header) 1) 0x03 in
  let retain := Z.land (Flags header) 0x01 >? 0 in
  let* topic := wrap "failed to read topic" ReadString in
  let bytesRead := 2 + len topic in
  let* idAndRead :=
    (if qos >? 0
     then let* packetIDBuf := ReadFull 2 in
          ret (Uint16 packetIDBuf, bytesRead + 2)
     else ret (0, bytesRead)) in
  let payloadLen := RemainingLen header - idAndRead.2 in
  let* payload := (if payloadLen >? 0 then ReadFull payloadLen else ret []) in
  ret {| Dup := dup;
         QoS := qos;
         Retain := retain;
         Topic := topic;
         PacketID := idAndRead.1;
         Payload := payload |}.

(** The loop [for bytesRead < remainingLen] of [DecodeSubscribePacket].
    Every iteration adds at least 3 to [bytesRead], so [fuel] iterations are
    enough as soon as [remainingLen - bytesRead <= fuel]
    (lemma [subscribeLoop_fuel] below); [DecodeSubscribePacket] starts the
    loop with that much. *)
Fixpoint subscribeLoop (fuel : nat) (bytesRead remainingLen : Z)
    (topics : list Subscription) : Reader (list Subscription) :=
  if bytesRead <? remainingLen then
    match fuel with
    | O => ret topics
    | S fuel' =>
        let* topic := wrap "failed to read topic filter" ReadString in
        let bytesRead := bytesRead + (2 + len topic) in
        let* qos := ReadByte in
        let bytesRead := bytesRead + 1 in
        subscribeLoop fuel' bytesRead remainingLen
          (topics ++ [ {| Sub_Topic := topic; Sub_QoS := qos |} ])
    end
  else ret topics.

Definition DecodeSubscribePacket (remainingLen : Z) : Reader SubscribePacket :=
  let* packetIDBuf := ReadFull 2 in
  let bytesRead := 2 in
  let* topics :=
    subscribeLoop (Z.to_nat (remainingLen - bytesRead)) bytesRead remainingLen [] in
  ret {| Subscribe_PacketID := Uint16 packetIDBuf;
         Subscribe_Topics := topics |}.

(** The same loop for UNSUBSCRIBE; every iteration adds at least 2. *)
Fixpoint unsubscribeLoop (fuel : nat) (bytesRead remainingLen : Z)
    (topics : list string) : Reader (list string) :=
  if bytesRead <? remainingLen then
    match fuel with
    | O => ret topics
    | S fuel' =>
        let* topic := wrap "failed to read topic filter" ReadString in
        let bytesRead := bytesRead + (2 + len topic) in
        unsubscribeLoop fuel' bytesRead remainingLen (topics ++ [topic])
    end
  else ret topics.

Definition DecodeUnsubscribePacket (remainingLen : Z) : Reader UnsubscribePacket :=
  let* packetIDBuf := ReadFull 2 in
  let bytesRead := 2 in
  let* topics :=
    unsubscribeLoop (Z.to_nat (remainingLen - bytesRead)) bytesRead remainingLen [] in
  ret {| Unsubscribe_PacketID := Uint16 packetIDBuf;
         Unsubscribe_Topics := topics |}.

End mqtt.

(* ===================================================================== *)
(** * Package config: the configuration record and its validation         *)
(* ===================================================================== *)

Module config.

(** A [time.Duration] is a number of nanoseconds. *)
Definition Second : Z := 1000000000.

Record ServerConfig : Type := mkServerConfig {
  Host                : string;
  Port                : Z;
  KeepAlive           : Z;
  WriteTimeout        : Z;
  ReadTimeout         : Z;
  CleanSessionDefault : bool
}.

Record TLSConfig : Type := mkTLSConfig {
  TLS_Enabled : bool;
  CertFile    : string;
  KeyFile     : string;
  CAFile      : string
}.

Record AuthConfig : Type := mkAuthConfig {
  Auth_Enabled         : bool;
  AllowAnonymous       : bool;
  RequireClientCerts   : bool;
  UsernamePasswordFile : string
}.

Record StorageConfig : Type := mkStorageConfig {
  Backend       : string;
  Path          : string;
  RedisAddr     : string;
  RedisPassword : string;
  RedisDB       : Z
}.

Record LimitsConfig : Type := mkLimitsConfig {
  MaxClients          : Z;
  MaxMessageSize      : Z;
  MaxInflightMessages : Z;
  RetainedMessages    : bool
}.

Record QoSConfig : Type := mkQoSConfig {
  MaxQoS        : Z;   (* a byte *)
  RetryInterval : Z;
  MaxRetries    : Z
}.

Record LoggingConfig : Type := mkLoggingConfig {
  Level  : string;
  Format : string;
  Output : string
}.

Record MetricsConfig : Type := mkMetricsConfig {
  Metrics_Enabled : bool;
  Metrics_Port    : Z;
  Metrics_Path    : string
}.

Record Config : Type := mkConfig {
  Server  : ServerConfig;
  TLS     : TLSConfig;
  Auth    : AuthConfig;
  Storage : StorageConfig;
  Limits  : LimitsConfig;
  QoS     : QoSConfig;
  Logging : LoggingConfig;
  Metrics : MetricsConfig
}.

(** [if s == "" { s = d }] and [if x == 0 { x = d }]. *)
Definition orString (s d : string) : string :=
  if String.eqb s "" then d else s.

Definition orInt (x d : Z) : Z :=
  if x =? 0 then d else x.

(** [setDefaults] sets default values for missing configuration options. *)
Definition setDefaults (c : Config) : Config :=
  {| Server :=
       {| Host := orString (Host (Server c)) "127.0.0.1";
          Port := orInt (Port (Server c)) 1883;
          KeepAlive := orInt (KeepAlive (Server c)) (60 * Second);
          WriteTimeout := orInt (WriteTimeout (Server c)) (10 * Second);
          ReadTimeout := orInt (ReadTimeout (Server c)) (30 * Second);
          CleanSessionDefault := CleanSessionDefault (Server c) |};
     TLS := TLS c;
     Auth := Auth c;
     Storage :=
       {| Backend := orString (Backend (Storage c)) "bbolt";
          Path := orString (Path (Storage c)) "./data/mqtt.db";
          RedisAddr := RedisAddr (Storage c);
          RedisPassword := RedisPassword (Storage c);
          RedisDB := RedisDB (Storage c) |};
     Limits :=
       {| MaxClients := orInt (MaxClients (Limits c)) 1000;
          MaxMessageSize := orInt (MaxMessageSize (Limits c)) (256 * 1024);
          MaxInflightMessages := orInt (MaxInflightMessages (Limits c)) 100;
          RetainedMessages := RetainedMessages (Limits c) |};
     QoS :=
       {| MaxQoS := orInt (MaxQoS (QoS c)) 1;
          RetryInterval := orInt (RetryInterval (QoS c)) (10 * Second);
          MaxRetries := orInt (MaxRetries (QoS c)) 3 |};
     Logging :=
       {| Level := orString (Level (Logging c)) "info";
          Format := orString (Format (Logging c)) "text";
          Output := orString (Output (Logging c)) "stdout" |};
     Metrics :=
       {| Metrics_Enabled := Metrics_Enabled (Metrics c);
          Metrics_Port := orInt (Metrics_Port (Metrics c)) 9090;
          Metrics_Path := orString (Metrics_Path (Metrics c)) "/metrics" |} |}.

(** The errors of [Validate], one per [fmt.Errorf] of the source, with the
    value the message prints. *)
Inductive ValidationError : Type :=
  | InvalidPort (port : Z)
  | TLSCertOrKeyMissing
  | InvalidStorageBackend (backend : string)
  | InvalidMaxQoS (max_qos : Z)
  | InvalidLogLevel (level : string)
  | InvalidMetricsPort (port : Z)
  | MetricsPortSameAsServerPort.

Definition validBackends : gmap string bool :=
  <["memory" := true]> (<["bbolt" := true]> (<["redis" := true]> ∅)).

Definition validLevels : gmap string bool :=
  <["debug" := true]> (<["info" := true]> (<["warn" := true]> (<["error" := true]> ∅))).

(** [m[k]] on a [map[string]bool]: [false] for a missing key. *)
Definition index (m : gmap string bool) (k : string) : bool :=
  default false (m !! k).

(** [Validate] checks if the configuration is valid; [None] is [nil]. *)
Definition Validate (c : Config) : option ValidationError :=
  if (Port (Server c) <? 1) || (Port (Server c) >? 65535)
  then Some (InvalidPort (Port (Server c)))
  else if TLS_Enabled (TLS c)
          && (String.eqb (CertFile (TLS c)) "" || String.eqb (KeyFile (TLS c)) "")
  then Some TLSCertOrKeyMissing
  else if negb (index validBackends (Backend (Storage c)))
  then Some (InvalidStorageBackend (Backend (Storage c)))
  else if MaxQoS (QoS c) >? 2
  then Some (InvalidMaxQoS (MaxQoS (QoS c)))
  else if negb (index validLevels (Level (Logging c)))
  then Some (InvalidLogLevel (Level (Logging c)))
  else if Metrics_Enabled (Metrics c)
  then
    if (Metrics_Port (Metrics c) <? 1) || (Metrics_Port (Metrics c) >? 65535)
    then Some (InvalidMetricsPort (Metrics_Port (Metrics c)))
    else if Metrics_Port (Metrics c) =? Port (Server c)
    then Some MetricsPortSameAsServerPort
    else None
  else None.

Inductive LoadError : Type :=
  | ReadFileFailed
  | ParseFailed
  | InvalidConfiguration (e : ValidationError).

Section Load.

(** [os.ReadFile] and [yaml.Unmarshal] into a zero [Config] are outside the
    repository: the file system and the YAML parser are taken as given. *)
Variable os_ReadFile : string → option (list Z).
Variable yaml_Unmarshal : list Z → option Config.

(** [Load] reads and parses the configuration file. *)
Definition Load (path : string) : LoadError + Config :=
  match os_ReadFile path with
  | None => inl ReadFileFailed
  | Some data =>
      match yaml_Unmarshal data with
      | None => inl ParseFailed
      | Some cfg =>
          let cfg := setDefaults cfg in
          match Validate cfg with
          | Some e => inl (InvalidConfiguration e)
          | None => inr cfg
          end
      end
  end.

End Load.

End config.

(* ===================================================================== *)
(** * Package server: the broker                                          *)
(* ===================================================================== *)

Module server.

(** ** Topic matching *)

(** The loop of [splitTopic].  [cur] is the slice [topic[start:i]], the
    characters read since the last ['/']; the first argument is the part of
    the topic not yet visited ([topic[i:]]).  At the end of the topic the
    source appends the last level only when [start < len(topic)], that is
    when [cur] is not empty. *)
Fixpoint splitTopic_loop (rest : string) (cur : string) : list string :=
  match rest with
  | EmptyString =>
      if String.eqb cur "" then [] else [cur]
  | String c rest' =>
      if Ascii.eqb c "/"%char
      then cur :: splitTopic_loop rest' ""
      else splitTopic_loop rest' (cur +:+ String c "")
  end.

(** [splitTopic] splits a topic into levels by ['/']. *)
Definition splitTopic (topic : string) : list string :=
  if String.eqb topic "" then [] else splitTopic_loop topic "".

(** The level-by-level loop of [topicMatch] together with the two checks
    that follow it.  [subLevels] and [pubLevels] are [subLevels[si:]] and
    [pubLevels[pi:]]. *)
Fixpoint matchLevels (subLevels pubLevels : list string) : bool :=
  match subLevels, pubLevels with
  | subLevel :: subLevels', pubLevel :: pubLevels' =>
      if String.eqb subLevel "#" then true
      else if String.eqb subLevel "+" then matchLevels subLevels' pubLevels'
      else if String.eqb subLevel pubLevel then matchLevels subLevels' pubLevels'
      else false
  | subLevel :: _, [] =>
      (* si < len(subLevels) && subLevels[si] == "#" *)
      String.eqb subLevel "#"
  | [], [] => true   (* si == len(subLevels) && pi == len(pubLevels) *)
  | [], _ :: _ => false
  end.

(** [topicMatch] checks if a subscription topic matches a publish topic. *)
Definition topicMatch (subTopic pubTopic : string) : bool :=
  if String.eqb subTopic pubTopic then true
  else matchLevels (splitTopic subTopic) (splitTopic pubTopic).

(** ** Broker state *)

(** A connected client.  [Conn] identifies the socket. *)
Record Client : Type := mkClient {
  ID            : string;
  Conn          : nat;
  CleanSession  : bool;
  Subscriptions : gmap string Z   (* topic -> QoS *)
}.

(** What the broker does, in program order: it writes to a socket, it
    closes one, or it starts a goroutine with
    [go s.deliverMessage(client, pub, subQoS)]. *)
Inductive Event : Type :=
  | EvWrite (conn : nat) (data : list Z)
  | EvClose (conn : nat)
  | EvGo (client : nat) (pub : mqtt.PublishPacket) (subQoS : Z).

(** The [Server] fields the handlers use ([clients], [retainedMsgs]), the
    store of [Client] objects that [*Client] pointers address, the sockets
    that are closed, and the trace of what the broker did so far.
    [retainedMsgs] is [None] for the nil map that [New] leaves and [Some]
    for the map [NewWithConfig] makes. *)
Record State : Type := mkState {
  clients      : gmap string nat;
  retainedMsgs : option (gmap string mqtt.PublishPacket);
  heap         : list Client;
  closed       : gset nat;
  trace        : list Event
}.

(** [New] and [NewWithConfig], on a network with nothing closed yet. *)
Definition New : State :=
  {| clients := ∅; retainedMsgs := None; heap := []; closed := ∅; trace := [] |}.

Definition NewWithConfig : State :=
  {| clients := ∅; retainedMsgs := Some ∅; heap := []; closed := ∅; trace := [] |}.

(** ** Go computations: state, and panics *)

Inductive outcome (A : Type) : Type :=
  | Done (a : A) (st : State)
  | Panic (msg : string) (st : State).
Arguments Done {A} a st.
Arguments Panic {A} msg st.

Definition Go (A : Type) : Type := State → outcome A.

Definition go_ret {A} (a : A) : Go A := λ st, Done a st.

Definition go_bind {A B} (m : Go A) (k : A → Go B) : Go B :=
  λ st, match m st with
        | Done a st' => k a st'
        | Panic msg st' => Panic msg st'
        end.

Definition go_panic {A} (msg : string) : Go A := λ st, Panic msg st.

Notation "'do*' x ':=' m 'in' k" := (go_bind m (λ x, k))
  (at level 10, x name, m at level 100, k at level 200, only parsing).

(** A [for ... range] over a slice, or over a map in the order given. *)
Fixpoint forEach {A} (l : list A) (body : A → Go unit) : Go unit :=
  match l with
  | [] => go_ret tt
  | x :: l' => do* _ := body x in forEach l' body
  end.

(** [defer d] around [m]: [d] runs when [m] returns and when it panics. *)
Definition with_defer {A} (d : Go unit) (m : Go A) : Go A :=
  λ st, match m st with
        | Done a st' =>
            match d st' with
            | Done _ st'' => Done a st''
            | Panic msg st'' => Panic msg st''
            end
        | Panic msg st' =>
            match d st' with
            | Done _ st'' => Panic msg st''
            | Panic msg' st'' => Panic msg' st''
            end
        end.

(** The object a [*Client] points to.  Go pointers never dangle; an address
    outside the store reads as the zero [Client]. *)
Definition zeroClient : Client :=
  {| ID := ""; Conn := 0%nat; CleanSession := false; Subscriptions := ∅ |}.

Definition deref (h : list Client) (p : nat) : Client :=
  default zeroClient (h !! p).

Definition load (p : nat) : Go Client :=
  λ st, Done (deref (heap st) p) st.

(** [&Client{...}]: a fresh object, and its address. *)
Definition alloc (c : Client) : Go nat :=
  λ st, Done (length (heap st))
             {| clients := clients st; retainedMsgs := retainedMsgs st;
                heap := heap st ++ [c]; closed := closed st; trace := trace st |}.

(** [conn.Write(data)]: on a closed socket it fails and sends nothing.  The
    result is [true] when [err == nil]. *)
Definition conn_Write (conn : nat) (data : list Z) : Go bool :=
  λ st, if decide (conn ∈ closed st) then Done false st
        else Done true
               {| clients := clients st; retainedMsgs := retainedMsgs st;
                  heap := heap st; closed := closed st;
                  trace := trace st ++ [EvWrite conn data] |}.

(** [conn.Close()]. *)
Definition conn_Close (conn : nat) : Go unit :=
  λ st, Done tt
          {| clients := clients st; retainedMsgs := retainedMsgs st;
             heap := heap st; closed := {[conn]} ∪ closed st;
             trace := trace st ++ [EvClose conn] |}.

(** ** The order of [range] over a map

    Go leaves the iteration order of a map unspecified.  A [GoRuntime] fixes
    one enumeration per map; the handlers are stated for every runtime
    whose enumerations list exactly the entries of the map ([valid]). *)
Record GoRuntime : Type := mkGoRuntime {
  range_clients  : gmap string nat → list (string * nat);
  range_subs     : gmap string Z → list (string * Z);
  range_retained : gmap string mqtt.PublishPacket → list (string * mqtt.PublishPacket)
}.

Definition valid (rt : GoRuntime) : Prop :=
  (∀ m, range_clients rt m ≡ₚ map_to_list m) ∧
  (∀ m, range_subs rt m ≡ₚ map_to_list m) ∧
  (∀ m, range_retained rt m ≡ₚ map_to_list m).

(** ** Delivery *)

(** The variable-length loop of [deliverMessage] ([for x > 0]); [x] shrinks
    by a factor 128 per iteration, so [fuel] above the bit length of [x] is
    enough. *)
Fixpoint encodeLength (fuel : nat) (x : Z) : list Z :=
  match fuel with
  | O => []
  | S fuel' =>
      if x >? 0 then
        let digit := mqtt.to_byte (x mod 128) in
        let x := x / 128 in
        let digit := if x >? 0 then Z.lor digit 0x80 else digit in
        digit :: encodeLength fuel' x
      else []
  end.

(** The bytes [deliverMessage] builds in [buf]. *)
Definition publishFrame (pub : mqtt.PublishPacket) (subQoS : Z) : list Z :=
  let qos := if subQoS <? mqtt.QoS pub then subQoS else mqtt.QoS pub in
  let fixedHeader := mqtt.to_byte (Z.shiftl mqtt.PUBLISH 4) in
  let fixedHeader := if mqtt.Dup pub then Z.lor fixedHeader 0x08 else fixedHeader in
  let fixedHeader := Z.lor fixedHeader (mqtt.to_byte (Z.shiftl qos 1)) in
  let fixedHeader := if mqtt.Retain pub then Z.lor fixedHeader 0x01 else fixedHeader in
  let remainingLen := 2 + mqtt.len (mqtt.Topic pub) + Z.of_nat (length (mqtt.Payload pub)) in
  let remainingLen := if qos >? 0 then remainingLen + 2 else remainingLen in
  [fixedHeader]
  ++ (if remainingLen <? 128 then [mqtt.to_byte remainingLen]
      else encodeLength (S (Z.to_nat (Z.log2 remainingLen))) remainingLen)
  ++ mqtt.WriteString (mqtt.Topic pub)
  ++ (if qos >? 0 then
        let packetID := if mqtt.PacketID pub =? 0 then 1 else mqtt.PacketID pub in
        [mqtt.to_byte (Z.shiftr packetID 8); mqtt.to_byte (Z.land packetID 0xFF)]
      else [])
  ++ mqtt.Payload pub.

(** [deliverMessage] sends a PUBLISH packet to a subscriber.  It is the body
    of the goroutines that [routeMessage] and [handleSubscribe] start, and
    runs in the state the broker has reached when its goroutine is
    scheduled. *)
Definition deliverMessage (client : nat) (pub : mqtt.PublishPacket) (subQoS : Z)
  : Go unit :=
  do* c := load client in
  do* _ := conn_Write (Conn c) (publishFrame pub subQoS) in
  go_ret tt.

(** [go s.deliverMessage(client, pub, subQoS)].  The statement starts the
    goroutine and the caller goes on at once; the trace records the
    start.  The goroutine itself runs later, or never if the process ends
    first. *)
Definition go_deliverMessage (client : nat) (pub : mqtt.PublishPacket)
    (subQoS : Z) : Go unit :=
  λ st, Done tt
          {| clients := clients st; retainedMsgs := retainedMsgs st;
             heap := heap st; closed := closed st;
             trace := trace st ++ [EvGo client pub subQoS] |}.

(** What the scheduler runs for a goroutine that was started. *)
Definition runGoroutine (ev : Event) : Go unit :=
  match ev with
  | EvGo client pub subQoS => deliverMessage client pub subQoS
  | _ => go_ret tt
  end.

(** The inner loop of [routeMessage]: the first subscription, in iteration
    order, whose filter matches; the loop [break]s there. *)
Fixpoint firstMatch (subs : list (string * Z)) (pubTopic : string)
  : option (string * Z) :=
  match subs with
  | [] => None
  | (subTopic, subQoS) :: subs' =>
      if topicMatch subTopic pubTopic then Some (subTopic, subQoS)
      else firstMatch subs' pubTopic
  end.

(** [routeMessage] delivers a message to all matching subscribers: for each
    of them it starts a [deliverMessage] goroutine. *)
Definition routeMessage (rt : GoRuntime) (pub : mqtt.PublishPacket) : Go unit :=
  λ st,
    forEach (range_clients rt (clients st))
      (λ entry,
         do* c := load entry.2 in
         match firstMatch (range_subs rt (Subscriptions c)) (mqtt.Topic pub) with
         | Some (_, subQoS) => go_deliverMessage entry.2 pub subQoS
         | None => go_ret tt
         end) st.

(** ** Handlers *)

Definition handlePingreq (conn : nat) : Go unit :=
  match mqtt.PingrespPacket_Encode mqtt.mkPingrespPacket with
  | mqtt.Ok data => do* _ := conn_Write conn data in go_ret tt
  | mqtt.Err _ => go_ret tt
  end.

(** [s.clients[id] = client]. *)
Definition storeClient (id : string) (client : nat) : Go unit :=
  λ st, Done tt
          {| clients := <[id := client]> (clients st);
             retainedMsgs := retainedMsgs st; heap := heap st;
             closed := closed st; trace := trace st |}.

(** [handleConnect]; the result is [None] for a nil [*Client]. *)
Definition handleConnect (conn : nat) (reader : list Z) (remainingLen : Z)
  : Go (option nat) :=
  match mqtt.DecodeConnectPacket remainingLen reader with
  | mqtt.Err _ =>
      do* _ := conn_Close conn in
      go_ret None
  | mqtt.Ok (connectPkt, _) =>
      do* client := alloc {| ID := mqtt.ClientID connectPkt;
                             Conn := conn;
                             CleanSession := mqtt.CleanSession connectPkt;
                             Subscriptions := ∅ |} in
      do* _ := storeClient (mqtt.ClientID connectPkt) client in
      do* _ := match mqtt.ConnackPacket_Encode
                       {| mqtt.SessionPresent := false; mqtt.ReturnCode := 0 |} with
               | mqtt.Ok data => do* _ := conn_Write conn data in go_ret tt
               | mqtt.Err _ => go_ret tt
               end in
      go_ret (Some client)
  end.

(** The retained-store update of [handlePublish].  Deleting from a nil map
    does nothing; assigning to one panics. *)
Definition updateRetained (publishPkt : mqtt.PublishPacket) : Go unit :=
  λ st,
    if (length (mqtt.Payload publishPkt) =? 0)%nat then
      Done tt {| clients := clients st;
                 retainedMsgs := delete (mqtt.Topic publishPkt) <$> retainedMsgs st;
                 heap := heap st; closed := closed st; trace := trace st |}
    else
      match retainedMsgs st with
      | None => Panic "assignment to entry in nil map" st
      | Some m =>
          Done tt {| clients := clients st;
                     retainedMsgs := Some (<[mqtt.Topic publishPkt := publishPkt]> m);
                     heap := heap st; closed := closed st; trace := trace st |}
      end.

Definition handlePublish (rt : GoRuntime) (client : nat)
    (header : mqtt.FixedHeader) (data : list Z) : Go unit :=
  match mqtt.DecodePublishPacket header data with
  | mqtt.Err _ => go_ret tt
  | mqtt.Ok (publishPkt, _) =>
      do* _ := (if mqtt.Retain publishPkt then updateRetained publishPkt
                else go_ret tt) in
      do* _ := (if mqtt.QoS publishPkt =? 1 then
                  match mqtt.PubackPacket_Encode
                          {| mqtt.Puback_PacketID := mqtt.PacketID publishPkt |} with
                  | mqtt.Ok ackData =>
                      do* c := load client in
                      do* _ := conn_Write (Conn c) ackData in go_ret tt
                  | mqtt.Err _ => go_ret tt
                  end
                else go_ret tt) in
      routeMessage rt publishPkt
  end.

(** [client.Subscriptions[sub.Topic] = sub.QoS] for each entry, in order. *)
Definition storeSubscriptions (topics : list mqtt.Subscription)
    (subs : gmap string Z) : gmap string Z :=
  foldl (λ m sub, <[mqtt.Sub_Topic sub := mqtt.Sub_QoS sub]> m) subs topics.

(** Writes through a [*Client]. *)
Definition setSubscriptions (client : nat) (subs : gmap string Z) : Go unit :=
  λ st,
    let c := deref (heap st) client in
    Done tt
      {| clients := clients st; retainedMsgs := retainedMsgs st;
         heap := <[client := {| ID := ID c; Conn := Conn c;
                                CleanSession := CleanSession c;
                                Subscriptions := subs |}]> (heap st);
         closed := closed st; trace := trace st |}.

(** The inner loop of the retained delivery in [handleSubscribe]: the first
    entry of the request whose filter matches the retained topic. *)
Fixpoint firstSubMatch (topics : list mqtt.Subscription) (topic : string)
  : option mqtt.Subscription :=
  match topics with
  | [] => None
  | sub :: topics' =>
      if topicMatch (mqtt.Sub_Topic sub) topic then Some sub
      else firstSubMatch topics' topic
  end.

Definition deliverRetained (rt : GoRuntime) (client : nat)
    (topics : list mqtt.Subscription) : Go unit :=
  λ st,
    forEach (range_retained rt (default ∅ (retainedMsgs st)))
      (λ entry,
         match firstSubMatch topics entry.1 with
         | Some sub => go_deliverMessage client entry.2 (mqtt.Sub_QoS sub)
         | None => go_ret tt
         end) st.

Definition handleSubscribe (rt : GoRuntime) (client : nat) (conn : nat)
    (data : list Z) : Go unit :=
  match mqtt.DecodeSubscribePacket (Z.of_nat (length data)) data with
  | mqtt.Err _ => go_ret tt
  | mqtt.Ok (subscribePkt, _) =>
      let topics := mqtt.Subscribe_Topics subscribePkt in
      do* c := load client in
      do* _ := setSubscriptions client (storeSubscriptions topics (Subscriptions c)) in
      let returnCodes := mqtt.Sub_QoS <$> topics in   (* Grant requested QoS *)
      match mqtt.SubackPacket_Encode
              {| mqtt.Suback_PacketID := mqtt.Subscribe_PacketID subscribePkt;
                 mqtt.ReturnCodes := returnCodes |} with
      | mqtt.Err _ => go_ret tt
      | mqtt.Ok ackData =>
          do* sent := conn_Write (Conn c) ackData in
          if sent then deliverRetained rt client topics
          else go_ret tt
      end
  end.

Definition handleUnsubscribe (client : nat) (data : list Z) : Go unit :=
  match mqtt.DecodeUnsubscribePacket (Z.of_nat (length data)) data with
  | mqtt.Err _ => go_ret tt
  | mqtt.Ok (unsubscribePkt, _) =>
      do* c := load client in
      do* _ := setSubscriptions client
                 (foldl (λ m topic, delete topic m) (Subscriptions c)
                        (mqtt.Unsubscribe_Topics unsubscribePkt)) in
      match mqtt.UnsubackPacket_Encode
              {| mqtt.Unsuback_PacketID := mqtt.Unsubscribe_PacketID unsubscribePkt |} with
      | mqtt.Err _ => go_ret tt
      | mqtt.Ok ackData =>
          do* _ := conn_Write (Conn c) ackData in go_ret tt
      end
  end.

(** ** The connection loop *)

(** How one iteration of the loop of [handleConnection] ends: with the next
    iteration ([client] and the unread input), or with [return]. *)
Inductive iteration : Type :=
  | Continue (client : option nat) (reader : list Z)
  | Return.

(** One iteration of the [for] loop of [handleConnection].  [client] is the
    local [var client *Client], [None] while it is nil; [reader] is what the
    peer sends from here on. *)
Definition handlePacket (rt : GoRuntime) (conn : nat) (client : option nat)
    (reader : list Z) : Go iteration :=
  match mqtt.ReadFixedHeader reader with
  | mqtt.Err _ => go_ret Return
  | mqtt.Ok (header, reader) =>
      match mqtt.ReadFull (mqtt.RemainingLen header) reader with
      | mqtt.Err _ => go_ret Return
      | mqtt.Ok (remainingData, reader) =>
          let t := mqtt.PacketType header in
          if t =? mqtt.CONNECT then
            do* client := handleConnect conn remainingData (mqtt.RemainingLen header) in
            match client with
            | None => go_ret Return   (* Connection rejected *)
            | Some _ => go_ret (Continue client reader)
            end
          else if t =? mqtt.PUBLISH then
            match client with
            | None => go_ret Return
            | Some c =>
                do* _ := handlePublish rt c header remainingData in
                go_ret (Continue client reader)
            end
          else if t =? mqtt.SUBSCRIBE then
            match client with
            | None => go_ret Return
            | Some c =>
                do* _ := handleSubscribe rt c conn remainingData in
                go_ret (Continue client reader)
            end
          else if t =? mqtt.UNSUBSCRIBE then
            match client with
            | None => go_ret Return
            | Some c =>
                do* _ := handleUnsubscribe c remainingData in
                go_ret (Continue client reader)
            end
          else if t =? mqtt.PINGREQ then
            do* _ := handlePingreq conn in
            go_ret (Continue client reader)
          else if t =? mqtt.DISCONNECT then
            match client with
            | None =>
                (* client.ID with client == nil *)
                go_panic "invalid memory address or nil pointer dereference"
            | Some _ => go_ret Return
            end
          else
            go_ret (Continue client reader)
      end
  end.

(** The loop.  An iteration that continues has read a fixed header, at least
    two bytes, so [fuel] above the length of the input is enough (lemma
    [connectionLoop_fuel]); the result is [false] only when [fuel] runs
    out. *)
Fixpoint connectionLoop (rt : GoRuntime) (fuel : nat) (conn : nat)
    (client : option nat) (reader : list Z) : Go bool :=
  match fuel with
  | O => go_ret false
  | S fuel' =>
      do* it := handlePacket rt conn client reader in
      match it with
      | Return => go_ret true
      | Continue client reader => connectionLoop rt fuel' conn client reader
      end
  end.

(** [handleConnection] processes an individual client connection whose peer
    sends [input] and then closes. *)
Definition handleConnection (rt : GoRuntime) (conn : nat) (input : list Z)
  : Go bool :=
  with_defer (conn_Close conn)
    (connectionLoop rt (S (length input)) conn None input).

(** ** Start and shutdown *)

(** The fields of [Server] that [Start] and [Stop] use besides the
    registry: [running], and [listener], [None] while it is nil. *)
Record Control : Type := mkControl {
  running  : bool;
  listener : option nat
}.

(** [Start], up to its accept loop.  [net_Listen] is [net.Listen("tcp", _)]:
    an error, or a listener.  The result is the error [Start] returns
    before it accepts anything, or the listener it goes on to accept
    connections from. *)
Definition Start (net_Listen : string → mqtt.error + nat) (cfg : config.Config)
    (ctl : Control) : Control * (mqtt.error + nat) :=
  if running ctl then (ctl, inl (mqtt.Errorf "server is already running"))
  else
    let ctl := {| running := true; listener := listener ctl |} in
    let addr := config.Host (config.Server cfg) +:+ ":"
                +:+ pretty (config.Port (config.Server cfg)) in
    match net_Listen addr with
    | inl err => (ctl, inl (mqtt.Wrapped "failed to start listener" err))
    | inr l => ({| running := true; listener := Some l |}, inr l)
    end.

(** [Stop] gracefully shuts down the server.  [listener_Close] is what
    [s.listener.Close()] returns, [None] for nil.  A registered session
    always has a socket, so the test [client.Conn != nil] holds. *)
Definition Stop (rt : GoRuntime) (listener_Close : option mqtt.error)
    (ctl : Control) : Go (Control * option mqtt.error) :=
  if negb (running ctl) then go_ret (ctl, None)
  else
    let ctl := {| running := false; listener := listener ctl |} in
    match listener ctl, listener_Close with
    | Some _, Some err =>
        go_ret (ctl, Some (mqtt.Wrapped "error closing listener" err))
    | _, _ =>
        λ st,
          (do* _ := forEach (range_clients rt (clients st))
                      (λ entry, do* c := load entry.2 in conn_Close (Conn c)) in
           go_ret (ctl, None)) st
    end.

End server.

(* ===================================================================== *)
(** * Package store: the keys of the bbolt store                          *)
(* ===================================================================== *)

Module store.

(** [Message] represents an MQTT message. *)
Record Message : Type := mkMessage {
  Topic   : string;
  Payload : list Z;
  QoS     : Z;
  Retain  : bool
}.

(** Bucket names. *)
Definition messagesBucket : string := "messages".
Definition inflightBucket : string := "inflight".

Section BboltStore.

(** [encoding/json] and [go.etcd.io/bbolt] are outside the repository: the
    JSON encoder and the database transactions are taken as given.  [DB]
    is the state of the database; [update_Put bucket key data] is
    [db.Update] around [tx.Bucket(bucket).Put(key, data)] and
    [update_Delete bucket key] is [db.Update] around
    [tx.Bucket(bucket).Delete(key)]; each gives the error it returns,
    [None] for nil, and the database it leaves. *)
Variable DB : Type.
Variable json_Marshal : Message → mqtt.error + list Z.
Variable update_Put : string → string → list Z → DB → option mqtt.error * DB.
Variable update_Delete : string → string → DB → option mqtt.error * DB.

(** [EnqueueMessage] adds a message to a client's queue. *)
Definition EnqueueMessage (clientID : string) (msg : Message) (db : DB)
  : option mqtt.error * DB :=
  let queueKey := clientID +:+ ":" +:+ pretty (length (Payload msg)) in
  match json_Marshal msg with
  | inl err => (Some (mqtt.Wrapped "failed to marshal message" err), db)
  | inr data => update_Put messagesBucket queueKey data db
  end.

(** [PersistInflight] stores an in-flight QoS 1/2 message. *)
Definition PersistInflight (clientID : string) (packetID : Z) (msg : Message)
    (db : DB) : option mqtt.error * DB :=
  let key := clientID +:+ ":" +:+ pretty packetID in
  match json_Marshal msg with
  | inl err => (Some (mqtt.Wrapped "failed to marshal inflight message" err), db)
  | inr data => update_Put inflightBucket key data db
  end.

(** [ClearInflight] removes an in-flight message after acknowledgment. *)
Definition ClearInflight (clientID : string) (packetID : Z) (db : DB)
  : option mqtt.error * DB :=
  let key := clientID +:+ ":" +:+ pretty packetID in
  update_Delete inflightBucket key db.

End BboltStore.

End store.

(* ===================================================================== *)
(** * Statements of the specification                                     *)
(* ===================================================================== *)

Module spec.

(** A topic level: a string without ['/']. *)
Fixpoint isLevel (s : string) : bool :=
  match s with
  | EmptyString => true
  | String c s' => negb (Ascii.eqb c "/"%char) && isLevel s'
  end.

(** The first level of a filter, as [splitTopic] gives it. *)
Definition firstLevel (filter : string) : option string :=
  head (server.splitTopic filter).

(** The state [st] after the events [evs]. *)
Definition emit (evs : list server.Event) (st : server.State) : server.State :=
  {| server.clients := server.clients st;
     server.retainedMsgs := server.retainedMsgs st;
     server.heap := server.heap st;
     server.closed := server.closed st;
     server.trace := server.trace st ++ evs |}.

(** What a write of [data] to [conn] adds to the trace in state [st]. *)
Definition written (st : server.State) (conn : nat) (data : list Z)
  : list server.Event :=
  if decide (conn ∈ server.closed st) then [] else [server.EvWrite conn data].

(** The retained store, empty when the map is nil. *)
Definition retained (st : server.State) : gmap string mqtt.PublishPacket :=
  default ∅ (server.retainedMsgs st).

(** The part of a trace that peers can observe: the socket operations. *)
Fixpoint observable (evs : list server.Event) : list server.Event :=
  match evs with
  | [] => []
  | server.EvGo _ _ _ :: evs' => observable evs'
  | ev :: evs' => ev :: observable evs'
  end.

(** The QoS bits of the first byte of a frame. *)
Definition frameQoS (frame : list Z) : Z :=
  Z.land (Z.shiftr (default 0 (head frame)) 1) 0x03.

(** The events of one iteration of the outer loop of [routeMessage]. *)
Definition routeEvents (rt : server.GoRuntime) (pub : mqtt.PublishPacket)
    (st : server.State) (entry : string * nat) : list server.Event :=
  let c := server.deref (server.heap st) entry.2 in
  match server.firstMatch (server.range_subs rt (server.Subscriptions c))
                          (mqtt.Topic pub) with
  | Some (_, subQoS) => [server.EvGo entry.2 pub subQoS]
  | None => []
  end.

(** The first subscription of an enumeration [subs], in its order, whose
    filter matches [topic]. *)
Definition firstFilter (subs : list (string * Z)) (topic : string)
    (f : string) (g : Z) : Prop :=
  ∃ i, subs !! i = Some (f, g) ∧
       server.topicMatch f topic = true ∧
       ∀ j f' g', (j < i)%nat → subs !! j = Some (f', g') →
                  server.topicMatch f' topic = false.

(** What routing a publish [pub] does for one registry entry: nothing when
    no filter of its session matches the topic, and otherwise the start of
    one delivery to that session, with the granted QoS of the first
    matching filter in the order the runtime enumerates the session's
    subscriptions. *)
Definition started (rt : server.GoRuntime) (pub : mqtt.PublishPacket)
    (st : server.State) (entry : string * nat) (evs : list server.Event)
  : Prop :=
  let c := server.deref (server.heap st) entry.2 in
  (evs = [] ∧
   ∀ f g, server.Subscriptions c !! f = Some g →
          server.topicMatch f (mqtt.Topic pub) = false)
  ∨ (∃ f g, firstFilter (server.range_subs rt (server.Subscriptions c))
                        (mqtt.Topic pub) f g ∧
            server.Subscriptions c !! f = Some g ∧
            evs = [server.EvGo entry.2 pub g]).

(** The SUBACK frame for a packet identifier and its return codes. *)
Definition subackFrame (packetID : Z) (returnCodes : list Z) : list Z :=
  [0x90; mqtt.to_byte (2 + Z.of_nat (length returnCodes))]
  ++ mqtt.PutUint16 packetID ++ returnCodes.

(** The QoS the last entry for [filter] in a SUBSCRIBE asks for. *)
Fixpoint lastRequested (filter : string) (topics : list mqtt.Subscription)
  : option Z :=
  match topics with
  | [] => None
  | sub :: topics' =>
      match lastRequested filter topics' with
      | Some qos => Some qos
      | None =>
          if decide (mqtt.Sub_Topic sub = filter) then Some (mqtt.Sub_QoS sub)
          else None
      end
  end.

(** The state after [client.Subscriptions] becomes [subs]. *)
Definition withSubscriptions (client : nat) (subs : gmap string Z)
    (st : server.State) : server.State :=
  {| server.clients := server.clients st;
     server.retainedMsgs := server.retainedMsgs st;
     server.heap :=
       <[client := {| server.ID := server.ID (server.deref (server.heap st) client);
                      server.Conn := server.Conn (server.deref (server.heap st) client);
                      server.CleanSession :=
                        server.CleanSession (server.deref (server.heap st) client);
                      server.Subscriptions := subs |}]> (server.heap st);
     server.closed := server.closed st;
     server.trace := server.trace st |}.

(** The state with the retained store [m]. *)
Definition withRetained (m : option (gmap string mqtt.PublishPacket))
    (st : server.State) : server.State :=
  {| server.clients := server.clients st;
     server.retainedMsgs := m;
     server.heap := server.heap st;
     server.closed := server.closed st;
     server.trace := server.trace st |}.

(** The events of one iteration of the retained delivery of
    [handleSubscribe], for the session [client]. *)
Definition retainedEvents (client : nat)
    (topics : list mqtt.Subscription) (entry : string * mqtt.PublishPacket)
  : list server.Event :=
  match server.firstSubMatch topics entry.1 with
  | Some sub => [server.EvGo client entry.2 (mqtt.Sub_QoS sub)]
  | None => []
  end.

(** The retained store after a PUBLISH: a retained publish with a payload
    is stored under its topic, one without payload removes the entry of its
    topic, and a publish without the retain flag leaves the store alone. *)
Definition stored (publishPkt : mqtt.PublishPacket)
    (m : option (gmap string mqtt.PublishPacket))
  : option (gmap string mqtt.PublishPacket) :=
  if mqtt.Retain publishPkt then
    match mqtt.Payload publishPkt with
    | [] => delete (mqtt.Topic publishPkt) <$> m
    | _ :: _ => insert (mqtt.Topic publishPkt) publishPkt <$> m
    end
  else m.

(** Every retained message is stored under its own topic. *)
Definition keyed (st : server.State) : Prop :=
  ∀ k msg, retained st !! k = Some msg → mqtt.Topic msg = k.

(** The validation rules the specification lists. *)
Definition listedRules (c : config.Config) : Prop :=
  1 ≤ config.Port (config.Server c) ≤ 65535 ∧
  (config.TLS_Enabled (config.TLS c) = true →
   config.CertFile (config.TLS c) ≠ "" ∧ config.KeyFile (config.TLS c) ≠ "") ∧
  config.Backend (config.Storage c) ∈ ["memory"; "bbolt"; "redis"] ∧
  config.MaxQoS (config.QoS c) ≤ 2 ∧
  config.Level (config.Logging c) ∈ ["debug"; "info"; "warn"; "error"] ∧
  (config.Metrics_Enabled (config.Metrics c) = true →
   config.Metrics_Port (config.Metrics c) ≠ config.Port (config.Server c)).

(** The rules [Validate] enforces: the listed ones, and the range of the
    metrics port when metrics are enabled. *)
Definition enforcedRules (c : config.Config) : Prop :=
  listedRules c ∧
  (config.Metrics_Enabled (config.Metrics c) = true →
   1 ≤ config.Metrics_Port (config.Metrics c) ≤ 65535).

(** The packet a subscriber decodes from the frame [deliverMessage] builds
    for [pub] at subscription QoS [subQoS]. *)
Definition redelivered (pub : mqtt.PublishPacket) (subQoS : Z)
  : mqtt.PublishPacket :=
  let qos := Z.min (mqtt.QoS pub) subQoS in
  {| mqtt.Dup := mqtt.Dup pub;
     mqtt.QoS := qos;
     mqtt.Retain := mqtt.Retain pub;
     mqtt.Topic := mqtt.Topic pub;
     mqtt.PacketID :=
       if qos >? 0 then (if mqtt.PacketID pub =? 0 then 1 else mqtt.PacketID pub)
       else 0;
     mqtt.Payload := mqtt.Payload pub |}.

(** The variable header and payload of a SUBSCRIBE: the packet identifier,
    then each filter as a length-prefixed string followed by its QoS
    byte. *)
Definition subscribeBody (packetID : Z) (topics : list mqtt.Subscription)
  : list Z :=
  mqtt.PutUint16 packetID
  ++ concat ((λ sub, mqtt.WriteString (mqtt.Sub_Topic sub) ++ [mqtt.Sub_QoS sub])
             <$> topics).

(** The variable header and payload of an UNSUBSCRIBE: the packet
    identifier, then each filter as a length-prefixed string. *)
Definition unsubscribeBody (packetID : Z) (topics : list string) : list Z :=
  mqtt.PutUint16 packetID ++ concat (mqtt.WriteString <$> topics).

(** A byte field behind its 16-bit length (will message, password). *)
Definition lengthPrefixed (b : list Z) : list Z :=
  mqtt.PutUint16 (Z.of_nat (length b)) ++ b.

(** The variable header and payload of a CONNECT with connect flags
    [flags]: protocol name and level, the flags, the keep-alive, the client
    identifier, and the will, user name and password that the flags
    announce. *)
Definition connectBody (c : mqtt.ConnectPacket) (flags : Z) : list Z :=
  mqtt.WriteString (mqtt.ProtocolName c)
  ++ [mqtt.ProtocolVersion c; flags]
  ++ mqtt.PutUint16 (mqtt.KeepAlive c)
  ++ mqtt.WriteString (mqtt.ClientID c)
  ++ (if mqtt.WillFlag c
      then mqtt.WriteString (mqtt.WillTopic c) ++ lengthPrefixed (mqtt.WillMessage c)
      else [])
  ++ (if mqtt.UsernameFlag c then mqtt.WriteString (mqtt.Username c) else [])
  ++ (if mqtt.PasswordFlag c then lengthPrefixed (mqtt.Password c) else []).

(** The flag fields of [c] are the bits of [flags], and the fields the
    flags leave out are empty. *)
Definition connectFlags (c : mqtt.ConnectPacket) (flags : Z) : Prop :=
  mqtt.UsernameFlag c = (Z.land flags 0x80 >? 0) ∧
  mqtt.PasswordFlag c = (Z.land flags 0x40 >? 0) ∧
  mqtt.WillRetain c = (Z.land flags 0x20 >? 0) ∧
  mqtt.WillQoS c = Z.land (Z.shiftr flags 3) 0x03 ∧
  mqtt.WillFlag c = (Z.land flags 0x04 >? 0) ∧
  mqtt.CleanSession c = (Z.land flags 0x02 >? 0) ∧
  (mqtt.WillFlag c = false → mqtt.WillTopic c = "" ∧ mqtt.WillMessage c = []) ∧
  (mqtt.UsernameFlag c = false → mqtt.Username c = "") ∧
  (mqtt.PasswordFlag c = false → mqtt.Password c = []).

(** Every field of [c] fits its 16-bit length or value. *)
Definition connectSized (c : mqtt.ConnectPacket) : Prop :=
  mqtt.len (mqtt.ProtocolName c) < 65536 ∧
  0 ≤ mqtt.KeepAlive c < 65536 ∧
  mqtt.len (mqtt.ClientID c) < 65536 ∧
  mqtt.len (mqtt.WillTopic c) < 65536 ∧
  Z.of_nat (length (mqtt.WillMessage c)) < 65536 ∧
  mqtt.len (mqtt.Username c) < 65536 ∧
  Z.of_nat (length (mqtt.Password c)) < 65536.

(** Topic levels joined by ['/']. *)
Fixpoint joinLevels (levels : list string) : string :=
  match levels with
  | [] => ""
  | [l] => l
  | l :: levels' => l +:+ String "/" (joinLevels levels')
  end.

(** Levels without a wildcard. *)
Definition plain (levels : list string) : Prop :=
  Forall (λ l, l ≠ "#" ∧ l ≠ "+") levels.

(** The state a computation ends in, whether it returns or panics. *)
Definition final {A} (o : server.outcome A) : server.State :=
  match o with
  | server.Done _ st => st
  | server.Panic _ st => st
  end.

(** Every registry entry addresses a session object, and the object carries
    the identifier it is registered under. *)
Definition registered (st : server.State) : Prop :=
  ∀ id p, server.clients st !! id = Some p →
          (p < length (server.heap st))%nat ∧
          server.ID (server.deref (server.heap st) p) = id.

(** [st'] is [st], grown: every registered identifier is still registered,
    every session object is still there with its identifier and its
    socket, every closed socket is still closed, and the trace has only
    been added to. *)
Definition grows (st st' : server.State) : Prop :=
  (∀ id, is_Some (server.clients st !! id) → is_Some (server.clients st' !! id)) ∧
  (∀ p c, server.heap st !! p = Some c →
          ∃ c', server.heap st' !! p = Some c' ∧
                server.ID c' = server.ID c ∧ server.Conn c' = server.Conn c) ∧
  server.closed st ⊆ server.closed st' ∧
  server.trace st `prefix_of` server.trace st'.

(** What the broker does in one step: it grows, and keeps the registry
    consistent. *)
Definition step (st st' : server.State) : Prop :=
  grows st st' ∧ (registered st → registered st').

(** The UNSUBACK frame for a packet identifier. *)
Definition unsubackFrame (packetID : Z) : list Z :=
  [0xB0; 2] ++ mqtt.PutUint16 packetID.

(** The PUBACK frame for a packet identifier. *)
Definition pubackFrame (packetID : Z) : list Z :=
  [0x40; 2] ++ mqtt.PutUint16 packetID.

(** The first entry of a SUBSCRIBE, in request order, whose filter matches
    [topic]. *)
Definition firstRequest (topics : list mqtt.Subscription) (topic : string)
    (sub : mqtt.Subscription) : Prop :=
  ∃ i, topics !! i = Some sub ∧
       server.topicMatch (mqtt.Sub_Topic sub) topic = true ∧
       ∀ j sub', (j < i)%nat → topics !! j = Some sub' →
                 server.topicMatch (mqtt.Sub_Topic sub') topic = false.

(** What a SUBSCRIBE with entries [topics] from the session [client] does
    for one entry of the retained store: nothing when no filter of the
    request matches the topic, and otherwise the start of one delivery of
    the retained message to the session, with the QoS of the first entry
    that matches. *)
Definition retainedFor (client : nat) (topics : list mqtt.Subscription)
    (entry : string * mqtt.PublishPacket) (evs : list server.Event) : Prop :=
  (evs = [] ∧
   ∀ sub, sub ∈ topics → server.topicMatch (mqtt.Sub_Topic sub) entry.1 = false)
  ∨ (∃ sub, firstRequest topics entry.1 sub ∧
            evs = [server.EvGo client entry.2 (mqtt.Sub_QoS sub)]).

End spec.

(* ===================================================================== *)
(** * Concrete inputs                                                     *)
(* ===================================================================== *)

Module scenario.

(** The configuration of the integration tests ([startTestServer]). *)
Definition testConfig : config.Config :=
  {| config.Server :=
       {| config.Host := "127.0.0.1"; config.Port := 1884;
          config.KeepAlive := 60 * config.Second;
          config.WriteTimeout := 10 * config.Second;
          config.ReadTimeout := 30 * config.Second;
          config.CleanSessionDefault := false |};
     config.TLS :=
       {| config.TLS_Enabled := false; config.CertFile := "";
          config.KeyFile := ""; config.CAFile := "" |};
     config.Auth :=
       {| config.Auth_Enabled := false; config.AllowAnonymous := false;
          config.RequireClientCerts := false;
          config.UsernamePasswordFile := "" |};
     config.Storage :=
       {| config.Backend := "bbolt"; config.Path := "./test_data/test_mqtt.db";
          config.RedisAddr := ""; config.RedisPassword := "";
          config.RedisDB := 0 |};
     config.Limits :=
       {| config.MaxClients := 1000; config.MaxMessageSize := 256 * 1024;
          config.MaxInflightMessages := 100; config.RetainedMessages := true |};
     config.QoS :=
       {| config.MaxQoS := 1; config.RetryInterval := 10 * config.Second;
          config.MaxRetries := 3 |};
     config.Logging :=
       {| config.Level := "info"; config.Format := "text";
          config.Output := "stdout" |};
     config.Metrics :=
       {| config.Metrics_Enabled := false; config.Metrics_Port := 0;
          config.Metrics_Path := "" |} |}.

(** [testConfig] with the metrics endpoint enabled on the given port. *)
Definition withMetrics (port : Z) (c : config.Config) : config.Config :=
  {| config.Server := config.Server c; config.TLS := config.TLS c;
     config.Auth := config.Auth c; config.Storage := config.Storage c;
     config.Limits := config.Limits c; config.QoS := config.QoS c;
     config.Logging := config.Logging c;
     config.Metrics :=
       {| config.Metrics_Enabled := true; config.Metrics_Port := port;
          config.Metrics_Path := "/metrics" |} |}.

(** The zero [Config], what [yaml.Unmarshal] leaves for an empty
    document. *)
Definition zeroConfig : config.Config :=
  {| config.Server :=
       {| config.Host := ""; config.Port := 0; config.KeepAlive := 0;
          config.WriteTimeout := 0; config.ReadTimeout := 0;
          config.CleanSessionDefault := false |};
     config.TLS :=
       {| config.TLS_Enabled := false; config.CertFile := "";
          config.KeyFile := ""; config.CAFile := "" |};
     config.Auth :=
       {| config.Auth_Enabled := false; config.AllowAnonymous := false;
          config.RequireClientCerts := false;
          config.UsernamePasswordFile := "" |};
     config.Storage :=
       {| config.Backend := ""; config.Path := ""; config.RedisAddr := "";
          config.RedisPassword := ""; config.RedisDB := 0 |};
     config.Limits :=
       {| config.MaxClients := 0; config.MaxMessageSize := 0;
          config.MaxInflightMessages := 0; config.RetainedMessages := false |};
     config.QoS :=
       {| config.MaxQoS := 0; config.RetryInterval := 0; config.MaxRetries := 0 |};
     config.Logging :=
       {| config.Level := ""; config.Format := ""; config.Output := "" |};
     config.Metrics :=
       {| config.Metrics_Enabled := false; config.Metrics_Port := 0;
          config.Metrics_Path := "" |} |}.

(** A runtime that enumerates every map in the order of [map_to_list]. *)
Definition runtime : server.GoRuntime :=
  {| server.range_clients := map_to_list;
     server.range_subs := map_to_list;
     server.range_retained := map_to_list |}.

(** One registered session, on socket 1, subscribed to ["a/#"] at QoS 0 and
    to ["a/b"] at QoS 1. *)
Definition mixedQoS : server.State :=
  {| server.clients := {[ "sub" := 0%nat ]};
     server.retainedMsgs := Some ∅;
     server.heap :=
       [ {| server.ID := "sub"; server.Conn := 1%nat;
            server.CleanSession := true;
            server.Subscriptions := <["a/#" := 0]> (<["a/b" := 1]> ∅) |} ];
     server.closed := ∅;
     server.trace := [] |}.

(** A QoS 1 publish of ["hi"] on ["a/b"], packet identifier 42. *)
Definition publishAB : mqtt.PublishPacket :=
  {| mqtt.Dup := false; mqtt.QoS := 1; mqtt.Retain := false;
     mqtt.Topic := "a/b"; mqtt.PacketID := 42; mqtt.Payload := [104; 105] |}.

(** The variable header and payload of a CONNECT from client ["x"]:
    protocol ["MQTT"] version 4, clean session, keep-alive 60 s. *)
Definition connectX : list Z :=
  [0; 4; 77; 81; 84; 84; 4; 2; 0; 60; 0; 1; 120].

(** The state an outcome ends in. *)
Definition stateOf {A} (o : server.outcome A) : server.State :=
  match o with
  | server.Done _ st => st
  | server.Panic _ st => st
  end.

(** CONNECT from ["x"] on socket 1 of a fresh broker. *)
Definition oneConnect : server.outcome (option nat) :=
  server.handleConnect 1 connectX 13 server.NewWithConfig.

(** Then CONNECT from ["x"] again, on socket 2. *)
Definition twoConnects : server.outcome (option nat) :=
  server.handleConnect 2 connectX 13 (stateOf oneConnect).

(** The body of a SUBSCRIBE, packet identifier 1, to ["a"] at QoS 2. *)
Definition subscribeA2 : list Z := [0; 1; 0; 1; 97; 2].

(** The body of a PUBLISH on ["a/b"] with payload ["hi"], and its fixed
    header with the retain flag set, QoS 0. *)
Definition publishBody : list Z := [0; 3; 97; 47; 98; 104; 105].

Definition retainHeader : mqtt.FixedHeader :=
  {| mqtt.PacketType := mqtt.PUBLISH; mqtt.Flags := 1; mqtt.RemainingLen := 7 |}.

(** *** A client, for the end-to-end scenarios

    The packets a client puts on the wire (the integration tests use the
    Paho client for this); all bodies here are shorter than 128 bytes. *)

Definition frame (firstByte : Z) (body : list Z) : list Z :=
  [firstByte; Z.of_nat (length body)] ++ body.

(** CONNECT, protocol ["MQTT"] version 4, clean session, keep-alive 60 s. *)
Definition connectPacket (clientID : string) : list Z :=
  frame 0x10 ([0; 4; 77; 81; 84; 84; 4; 2; 0; 60] ++ mqtt.WriteString clientID).

(** SUBSCRIBE with one entry. *)
Definition subscribePacket (packetID : Z) (filter : string) (qos : Z) : list Z :=
  frame 0x82 (mqtt.PutUint16 packetID ++ mqtt.WriteString filter ++ [qos]).

(** PUBLISH at QoS 0, with or without the retain flag. *)
Definition publishPacket (retain : bool) (topic payload : string) : list Z :=
  frame (if retain then 0x31 else 0x30)
        (mqtt.WriteString topic ++ mqtt.bytes_of_string payload).

(** One packet from the socket [conn], whose handler holds [client]. *)
Definition receive (conn : nat) (client : option nat) (packet : list Z)
    (st : server.State) : server.State :=
  stateOf (server.handlePacket runtime conn client packet st).

(** The goroutines started since the state [before] run, one after the
    other in the order of their start: one schedule among those the Go
    runtime may choose. *)
Definition settle (before st : server.State) : server.State :=
  stateOf (server.forEach (drop (length (server.trace before)) (server.trace st))
                          server.runGoroutine st).

(** One packet is handled, and the deliveries it started run before the
    next packet arrives, as when a test waits for its messages. *)
Definition exchange (conn : nat) (client : option nat) (packet : list Z)
    (st : server.State) : server.State :=
  settle st (receive conn client packet st).

(** Scenario 1: the subscriber connects on socket 1 and subscribes to
    ["test/topic"]; the publisher connects on socket 2 and publishes. *)
Definition basicPubSub : server.State :=
  exchange 2 (Some 1%nat) (publishPacket false "test/topic" "Hello MQTT Server!")
    (exchange 2 None (connectPacket "pub")
       (exchange 1 (Some 0%nat) (subscribePacket 1 "test/topic" 0)
          (exchange 1 None (connectPacket "sub") server.NewWithConfig))).

(** Scenarios 3 and 4: a retained publish on ["status/system"], a
    subscriber on socket 2, the retained message cleared, and a new
    subscriber on socket 3. *)
Definition retainedThenSubscribe : server.State :=
  exchange 2 (Some 1%nat) (subscribePacket 1 "status/system" 0)
    (exchange 2 None (connectPacket "sub")
       (exchange 1 (Some 0%nat) (publishPacket true "status/system" "running")
          (exchange 1 None (connectPacket "pub") server.NewWithConfig))).

Definition clearedThenSubscribe : server.State :=
  exchange 3 (Some 2%nat) (subscribePacket 1 "status/system" 0)
    (exchange 3 None (connectPacket "new")
       (exchange 1 (Some 0%nat) (publishPacket true "status/system" "")
          retainedThenSubscribe)).

(** The client ["x"] connects on socket 1 and subscribes to ["a/b"] at
    QoS 1; then a client connects as ["x"] on socket 2.  The registry slot
    ["x"] holds the second session; the first is still connected. *)
Definition replaced : server.State :=
  receive 2 None (connectPacket "x")
    (receive 1 (Some 0%nat) (subscribePacket 1 "a/b" 1)
       (receive 1 None (connectPacket "x") server.NewWithConfig)).

(** One connection, on socket 1, sends CONNECT as ["a"], subscribes to
    ["a/b"], sends CONNECT again as ["b"] and subscribes again: the
    registry holds two sessions, both on socket 1. *)
Definition twoIds : server.State :=
  receive 1 (Some 1%nat) (subscribePacket 2 "a/b" 1)
    (receive 1 (Some 0%nat) (connectPacket "b")
       (receive 1 (Some 0%nat) (subscribePacket 1 "a/b" 1)
          (receive 1 None (connectPacket "a") server.NewWithConfig))).

(** A CONNECT of protocol level 3 with a will, a user name and a
    password; its connect flags are [0xEE]. *)
Definition willConnect : mqtt.ConnectPacket :=
  {| mqtt.ProtocolName := "MQIsdp"; mqtt.ProtocolVersion := 3;
     mqtt.CleanSession := true; mqtt.WillFlag := true; mqtt.WillQoS := 1;
     mqtt.WillRetain := true; mqtt.PasswordFlag := true;
     mqtt.UsernameFlag := true; mqtt.KeepAlive := 60; mqtt.ClientID := "x";
     mqtt.WillTopic := "w"; mqtt.WillMessage := [1]; mqtt.Username := "u";
     mqtt.Password := [2] |}.

End scenario.

(* ===================================================================== *)
(** * Topic matching                                                      *)
(* ===================================================================== *)

Section TopicMatching.

Import server.

Lemma append_nil_l (s : string) : "" +:+ s = s.
Proof. reflexivity. Qed.

Lemma append_cons (c : ascii) (s t : string) :
  String c s +:+ t = String c (s +:+ t).
Proof. reflexivity. Qed.

Lemma append_snoc (cur : string) (c : ascii) (s : string) :
  (cur +:+ String c "") +:+ s = cur +:+ String c s.
Proof.
  induction cur as [|d cur IH]; [done |].
  by rewrite !append_cons, IH.
Qed.

Lemma append_empty_r (s : string) : s +:+ "" = s.
Proof.
  induction s as [|c s IH]; [done |].
  by rewrite append_cons, IH.
Qed.

(** A level followed by ['/'] is split off whole, whatever follows. *)
Lemma splitTopic_loop_level (seg rest cur : string) :
  spec.isLevel seg = true →
  splitTopic_loop (seg +:+ String "/" rest) cur
  = (cur +:+ seg) :: splitTopic_loop rest "".
Proof.
  revert cur. induction seg as [|c seg IH]; intros cur Hseg.
  - rewrite append_nil_l, append_empty_r. reflexivity.
  - simpl in Hseg. apply andb_prop in Hseg as [Hc Hseg].
    rewrite append_cons. simpl.
    destruct (Ascii.eqb c "/") eqn:Ec; [done |].
    rewrite IH by done. by rewrite append_snoc.
Qed.

Lemma splitTopic_loop_nil : splitTopic_loop "" "" = [].
Proof. reflexivity. Qed.

Lemma splitTopic_cons_level (seg rest : string) :
  spec.isLevel seg = true →
  splitTopic (seg +:+ String "/" rest) = seg :: splitTopic rest.
Proof.
  intros Hseg. unfold splitTopic.
  destruct (String.eqb (seg +:+ String "/" rest) "") eqn:E.
  - apply String.eqb_eq in E. destruct seg; discriminate.
  - rewrite splitTopic_loop_level by done. simpl. f_equal.
    destruct rest; reflexivity.
Qed.

(** The loop accepts a list of levels against itself, so the shortcut for
    equal strings in [topicMatch] never changes the answer. *)
Lemma matchLevels_refl (levels : list string) : matchLevels levels levels = true.
Proof.
  induction levels as [|l levels IH]; simpl; [done |].
  destruct (String.eqb l "#"); [done |].
  destruct (String.eqb l "+"); [done |].
  by rewrite String.eqb_refl.
Qed.

Lemma topicMatch_levels (subTopic pubTopic : string) :
  topicMatch subTopic pubTopic
  = matchLevels (splitTopic subTopic) (splitTopic pubTopic).
Proof.
  unfold topicMatch. destruct (String.eqb subTopic pubTopic) eqn:E; [|done].
  apply String.eqb_eq in E. subst. by rewrite matchLevels_refl.
Qed.

Lemma matchLevels_hash (subLevels pubLevels : list string) :
  matchLevels ("#" :: subLevels) pubLevels = true.
Proof. by destruct pubLevels. Qed.

Lemma topicMatch_first_hash (filter topic : string) :
  spec.firstLevel filter = Some "#" → topicMatch filter topic = true.
Proof.
  unfold spec.firstLevel. intros H. rewrite topicMatch_levels.
  destruct (splitTopic filter) as [|l ls]; simplify_eq/=.
  apply (matchLevels_hash ls).
Qed.

Lemma topicMatch_first_plus (seg filter' topic' : string) :
  spec.isLevel seg = true →
  topicMatch ("+/" +:+ filter') (seg +:+ "/" +:+ topic')
  = topicMatch filter' topic'.
Proof.
  intros Hseg. rewrite !topicMatch_levels.
  change ("+/" +:+ filter') with ("+" +:+ String "/" filter').
  change ("/" +:+ topic') with (String "/" topic').
  rewrite !splitTopic_cons_level by done. reflexivity.
Qed.

(** C3, as the code has it: [topicMatch] gives ['$'] no special treatment.
    The filter ["#"] matches every topic, ['$']-prefixed or not; any filter
    whose first level is ['#'] matches every topic; and a first level ['+']
    consumes the first level of any topic, so that ["+/" ++ F] matches
    [seg ++ "/" ++ T] exactly when [F] matches [T], also when [seg] begins
    with ['$']. *)
Theorem topicMatch_no_dollar_rule :
  (∀ topic, topicMatch "#" topic = true) ∧
  (∀ filter topic,
     spec.firstLevel filter = Some "#" → topicMatch filter topic = true) ∧
  (∀ seg filter' topic',
     spec.isLevel seg = true →
     topicMatch ("+/" +:+ filter') (seg +:+ "/" +:+ topic')
     = topicMatch filter' topic').
Proof.
  split; [|split].
  - intros topic. by apply topicMatch_first_hash.
  - apply topicMatch_first_hash.
  - apply topicMatch_first_plus.
Qed.

Lemma topicMatch_no_dollar_rule_witness :
  spec.isLevel "$SYS" = true ∧
  topicMatch "+/broker" "$SYS/broker" = topicMatch "broker" "broker".
Proof.
  split; [reflexivity |].
  exact (proj2 (proj2 topicMatch_no_dollar_rule) "$SYS" "broker" "broker" eq_refl).
Defined.

(** C3 fails as stated: ["#"] and ["+/broker"] match ["$SYS/broker"]. *)
Lemma topicMatch_dollar_counterexample :
  topicMatch "#" "$SYS/broker" = true ∧
  topicMatch "+/broker" "$SYS/broker" = true.
Proof. split; reflexivity. Qed.

(** C7 at the example of the specification: [splitTopic] drops the empty last level
    of ["a/"], so the ['+'] of ["a/+"] has no level left to match and the
    filter ["a"] matches the topic ["a/"]; an empty level at the start of
    a topic or inside it is kept, and ['+'] matches it. *)
Theorem topicMatch_plus_trailing_empty :
  splitTopic "a/" = ["a"] ∧
  topicMatch "a/+" "a/" = false ∧
  topicMatch "a" "a/" = true ∧
  splitTopic "a//b" = ["a"; ""; "b"] ∧
  topicMatch "a/+/b" "a//b" = true ∧
  splitTopic "/a" = [""; "a"] ∧
  topicMatch "+/a" "/a" = true.
Proof. repeat split; reflexivity. Qed.

(** Scenarios 5 and 6 of the integration tests. *)
Example single_level_wildcard :
  topicMatch "sensors/+/temperature" "sensors/room1/temperature" = true ∧
  topicMatch "sensors/+/temperature" "sensors/outdoor/temperature" = true ∧
  topicMatch "sensors/+/temperature" "sensors/room1/temp/current" = false.
Proof. repeat split; reflexivity. Qed.

Example mixed_wildcards :
  topicMatch "home/+/sensors/#" "home/living/sensors/temp" = true ∧
  topicMatch "home/+/sensors/#" "home/bedroom/sensors/motion/front" = true ∧
  topicMatch "home/+/sensors/#" "home/sensors/temp" = false ∧
  topicMatch "home/+/sensors/#" "office/living/sensors/temp" = false.
Proof. repeat split; reflexivity. Qed.

End TopicMatching.

(* ===================================================================== *)
(** * Configuration                                                       *)
(* ===================================================================== *)

Section Configuration.

Import config.

Lemma validBackends_spec (b : string) :
  index validBackends b = true ↔ b ∈ ["memory"; "bbolt"; "redis"].
Proof.
  unfold index, validBackends. rewrite !elem_of_cons, elem_of_nil.
  destruct (decide (b = "memory")) as [->|]; [by split; auto |].
  destruct (decide (b = "bbolt")) as [->|]; [by split; auto |].
  destruct (decide (b = "redis")) as [->|]; [by split; auto |].
  rewrite !lookup_insert_ne, lookup_empty by done. simpl.
  split; [done | by intros [?|[?|[?|[]]]]].
Qed.

Lemma validLevels_spec (l : string) :
  index validLevels l = true ↔ l ∈ ["debug"; "info"; "warn"; "error"].
Proof.
  unfold index, validLevels. rewrite !elem_of_cons, elem_of_nil.
  destruct (decide (l = "debug")) as [->|]; [by split; auto |].
  destruct (decide (l = "info")) as [->|]; [by split; auto |].
  destruct (decide (l = "warn")) as [->|]; [by split; auto |].
  destruct (decide (l = "error")) as [->|]; [by split; auto |].
  rewrite !lookup_insert_ne, lookup_empty by done. simpl.
  split; [done | by intros [?|[?|[?|[?|[]]]]]].
Qed.

(** Case analysis on the tests of [Validate], in the order it makes them. *)
Ltac validate_case :=
  match goal with
  | |- context [Z.ltb ?a ?b] => destruct (Z.ltb_spec a b)
  | |- context [Z.eqb ?a ?b] => destruct (Z.eqb_spec a b)
  | |- context [String.eqb ?a ""] => destruct (String.eqb_spec a "")
  | |- context [index ?m ?k] => destruct (index m k)
  | |- context [TLS_Enabled ?t] => destruct (TLS_Enabled t)
  | |- context [Metrics_Enabled ?t] => destruct (Metrics_Enabled t)
  end; simpl.

Lemma Validate_accepts (c : Config) :
  Validate c = None ↔ spec.enforcedRules c.
Proof.
  unfold Validate, spec.enforcedRules, spec.listedRules.
  rewrite <- validBackends_spec, <- validLevels_spec, !Z.gtb_ltb.
  repeat validate_case;
    (split;
     [ first [ discriminate | intros _; repeat split; first [done | lia] ]
     | first [ reflexivity
             | intros [(? & ? & ? & ? & ? & ?) ?]; exfalso;
               first [ lia | discriminate | tauto | naive_solver lia ] ] ]).
Qed.

(** C9, as the code has it.  [Validate] returns no error exactly when the
    configuration satisfies the enforced rules: the six rules of the
    specification and, when metrics are enabled, a metrics port within
    [1, 65535].  [Load] returns an error exactly when the file cannot be
    read, or cannot be parsed, or the parsed configuration with its defaults
    filled in breaks an enforced rule; what it accepts is the configuration
    with the defaults filled in. *)
Theorem Load_error_iff
    (os_ReadFile : string → option (list Z))
    (yaml_Unmarshal : list Z → option Config) (path : string) :
  (∀ c, Validate c = None ↔ spec.enforcedRules c) ∧
  ((∃ e, Load os_ReadFile yaml_Unmarshal path = inl e) ↔
   os_ReadFile path = None ∨
   (∃ data, os_ReadFile path = Some data ∧ yaml_Unmarshal data = None) ∨
   (∃ data c, os_ReadFile path = Some data ∧ yaml_Unmarshal data = Some c ∧
              ¬ spec.enforcedRules (setDefaults c))) ∧
  (∀ cfg, Load os_ReadFile yaml_Unmarshal path = inr cfg →
          spec.enforcedRules cfg ∧
          ∃ data c, os_ReadFile path = Some data ∧
                    yaml_Unmarshal data = Some c ∧ cfg = setDefaults c).
Proof.
  split; [apply Validate_accepts |].
  unfold Load.
  destruct (os_ReadFile path) as [data|];
    [| split; [split; eauto | by intros ??] ].
  destruct (yaml_Unmarshal data) as [c|] eqn:Eparse;
    [| split; [split; eauto | by intros ??] ].
  pose proof (Validate_accepts (setDefaults c)) as Hv.
  destruct (Validate (setDefaults c)) as [e|].
  - split; [| by intros ??].
    split; [intros _ | eauto].
    do 2 right. exists data, c. do 2 (split; [done |]). intros Hr.
    apply Hv in Hr. discriminate.
  - split.
    + split; [by intros [? [=]] |].
      intros [[=] | [(? & [=] & Hnone) | (? & ? & [=] & Hsome & Hn)]]; subst.
      * congruence.
      * assert (x0 = c) as -> by congruence. destruct Hn. by apply Hv.
    + intros cfg [= <-]. split; [by apply Hv | eauto].
Qed.

(** C9 fails as stated.  With metrics enabled on port 70000 the test
    configuration breaks none of the listed rules, and [Validate] rejects
    it; and a file that leaves the server port at 0 is accepted by [Load],
    which fills in 1883 before validating. *)
Lemma Validate_metrics_port_counterexample :
  spec.listedRules (scenario.withMetrics 70000 scenario.testConfig) ∧
  Validate (scenario.withMetrics 70000 scenario.testConfig)
  = Some (InvalidMetricsPort 70000) ∧
  Port (Server scenario.zeroConfig) = 0 ∧
  Load (λ _, Some []) (λ _, Some scenario.zeroConfig) "config/config.yaml"
  = inr (setDefaults scenario.zeroConfig).
Proof.
  split; [| by repeat split].
  unfold spec.listedRules; simpl.
  repeat split; try done; try lia; set_solver.
Qed.

End Configuration.

(* ===================================================================== *)
(** * The codec: what the readers consume                                 *)
(* ===================================================================== *)

Section Codec.

Import mqtt.

Lemma ReadFull_zero (r : list Z) : ReadFull 0 r = Ok ([], r).
Proof. reflexivity. Qed.

Lemma ReadFull_enough (n : Z) (r : list Z) :
  0 < n → n ≤ Z.of_nat (length r) →
  ReadFull n r = Ok (take (Z.to_nat n) r, drop (Z.to_nat n) r).
Proof.
  intros Hn Hlen. unfold ReadFull.
  destruct (Z.leb_spec n 0); [lia |].
  destruct r as [|b r]; [simpl in Hlen; lia |].
  by destruct (Z.ltb_spec (Z.of_nat (length (b :: r))) n); [lia |].
Qed.

Lemma ReadByte_cons (b : Z) (r : list Z) : ReadByte (b :: r) = Ok (b, r).
Proof.
  unfold ReadByte, bind, ret.
  rewrite ReadFull_enough by (cbn [length]; lia). reflexivity.
Qed.

Lemma ReadFull_two (a b : Z) (r : list Z) :
  ReadFull 2 (a :: b :: r) = Ok ([a; b], r).
Proof. rewrite ReadFull_enough by (cbn [length]; lia). reflexivity. Qed.

Lemma ReadFull_length (n : Z) (r : list Z) (buf r' : list Z) :
  ReadFull n r = Ok (buf, r') → (length r' ≤ length r)%nat.
Proof.
  unfold ReadFull. intros H.
  destruct (n <=? 0); [by simplify_eq |].
  destruct r as [|b r]; [done |].
  destruct (_ <? n); simplify_eq. rewrite length_drop. lia.
Qed.

Lemma readRemainingLen_length (r : list Z) :
  ∀ multiplier value x r',
    readRemainingLen multiplier value r = Ok (x, r') →
    (length r' < length r)%nat.
Proof.
  induction r as [|b r IH]; intros multiplier value x r' H; simpl in H; [done |].
  destruct (Z.land b 128 =? 0); [simplify_eq; simpl; lia |].
  destruct (_ >? _); [done |].
  apply IH in H. simpl. lia.
Qed.

(** A fixed header is at least two bytes. *)
Lemma ReadFixedHeader_length (r : list Z) (header : FixedHeader) (r' : list Z) :
  ReadFixedHeader r = Ok (header, r') → (length r' + 2 ≤ length r)%nat.
Proof.
  unfold ReadFixedHeader, bind, ret. intros H.
  destruct r as [|b r]; [done |]. rewrite ReadByte_cons in H.
  destruct (readRemainingLen 1 0 r) as [[x r1]|] eqn:E; simplify_eq.
  apply readRemainingLen_length in E. simpl. lia.
Qed.

Lemma len_nonneg (s : string) : 0 ≤ len s.
Proof. unfold len. lia. Qed.

(** The loop of [DecodeSubscribePacket] never runs out of iterations: any
    two amounts of fuel that cover [remainingLen - bytesRead] give the same
    result. *)
Lemma subscribeLoop_fuel (fuel : nat) :
  ∀ fuel' bytesRead remainingLen topics r,
    remainingLen - bytesRead ≤ Z.of_nat fuel →
    remainingLen - bytesRead ≤ Z.of_nat fuel' →
    subscribeLoop fuel bytesRead remainingLen topics r
    = subscribeLoop fuel' bytesRead remainingLen topics r.
Proof.
  induction fuel as [|fuel IH]; intros fuel' bytesRead remainingLen topics r H H'.
  - destruct fuel'; simpl; destruct (Z.ltb_spec bytesRead remainingLen);
      [lia | done | lia | done].
  - destruct fuel' as [|fuel']; simpl;
      destruct (Z.ltb_spec bytesRead remainingLen); [lia | done | | done].
    unfold bind, wrap. destruct (ReadString r) as [[topic r1]|]; [| done].
    destruct (ReadByte r1) as [[qos r2]|]; [| done].
    pose proof (len_nonneg topic). apply IH; lia.
Qed.

Lemma unsubscribeLoop_fuel (fuel : nat) :
  ∀ fuel' bytesRead remainingLen topics r,
    remainingLen - bytesRead ≤ Z.of_nat fuel →
    remainingLen - bytesRead ≤ Z.of_nat fuel' →
    unsubscribeLoop fuel bytesRead remainingLen topics r
    = unsubscribeLoop fuel' bytesRead remainingLen topics r.
Proof.
  induction fuel as [|fuel IH]; intros fuel' bytesRead remainingLen topics r H H'.
  - destruct fuel'; simpl; destruct (Z.ltb_spec bytesRead remainingLen);
      [lia | done | lia | done].
  - destruct fuel' as [|fuel']; simpl;
      destruct (Z.ltb_spec bytesRead remainingLen); [lia | done | | done].
    unfold bind, wrap. destruct (ReadString r) as [[topic r1]|]; [| done].
    pose proof (len_nonneg topic). apply IH; lia.
Qed.

(** C2 at PUBLISH: the encoder returns an error for every packet, so there
    are no bytes for [DecodePublishPacket] to read back. *)
Theorem PublishPacket_Encode_unimplemented (p : PublishPacket) :
  PublishPacket_Encode p = Err (Errorf "PUBLISH encoding not yet implemented") ∧
  ∀ data, PublishPacket_Encode p ≠ Ok data.
Proof. split; [reflexivity | discriminate]. Qed.

End Codec.

(* ===================================================================== *)
(** * The frames of deliverMessage, read back                             *)
(* ===================================================================== *)

Section PublishFrames.

Import mqtt.

(** Facts about one byte, by enumeration. *)
Lemma below_cases (n : Z) (P : Z → Prop) `{!∀ x, Decision (P x)} :
  Forall P (seqZ 0 n) → ∀ x, 0 ≤ x < n → P x.
Proof.
  intros HP x Hx. rewrite Forall_forall in HP. apply HP, elem_of_seqZ. lia.
Qed.

Lemma digit_bits (d : Z) :
  0 ≤ d < 128 →
  Z.land d 0x7F = d ∧ Z.land d 0x80 = 0 ∧
  Z.land (Z.lor d 0x80) 0x7F = d ∧ Z.land (Z.lor d 0x80) 0x80 = 0x80.
Proof.
  revert d.
  refine (below_cases 128
            (λ d, Z.land d 0x7F = d ∧ Z.land d 0x80 = 0 ∧
                  Z.land (Z.lor d 0x80) 0x7F = d ∧
                  Z.land (Z.lor d 0x80) 0x80 = 0x80) _).
  refine (bool_decide_unpack _ _). by vm_compute.
Qed.

Lemma encodeLength_zero (fuel : nat) : server.encodeLength fuel 0 = [].
Proof. by destruct fuel. Qed.

Lemma encodeLength_decodes (fuel : nat) :
  ∀ x multiplier value tail,
    0 < x → Z.log2 x < Z.of_nat fuel →
    multiplier = 1 ∨ multiplier = 128 ∨ multiplier = 128 * 128
    ∨ multiplier = 128 * 128 * 128 →
    x * multiplier < 128 * 128 * 128 * 128 →
    readRemainingLen multiplier value (server.encodeLength fuel x ++ tail)
    = Ok (value + x * multiplier, tail).
Proof.
  induction fuel as [|fuel IH]; intros x m v tail Hx Hlog Hm Hbound.
  { pose proof (Z.log2_nonneg x). lia. }
  cbn [server.encodeLength]. destruct (Z.gtb_spec x 0) as [_|]; [| lia].
  assert (0 ≤ x mod 128 < 128) as Hd by (apply Z.mod_pos_bound; lia).
  unfold to_byte. rewrite (Z.mod_small (x mod 128) 256) by lia.
  destruct (digit_bits (x mod 128) Hd) as (Hd1 & Hd2 & Hd3 & Hd4).
  pose proof (Z.div_mod x 128 ltac:(lia)) as Hdm.
  destruct (Z.gtb_spec (x / 128) 0) as [Hmore|Hlast].
  - cbn [app readRemainingLen]. rewrite Hd3, Hd4.
    change (128 =? 0) with false. cbv iota.
    destruct (Z.gtb_spec (m * 128) (128 * 128 * 128)) as [Hover|_]; [nia |].
    rewrite IH.
    + f_equal. f_equal. nia.
    + lia.
    + replace (x / 128) with (Z.shiftr x 7)
        by (by rewrite Z.shiftr_div_pow2 by lia).
      rewrite Z.log2_shiftr by lia.
      pose proof (Z.log2_le_mono 128 x ltac:(lia)) as Hmono.
      change (Z.log2 128) with 7 in Hmono. lia.
    + nia.
    + nia.
  - assert (x / 128 = 0) as Hz by (pose proof (Z.div_pos x 128); lia).
    rewrite Hz, encodeLength_zero. cbn [app readRemainingLen].
    rewrite Hd1, Hd2. change (0 =? 0) with true. cbv iota.
    f_equal. f_equal. nia.
Qed.

Lemma lengthBytes_decode (remainingLen : Z) (tail : list Z) :
  0 < remainingLen < 128 * 128 * 128 * 128 →
  readRemainingLen 1 0
    ((if remainingLen <? 128 then [to_byte remainingLen]
      else server.encodeLength (S (Z.to_nat (Z.log2 remainingLen))) remainingLen)
     ++ tail)
  = Ok (remainingLen, tail).
Proof.
  intros Hrl. destruct (Z.ltb_spec remainingLen 128) as [Hsmall|Hbig].
  - unfold to_byte. rewrite Z.mod_small by lia.
    destruct (digit_bits remainingLen ltac:(lia)) as (H1 & H2 & _).
    cbn [app readRemainingLen]. rewrite H1, H2.
    change (0 =? 0) with true. cbv iota. f_equal. f_equal. lia.
  - rewrite encodeLength_decodes; [f_equal; f_equal; lia | lia | | by left | lia].
    pose proof (Z.log2_nonneg remainingLen). lia.
Qed.

Lemma lor_shiftl_8 (hi lo : Z) :
  0 ≤ lo < 256 → Z.lor lo (Z.shiftl hi 8) = hi * 256 + lo.
Proof.
  intros Hlo.
  assert (Z.land lo (Z.shiftl hi 8) = 0) as Hdisjoint.
  { apply Z.bits_inj'. intros n Hn. rewrite Z.land_spec, Z.bits_0.
    destruct (decide (n < 8)) as [Hlow|Hhigh].
    - by rewrite Z.shiftl_spec_low, andb_false_r by lia.
    - rewrite (Z.bits_above_log2 lo n); [done | lia |].
      destruct (decide (lo = 0)) as [->|]; [simpl; lia |].
      pose proof (Z.log2_lt_pow2 lo 8 ltac:(lia)). lia. }
  rewrite <- Z.lxor_lor, <- Z.add_nocarry_lxor by done.
  rewrite Z.shiftl_mul_pow2 by lia. lia.
Qed.

Lemma Uint16_PutUint16 (v : Z) :
  0 ≤ v < 65536 →
  Uint16 (PutUint16 v) = v ∧
  Uint16 [to_byte (Z.shiftr v 8); to_byte (Z.land v 0xFF)] = v.
Proof.
  intros Hv. unfold Uint16, PutUint16, to_byte.
  change 0xFF with (Z.ones 8). rewrite Z.land_ones by lia.
  rewrite Z.shiftr_div_pow2 by lia. change (2 ^ 8) with 256.
  rewrite Z.mod_mod by lia.
  rewrite (Z.mod_small (v / 256)) by (split; [apply Z.div_pos; lia | apply Z.div_lt_upper_bound; lia]).
  rewrite lor_shiftl_8 by (apply Z.mod_pos_bound; lia).
  pose proof (Z.div_mod v 256 ltac:(lia)). split; lia.
Qed.

Lemma string_of_bytes_of_string (s : string) :
  string_of_bytes (bytes_of_string s) = s.
Proof.
  unfold string_of_bytes, bytes_of_string.
  rewrite <- list_fmap_compose.
  rewrite <- (String.string_of_list_ascii_of_string s) at 2. f_equal.
  rewrite <- (list_fmap_id (String.list_ascii_of_string s)) at 2.
  apply list_fmap_ext. intros _ c _. simpl. unfold to_byte.
  pose proof (N_ascii_bounded c).
  rewrite Z.mod_small by lia. rewrite N2Z.id. apply ascii_N_embedding.
Qed.

Lemma length_bytes_of_string (s : string) :
  Z.of_nat (length (bytes_of_string s)) = len s.
Proof.
  unfold bytes_of_string, len. rewrite length_fmap. f_equal.
  induction s as [|c s IH]; simpl; [done | by rewrite IH].
Qed.

Lemma ReadFull_app (n : Z) (l tail : list Z) :
  0 < n → n = Z.of_nat (length l) → ReadFull n (l ++ tail) = Ok (l, tail).
Proof.
  intros Hn ->. rewrite ReadFull_enough by (rewrite ?length_app; lia).
  rewrite Nat2Z.id. by rewrite take_app_length, drop_app_length.
Qed.

Lemma ReadString_WriteString (s : string) (tail : list Z) :
  len s < 65536 → ReadString (WriteString s ++ tail) = Ok (s, tail).
Proof.
  intros Hlen. pose proof (len_nonneg s).
  unfold ReadString, WriteString, bind, to_uint16.
  rewrite Z.mod_small by lia.
  destruct (Uint16_PutUint16 (len s) ltac:(lia)) as [Hu _].
  unfold PutUint16 in *. cbn [app]. rewrite ReadFull_two, Hu.
  destruct (Z.eqb_spec (len s) 0) as [Hz|Hnz].
  - destruct s; [reflexivity | unfold len in Hz; simpl in Hz; lia].
  - rewrite ReadFull_app by (rewrite ?length_bytes_of_string; lia).
    unfold ret. by rewrite string_of_bytes_of_string.
Qed.

Lemma header_bits (dup retain : bool) (qos : Z) :
  0 ≤ qos ≤ 3 →
  let h := to_byte (Z.shiftl PUBLISH 4) in
  let h := if dup then Z.lor h 0x08 else h in
  let h := Z.lor h (to_byte (Z.shiftl qos 1)) in
  let h := if retain then Z.lor h 0x01 else h in
  Z.land (Z.shiftr h 4) 0x0F = PUBLISH ∧
  (Z.land (Z.land h 0x0F) 0x08 >? 0) = dup ∧
  Z.land (Z.shiftr (Z.land h 0x0F) 1) 0x03 = qos ∧
  (Z.land (Z.land h 0x0F) 0x01 >? 0) = retain.
Proof.
  intros Hq.
  assert (qos = 0 ∨ qos = 1 ∨ qos = 2 ∨ qos = 3) as [-> | [-> | [-> | ->] ] ] by lia;
    destruct dup, retain; by vm_compute.
Qed.

Lemma length_WriteString (s : string) :
  len s < 65536 → Z.of_nat (length (WriteString s)) = 2 + len s.
Proof.
  intros _. unfold WriteString, PutUint16. rewrite length_app. cbn [length].
  rewrite Nat2Z.inj_add, length_bytes_of_string. lia.
Qed.

(** The frames the broker sends decode.  [deliverMessage] encodes PUBLISH
    by hand; read back with [ReadFixedHeader] and [DecodePublishPacket], a
    frame gives the dup and retain flags, the topic and the payload of the
    publish it was built from, QoS [min(q, g)], and at QoS above 0 its
    packet identifier, with 1 in place of 0. *)
Lemma publishFrame_decodes (pub : PublishPacket) (subQoS : Z) (tail : list Z) :
  0 ≤ QoS pub ≤ 3 → 0 ≤ subQoS →
  len (Topic pub) < 65536 →
  0 ≤ PacketID pub < 65536 →
  4 + len (Topic pub) + Z.of_nat (length (Payload pub)) < 128 * 128 * 128 * 128 →
  ∃ header body,
    ReadFixedHeader (server.publishFrame pub subQoS ++ tail)
    = Ok (header, body ++ tail) ∧
    PacketType header = PUBLISH ∧
    ReadFull (RemainingLen header) (body ++ tail) = Ok (body, tail) ∧
    DecodePublishPacket header body = Ok (spec.redelivered pub subQoS, []).
Proof.
  intros Hq Hg Htopic Hpid Hsize. pose proof (len_nonneg (Topic pub)) as Hlen.
  unfold server.publishFrame, spec.redelivered.
  assert ((if subQoS <? QoS pub then subQoS else QoS pub)
          = Z.min (QoS pub) subQoS) as ->.
  { destruct (Z.ltb_spec subQoS (QoS pub)); lia. }
  set (qos := Z.min (QoS pub) subQoS). assert (0 ≤ qos ≤ 3) as Hqos by lia.
  destruct (header_bits (Dup pub) (Retain pub) qos Hqos)
    as (Htype & Hdup & Hqosbits & Hretain).
  cbv zeta in Htype, Hdup, Hqosbits, Hretain |- *.
  set (h := if Retain pub then _ else _) in *.
  set (pid := if PacketID pub =? 0 then 1 else PacketID pub).
  assert (0 ≤ pid < 65536) as Hpid'.
  { unfold pid. destruct (PacketID pub =? 0); lia. }
  set (idBytes := if qos >? 0 then [to_byte (Z.shiftr pid 8); to_byte (Z.land pid 255)]
                  else []).
  set (remainingLen := if qos >? 0 then _ else _).
  set (body := WriteString (Topic pub) ++ idBytes ++ Payload pub).
  assert (Z.of_nat (length idBytes) = if qos >? 0 then 2 else 0) as HidLen.
  { unfold idBytes. by destruct (qos >? 0). }
  assert (remainingLen = Z.of_nat (length body)) as Hrl.
  { unfold remainingLen, body. rewrite !length_app, !Nat2Z.inj_add.
    rewrite length_WriteString, HidLen by done. destruct (qos >? 0); lia. }
  assert (0 < remainingLen < 128 * 128 * 128 * 128) as Hrange.
  { unfold remainingLen. destruct (qos >? 0); lia. }
  exists {| PacketType := Z.land (Z.shiftr h 4) 0x0F;
            Flags := Z.land h 0x0F;
            RemainingLen := remainingLen |}, body.
  split; [| split; [exact Htype | split]].
  - unfold ReadFixedHeader, bind, ret. cbn [app]. rewrite ReadByte_cons.
    rewrite <- app_assoc. fold body.
    by rewrite lengthBytes_decode.
  - cbn [RemainingLen]. by apply ReadFull_app; lia.
  - unfold DecodePublishPacket, bind, wrap, ret. cbn [Flags RemainingLen].
    rewrite Hdup, Hqosbits, Hretain. unfold body.
    rewrite ReadString_WriteString by done.
    unfold idBytes, pid in *. destruct (Z.gtb_spec qos 0) as [Hpos|Hzero].
    + cbn [app]. rewrite ReadFull_two. cbn [fst snd].
      destruct (Uint16_PutUint16 _ Hpid') as [_ ->].
      destruct (Payload pub) as [|b payload] eqn:Hpayload.
      * destruct (Z.gtb_spec (remainingLen - (2 + len (Topic pub) + 2)) 0);
          [cbn [length] in *; lia | done].
      * destruct (Z.gtb_spec (remainingLen - (2 + len (Topic pub) + 2)) 0);
          [| cbn [length] in *; lia].
        rewrite <- (app_nil_r (b :: payload)) at 1.
        rewrite ReadFull_app; [done | lia | cbn [length] in *; lia].
    + cbn [app fst snd].
      destruct (Payload pub) as [|b payload] eqn:Hpayload.
      * destruct (Z.gtb_spec (remainingLen - (2 + len (Topic pub))) 0);
          [cbn [length] in *; lia | done].
      * destruct (Z.gtb_spec (remainingLen - (2 + len (Topic pub))) 0);
          [| cbn [length] in *; lia].
        rewrite <- (app_nil_r (b :: payload)) at 1.
        rewrite ReadFull_app; [done | lia | cbn [length] in *; lia].
Qed.
End PublishFrames.

(* ===================================================================== *)
(** * The broker: what the handlers do                                    *)
(* ===================================================================== *)

Section Broker.

Import server.

Lemma emit_nil (st : State) : spec.emit [] st = st.
Proof. destruct st. unfold spec.emit; simpl. by rewrite app_nil_r. Qed.

Lemma emit_emit (evs1 evs2 : list Event) (st : State) :
  spec.emit evs2 (spec.emit evs1 st) = spec.emit (evs1 ++ evs2) st.
Proof. unfold spec.emit; simpl. by rewrite app_assoc. Qed.

Lemma written_emit (evs : list Event) (st : State) (conn : nat) (data : list Z) :
  spec.written (spec.emit evs st) conn data = spec.written st conn data.
Proof. reflexivity. Qed.

Lemma conn_Write_emit (conn : nat) (data : list Z) (st : State) :
  conn_Write conn data st
  = Done (bool_decide (conn ∉ closed st)) (spec.emit (spec.written st conn data) st).
Proof.
  unfold conn_Write, spec.written.
  destruct (decide (conn ∈ closed st)) as [Hin|Hout].
  - rewrite emit_nil. by rewrite bool_decide_eq_false_2 by auto.
  - by rewrite bool_decide_eq_true_2.
Qed.

Lemma deliverMessage_emit (client : nat) (pub : mqtt.PublishPacket) (subQoS : Z)
    (st : State) :
  deliverMessage client pub subQoS st
  = Done tt (spec.emit (spec.written st (Conn (deref (heap st) client))
                                     (publishFrame pub subQoS)) st).
Proof.
  unfold deliverMessage, go_bind, load, go_ret. by rewrite conn_Write_emit.
Qed.

(** A loop whose body only adds to the trace adds the events of its
    iterations in order. *)
Lemma forEach_emit {A} (l : list A) (body : A → Go unit)
    (events : A → list Event) (st : State) :
  (∀ x evs, body x (spec.emit evs st) = Done tt (spec.emit (evs ++ events x) st)) →
  ∀ evs, forEach l body (spec.emit evs st)
         = Done tt (spec.emit (evs ++ concat (events <$> l)) st).
Proof.
  intros Hbody. induction l as [|x l IH]; intros evs; simpl.
  - by rewrite app_nil_r.
  - unfold go_bind. rewrite Hbody, IH. by rewrite <- app_assoc.
Qed.

Lemma routeMessage_emit (rt : GoRuntime) (pub : mqtt.PublishPacket) (st : State) :
  routeMessage rt pub st
  = Done tt (spec.emit (concat (spec.routeEvents rt pub st <$> range_clients rt (clients st))) st).
Proof.
  unfold routeMessage.
  rewrite <- (emit_nil st) at 2.
  rewrite (forEach_emit _ _ (spec.routeEvents rt pub st)); [done |].
  intros [id p] evs. unfold go_bind, load, spec.routeEvents; simpl.
  destruct (firstMatch _ _) as [[f g]|].
  - unfold go_deliverMessage, spec.emit; simpl. by rewrite <- app_assoc.
  - unfold go_ret. by rewrite app_nil_r.
Qed.

Lemma firstMatch_Some (subs : list (string * Z)) (topic f : string) (g : Z) :
  firstMatch subs topic = Some (f, g) →
  (f, g) ∈ subs ∧ topicMatch f topic = true.
Proof.
  induction subs as [|[f' g'] subs IH]; simpl; [done |].
  destruct (topicMatch f' topic) eqn:E.
  - intros [= -> ->]. split; [left | done].
  - intros H. destruct (IH H). split; [by right | done].
Qed.

Lemma firstMatch_None (subs : list (string * Z)) (topic : string) :
  firstMatch subs topic = None →
  ∀ f g, (f, g) ∈ subs → topicMatch f topic = false.
Proof.
  induction subs as [|[f' g'] subs IH]; simpl; intros H f g Hin.
  - by apply elem_of_nil in Hin.
  - destruct (topicMatch f' topic) eqn:E; [done |].
    apply elem_of_cons in Hin as [[= -> ->]|Hin]; [done | by eapply IH].
Qed.

(** The loop [break]s at the first subscription that matches. *)
Lemma firstMatch_first (subs : list (string * Z)) (topic f : string) (g : Z) :
  firstMatch subs topic = Some (f, g) → spec.firstFilter subs topic f g.
Proof.
  induction subs as [|[f0 g0] subs IH]; simpl; [done |].
  destruct (topicMatch f0 topic) eqn:E.
  - intros [= -> ->]. exists 0%nat. split; [done |]. split; [done |]. lia.
  - intros H. destruct (IH H) as (i & Hi & Hm & Hfirst).
    exists (S i). split; [done |]. split; [done |].
    intros [|j] f' g' Hj Hsub; simpl in Hsub; [by simplify_eq |].
    apply (Hfirst j f' g'); [lia | done].
Qed.

Lemma routeEvents_started (rt : GoRuntime) (pub : mqtt.PublishPacket)
    (st : State) (entry : string * nat) :
  valid rt → spec.started rt pub st entry (spec.routeEvents rt pub st entry).
Proof.
  intros (_ & Hsubs & _). unfold spec.started, spec.routeEvents.
  set (c := deref (heap st) entry.2).
  assert (∀ f g, (f, g) ∈ range_subs rt (Subscriptions c)
                 ↔ Subscriptions c !! f = Some g) as Hin.
  { intros f g. by rewrite Hsubs, elem_of_map_to_list. }
  destruct (firstMatch _ _) as [[f g]|] eqn:E.
  - right. exists f, g. split; [by apply firstMatch_first |].
    apply firstMatch_Some in E as [Hfg Hm]. by rewrite <- Hin.
  - left. split; [done |]. intros f g Hfg.
    eapply firstMatch_None; [done | by apply Hin].
Qed.

(** What [routeMessage] does: it starts deliveries, and writes nothing
    itself. *)
Lemma routeMessage_starts (rt : GoRuntime) (pub : mqtt.PublishPacket) (st : State) :
  valid rt →
  ∃ evss, Forall2 (spec.started rt pub st) (range_clients rt (clients st)) evss ∧
          routeMessage rt pub st = Done tt (spec.emit (concat evss) st).
Proof.
  intros Hrt.
  exists (spec.routeEvents rt pub st <$> range_clients rt (clients st)).
  split; [| apply routeMessage_emit].
  apply Forall2_fmap_r, Forall_Forall2_diag, Forall_forall.
  intros entry _. by apply routeEvents_started.
Qed.

Lemma grows_Conn (st st' : State) (client : nat) (c : Client) :
  heap st !! client = Some c → spec.grows st st' →
  Conn (deref (heap st') client) = Conn c.
Proof.
  intros Hc (_ & Hheap & _). destruct (Hheap client c Hc) as (c' & Hc' & _ & Hconn).
  unfold deref. by rewrite Hc'.
Qed.

(** What a started delivery does when it runs: one write to the socket of
    its session, which fails if the socket has been closed by then. *)
Lemma runGoroutine_emit (client : nat) (pub : mqtt.PublishPacket) (subQoS : Z)
    (st st' : State) (c : Client) :
  heap st !! client = Some c → spec.grows st st' →
  runGoroutine (EvGo client pub subQoS) st'
  = Done tt (spec.emit (spec.written st' (Conn c) (publishFrame pub subQoS)) st').
Proof.
  intros Hc Hgrows. cbn [runGoroutine].
  by rewrite deliverMessage_emit, (grows_Conn st st' client c).
Qed.

Lemma head_publishFrame (pub : mqtt.PublishPacket) (subQoS : Z) :
  ∃ frame, publishFrame pub subQoS
           = (let qos := if subQoS <? mqtt.QoS pub then subQoS else mqtt.QoS pub in
              let h := mqtt.to_byte (Z.shiftl mqtt.PUBLISH 4) in
              let h := if mqtt.Dup pub then Z.lor h 0x08 else h in
              let h := Z.lor h (mqtt.to_byte (Z.shiftl qos 1)) in
              if mqtt.Retain pub then Z.lor h 0x01 else h) :: frame.
Proof. eexists. reflexivity. Qed.

Lemma frameQoS_publishFrame (pub : mqtt.PublishPacket) (subQoS : Z) :
  0 ≤ mqtt.QoS pub ≤ 3 → 0 ≤ subQoS →
  spec.frameQoS (publishFrame pub subQoS) = Z.min (mqtt.QoS pub) subQoS.
Proof.
  intros Hq Hg. destruct (head_publishFrame pub subQoS) as [frame ->].
  unfold spec.frameQoS; simpl.
  assert ((if subQoS <? mqtt.QoS pub then subQoS else mqtt.QoS pub)
          = Z.min (mqtt.QoS pub) subQoS) as ->.
  { destruct (Z.ltb_spec subQoS (mqtt.QoS pub)); lia. }
  assert (Z.min (mqtt.QoS pub) subQoS ∈ [0; 1; 2; 3]) as Hmin.
  { rewrite !elem_of_cons. lia. }
  destruct (mqtt.Dup pub), (mqtt.Retain pub);
    repeat (apply elem_of_cons in Hmin as [->|Hmin]; [reflexivity |]);
    by apply elem_of_nil in Hmin.
Qed.


Lemma runtime_valid : valid scenario.runtime.
Proof. by repeat split. Qed.



(** ** CONNECT *)

(** C5, as the code has it.  A CONNECT that decodes makes a new session
    object for the socket it came on and stores it in the registry slot of
    its client identifier, replacing whatever session the slot held; the
    other slots are unchanged.  The only socket operation is the write of
    CONNACK on the new socket: no socket is closed, the socket of a prior
    session of the same identifier included, and the prior session object
    stays as it was. *)
Theorem handleConnect_replaces (conn : nat) (reader : list Z) (remainingLen : Z)
    (st : State) (connectPkt : mqtt.ConnectPacket) (rest : list Z) :
  mqtt.DecodeConnectPacket remainingLen reader = mqtt.Ok (connectPkt, rest) →
  let id := mqtt.ClientID connectPkt in
  let client := length (heap st) in
  ∃ st',
    handleConnect conn reader remainingLen st = Done (Some client) st' ∧
    clients st' !! id = Some client ∧
    (∀ id', id' ≠ id → clients st' !! id' = clients st !! id') ∧
    heap st' = heap st ++ [ {| ID := id; Conn := conn;
                               CleanSession := mqtt.CleanSession connectPkt;
                               Subscriptions := ∅ |} ] ∧
    closed st' = closed st ∧
    trace st' = trace st ++ spec.written st conn [0x20; 2; 0; 0] ∧
    ∀ c, EvClose c ∉ spec.written st conn [0x20; 2; 0; 0].
Proof.
  intros Hdec id client. unfold handleConnect. rewrite Hdec.
  unfold go_bind, alloc, storeClient, go_ret; simpl.
  rewrite conn_Write_emit. eexists. split; [reflexivity |]. simpl.
  split; [apply lookup_insert_eq |].
  split; [by intros id' Hne; apply lookup_insert_ne |].
  repeat split. intros c. unfold spec.written.
  destruct (decide _); [apply not_elem_of_nil |].
  by intros [=]%list_elem_of_singleton.
Qed.

Lemma handleConnect_replaces_witness :
  ∃ st',
    handleConnect 2 scenario.connectX 13 (scenario.stateOf scenario.oneConnect)
    = Done (Some 1%nat) st' ∧
    clients st' !! "x" = Some 1%nat.
Proof.
  destruct (handleConnect_replaces 2 scenario.connectX 13
              (scenario.stateOf scenario.oneConnect)
              (mqtt.mkConnectPacket "MQTT" 4 true false 0 false false false 60
                                    "x" "" [] "" []) [])
    as (st' & Hrun & Hslot & _); [reflexivity |].
  exists st'. split; [exact Hrun | exact Hslot].
Defined.

(** C5 fails as stated.  After CONNECT from ["x"] on socket 1 and then on
    socket 2 the registry slot ["x"] holds the second session, and the
    broker has written the two CONNACKs and closed nothing: socket 1 is
    still open. *)
Lemma handleConnect_no_eviction_counterexample :
  scenario.twoConnects
  = Done (Some 1%nat) (scenario.stateOf scenario.twoConnects) ∧
  clients (scenario.stateOf scenario.twoConnects) !! "x" = Some 1%nat ∧
  Conn <$> heap (scenario.stateOf scenario.twoConnects) = [1; 2]%nat ∧
  closed (scenario.stateOf scenario.twoConnects) = ∅ ∧
  trace (scenario.stateOf scenario.twoConnects)
  = [EvWrite 1 [0x20; 2; 0; 0]; EvWrite 2 [0x20; 2; 0; 0]].
Proof. by vm_compute. Qed.

(** ** SUBSCRIBE *)

Lemma Conn_withSubscriptions (client : nat) (subs : gmap string Z) (st : State) :
  Conn (deref (heap (spec.withSubscriptions client subs st)) client)
  = Conn (deref (heap st) client).
Proof.
  unfold spec.withSubscriptions, deref; simpl.
  destruct (decide (client < length (heap st))%nat) as [Hlt|Hge].
  - by rewrite list_lookup_insert_eq.
  - by rewrite list_insert_ge by lia.
Qed.

Lemma Subscriptions_withSubscriptions (client : nat) (subs : gmap string Z)
    (st : State) :
  (client < length (heap st))%nat →
  Subscriptions (deref (heap (spec.withSubscriptions client subs st)) client) = subs.
Proof.
  intros Hlt. unfold spec.withSubscriptions, deref; simpl.
  by rewrite list_lookup_insert_eq.
Qed.

Lemma storeSubscriptions_lookup (topics : list mqtt.Subscription) :
  ∀ (subs : gmap string Z) (filter : string),
    storeSubscriptions topics subs !! filter
    = match spec.lastRequested filter topics with
      | Some qos => Some qos
      | None => subs !! filter
      end.
Proof.
  unfold storeSubscriptions.
  induction topics as [|sub topics IH]; intros subs filter; simpl; [done |].
  rewrite IH. destruct (spec.lastRequested filter topics); [done |].
  destruct (decide (mqtt.Sub_Topic sub = filter)) as [<-|Hne].
  - apply lookup_insert_eq.
  - by apply lookup_insert_ne.
Qed.

(** What [handleSubscribe] does for a SUBSCRIBE that decodes: it records
    the subscriptions, writes the SUBACK and, if that write succeeded,
    starts the deliveries of the matching retained messages. *)
Lemma handleSubscribe_emit (rt : GoRuntime) (client conn : nat) (data : list Z)
    (st : State) (subscribePkt : mqtt.SubscribePacket) (rest : list Z) :
  mqtt.DecodeSubscribePacket (Z.of_nat (length data)) data
  = mqtt.Ok (subscribePkt, rest) →
  let c := deref (heap st) client in
  let topics := mqtt.Subscribe_Topics subscribePkt in
  handleSubscribe rt client conn data st
  = Done tt
      (spec.emit
         (spec.written st (Conn c)
            (spec.subackFrame (mqtt.Subscribe_PacketID subscribePkt)
                              (mqtt.Sub_QoS <$> topics))
          ++ (if decide (Conn c ∈ closed st) then []
              else concat (spec.retainedEvents client topics
                           <$> range_retained rt (spec.retained st))))
         (spec.withSubscriptions client
            (storeSubscriptions topics (Subscriptions c)) st)).
Proof.
  intros Hdec c topics. unfold handleSubscribe. rewrite Hdec.
  unfold go_bind, load, setSubscriptions; simpl.
  fold c. fold topics.
  set (st1 := spec.withSubscriptions client _ st).
  change (mkState _ _ _ _ _) with st1.
  rewrite conn_Write_emit.
  change (closed st1) with (closed st).
  change (spec.written st1) with (spec.written st).
  unfold spec.written at 2.
  destruct (decide (Conn c ∈ closed st)) as [Hin|Hout].
  - rewrite bool_decide_eq_false_2 by auto.
    unfold spec.written. by rewrite decide_True.
  - rewrite bool_decide_eq_true_2 by done.
    unfold deliverRetained.
    rewrite (forEach_emit _ _ (spec.retainedEvents client topics)).
    { unfold spec.written. rewrite decide_False by done. reflexivity. }
    intros [topic msg] evs. unfold spec.retainedEvents; simpl.
    destruct (firstSubMatch topics topic) as [sub|].
    + unfold go_deliverMessage, spec.emit; simpl. by rewrite <- app_assoc.
    + unfold go_ret. by rewrite app_nil_r.
Qed.

(** C4, as the code has it.  For a SUBSCRIBE that decodes, the SUBACK
    carries one return code per entry, in request order, and each code is
    the QoS the entry asked for: nothing caps it at the server's maximum or
    at 1.  The registry of the session records, for every filter of the
    request, the QoS its last entry asked for, and keeps the other
    filters. *)
Theorem handleSubscribe_grants_requested (rt : GoRuntime) (client conn : nat)
    (data : list Z) (st : State) (subscribePkt : mqtt.SubscribePacket)
    (rest : list Z) :
  mqtt.DecodeSubscribePacket (Z.of_nat (length data)) data
  = mqtt.Ok (subscribePkt, rest) →
  (client < length (heap st))%nat →
  let c := deref (heap st) client in
  let topics := mqtt.Subscribe_Topics subscribePkt in
  let returnCodes := mqtt.Sub_QoS <$> topics in
  ∃ st' sent,
    handleSubscribe rt client conn data st = Done tt st' ∧
    mqtt.SubackPacket_Encode
      {| mqtt.Suback_PacketID := mqtt.Subscribe_PacketID subscribePkt;
         mqtt.ReturnCodes := returnCodes |}
    = mqtt.Ok (spec.subackFrame (mqtt.Subscribe_PacketID subscribePkt) returnCodes) ∧
    trace st'
    = trace st
      ++ spec.written st (Conn c)
           (spec.subackFrame (mqtt.Subscribe_PacketID subscribePkt) returnCodes)
      ++ sent ∧
    (∀ i sub, topics !! i = Some sub → returnCodes !! i = Some (mqtt.Sub_QoS sub)) ∧
    (∀ filter,
       Subscriptions (deref (heap st') client) !! filter
       = match spec.lastRequested filter topics with
         | Some qos => Some qos
         | None => Subscriptions c !! filter
         end).
Proof.
  intros Hdec Hlt c topics returnCodes.
  eexists _, _.
  split; [exact (handleSubscribe_emit rt client conn data st subscribePkt rest Hdec) |].
  split; [reflexivity |].
  split; [reflexivity |].
  split.
  - intros i sub Hi. unfold returnCodes. by rewrite list_lookup_fmap, Hi.
  - intros filter. cbn [spec.emit heap].
    rewrite Subscriptions_withSubscriptions by done.
    apply storeSubscriptions_lookup.
Qed.

Lemma handleSubscribe_grants_requested_witness :
  ∃ st' sent,
    handleSubscribe scenario.runtime 0 1 scenario.subscribeA2
                    (scenario.stateOf scenario.oneConnect) = Done tt st' ∧
    trace st'
    = trace (scenario.stateOf scenario.oneConnect)
      ++ spec.written (scenario.stateOf scenario.oneConnect) 1
           (spec.subackFrame 1 [2])
      ++ sent.
Proof.
  destruct (handleSubscribe_grants_requested scenario.runtime 0 1
              scenario.subscribeA2 (scenario.stateOf scenario.oneConnect)
              (mqtt.mkSubscribePacket 1 [mqtt.mkSubscription "a" 2]) [])
    as (st' & sent & Hrun & _ & Htrace & _).
  - reflexivity.
  - vm_compute. lia.
  - exists st', sent. split; [exact Hrun | exact Htrace].
Defined.

(** C4 fails as stated.  The client asks for ["a"] at QoS 2; with the
    server's maximum QoS at 1 the specification grants [min(2, 1, 1) = 1],
    and the broker answers with return code 2 and records QoS 2. *)
Lemma handleSubscribe_qos2_counterexample :
  mqtt.DecodeSubscribePacket 6 scenario.subscribeA2
  = mqtt.Ok (mqtt.mkSubscribePacket 1 [mqtt.mkSubscription "a" 2], []) ∧
  Z.min 2 (Z.min (config.MaxQoS (config.QoS scenario.testConfig)) 1) = 1 ∧
  trace (scenario.stateOf
           (handleSubscribe scenario.runtime 0 1 scenario.subscribeA2
              (scenario.stateOf scenario.oneConnect)))
  = [EvWrite 1 [0x20; 2; 0; 0]; EvWrite 1 [0x90; 3; 0; 1; 2]] ∧
  Subscriptions
    (deref (heap (scenario.stateOf
                    (handleSubscribe scenario.runtime 0 1 scenario.subscribeA2
                       (scenario.stateOf scenario.oneConnect)))) 0) !! "a"
  = Some 2.
Proof. by vm_compute. Qed.

(** ** PUBLISH and the retained store *)

(** What [handlePublish] does for a PUBLISH that decodes: it updates the
    retained store, acknowledges a QoS 1 publish and routes the message; all
    it adds to the trace are that write and the deliveries it starts.  The
    one exception is a retained publish with a payload on a broker made by
    [New], whose retained map is nil: the assignment panics. *)
Lemma handlePublish_emit (rt : GoRuntime) (client : nat)
    (header : mqtt.FixedHeader) (data : list Z) (st : State)
    (publishPkt : mqtt.PublishPacket) (rest : list Z) :
  mqtt.DecodePublishPacket header data = mqtt.Ok (publishPkt, rest) →
  is_Some (retainedMsgs st) ∨ mqtt.Retain publishPkt = false
  ∨ mqtt.Payload publishPkt = [] →
  ∃ evs,
    handlePublish rt client header data st
    = Done tt (spec.emit evs
                 (spec.withRetained (spec.stored publishPkt (retainedMsgs st)) st)).
Proof.
  intros Hdec Hok. unfold handlePublish. rewrite Hdec.
  set (st1 := spec.withRetained _ st).
  assert ((if mqtt.Retain publishPkt then updateRetained publishPkt
           else go_ret tt) st = Done tt st1) as Hupd.
  { unfold st1, spec.withRetained, spec.stored, updateRetained, go_ret.
    destruct (mqtt.Retain publishPkt); [| by destruct st].
    destruct (mqtt.Payload publishPkt); simpl; [done |].
    destruct Hok as [[m Hm]|[|]]; [| done | done]. by rewrite Hm. }
  unfold go_bind at 1 2. rewrite Hupd. clear Hupd.
  destruct (mqtt.QoS publishPkt =? 1); simpl.
  - unfold go_bind, load. rewrite conn_Write_emit. unfold go_ret.
    rewrite routeMessage_emit, emit_emit. by eexists.
  - unfold go_ret. rewrite routeMessage_emit. by eexists.
Qed.

Lemma handlePublish_nil_map (rt : GoRuntime) (client : nat)
    (header : mqtt.FixedHeader) (data : list Z) (st : State)
    (publishPkt : mqtt.PublishPacket) (rest : list Z) :
  mqtt.DecodePublishPacket header data = mqtt.Ok (publishPkt, rest) →
  mqtt.Retain publishPkt = true →
  mqtt.Payload publishPkt ≠ [] →
  retainedMsgs st = None →
  handlePublish rt client header data st
  = Panic "assignment to entry in nil map" st.
Proof.
  intros Hdec Hretain Hpayload Hnil. unfold handlePublish. rewrite Hdec, Hretain.
  unfold go_bind, updateRetained. rewrite Hnil.
  by destruct (mqtt.Payload publishPkt).
Qed.

Lemma retainedEvents_from_store (rt : GoRuntime) (st : State) (client : nat)
    (topics : list mqtt.Subscription) :
  valid rt →
  Forall (λ ev, ∃ k msg qos,
            ev = EvGo client msg qos ∧
            spec.retained st !! k = Some msg)
         (concat (spec.retainedEvents client topics
                  <$> range_retained rt (spec.retained st))).
Proof.
  intros (_ & _ & Hret). apply Forall_concat, Forall_fmap, Forall_forall.
  intros [k msg] Hin. rewrite Hret in Hin. apply elem_of_map_to_list in Hin.
  unfold spec.retainedEvents; simpl.
  destruct (firstSubMatch topics k) as [sub|]; [| by apply Forall_nil].
  apply Forall_singleton. by exists k, msg, (mqtt.Sub_QoS sub).
Qed.

(** Only a PUBLISH touches the retained store. *)
Lemma handleConnect_retained (conn : nat) (reader : list Z) (remainingLen : Z)
    (st : State) (client : option nat) (st' : State) :
  handleConnect conn reader remainingLen st = Done client st' →
  retainedMsgs st' = retainedMsgs st.
Proof.
  unfold handleConnect.
  destruct (mqtt.DecodeConnectPacket remainingLen reader) as [[pkt rest]|].
  - unfold go_bind, alloc, storeClient, go_ret; simpl.
    rewrite conn_Write_emit. by intros [= _ <-].
  - unfold go_bind, conn_Close, go_ret. by intros [= _ <-].
Qed.

Lemma handleSubscribe_retained (rt : GoRuntime) (client conn : nat)
    (data : list Z) (st st' : State) :
  handleSubscribe rt client conn data st = Done tt st' →
  retainedMsgs st' = retainedMsgs st.
Proof.
  destruct (mqtt.DecodeSubscribePacket (Z.of_nat (length data)) data)
    as [[subscribePkt rest]|] eqn:Hdec.
  - rewrite (handleSubscribe_emit rt client conn data st subscribePkt rest Hdec).
    by intros [= <-].
  - unfold handleSubscribe. rewrite Hdec. by intros [= <-].
Qed.

Lemma handleUnsubscribe_retained (client : nat) (data : list Z) (st st' : State) :
  handleUnsubscribe client data st = Done tt st' →
  retainedMsgs st' = retainedMsgs st.
Proof.
  unfold handleUnsubscribe.
  destruct (mqtt.DecodeUnsubscribePacket _ data) as [[pkt rest]|];
    [| by intros [= <-]].
  unfold go_bind, load, setSubscriptions, go_ret; simpl.
  rewrite conn_Write_emit. intros [= <-]. reflexivity.
Qed.

Lemma handlePingreq_retained (conn : nat) (st st' : State) :
  handlePingreq conn st = Done tt st' → retainedMsgs st' = retainedMsgs st.
Proof.
  unfold handlePingreq, go_bind, go_ret; simpl.
  rewrite conn_Write_emit. by intros [= <-].
Qed.

Lemma handlePublish_keeps_cleared (rt : GoRuntime) (client : nat)
    (header : mqtt.FixedHeader) (data : list Z) (st st' : State) (t : string) :
  handlePublish rt client header data st = Done tt st' →
  spec.retained st !! t = None →
  (∀ publishPkt rest,
     mqtt.DecodePublishPacket header data = mqtt.Ok (publishPkt, rest) →
     mqtt.Retain publishPkt = true →
     mqtt.Topic publishPkt ≠ t ∨ mqtt.Payload publishPkt = []) →
  spec.retained st' !! t = None.
Proof.
  intros Hrun Hcleared Hother.
  destruct (mqtt.DecodePublishPacket header data) as [[publishPkt rest]|] eqn:Hdec;
    [| unfold handlePublish, go_ret in Hrun; rewrite Hdec in Hrun; by simplify_eq].
  specialize (Hother publishPkt rest eq_refl).
  destruct (decide (is_Some (retainedMsgs st) ∨ mqtt.Retain publishPkt = false
                    ∨ mqtt.Payload publishPkt = [])) as [Hok|Hnil].
  - destruct (handlePublish_emit rt client header data st publishPkt rest Hdec Hok)
      as [evs Hrun'].
    rewrite Hrun' in Hrun. simplify_eq. clear Hrun'.
    unfold spec.retained, spec.stored in *. cbn.
    destruct (mqtt.Retain publishPkt); [| done].
    destruct (retainedMsgs st) as [m|]; cbn in *;
      [| by destruct (mqtt.Payload publishPkt)].
    destruct (mqtt.Payload publishPkt) as [|b payload]; cbn.
    + apply lookup_delete_None. by right.
    + destruct (Hother eq_refl) as [Hne|]; [| done].
      by rewrite lookup_insert_ne.
  - rewrite (handlePublish_nil_map rt client header data st publishPkt rest) in Hrun;
      [done | done | | |].
    + destruct (mqtt.Retain publishPkt); [done | tauto].
    + tauto.
    + destruct (retainedMsgs st); [| done]. destruct Hnil. left. by eexists.
Qed.

(** A packet that is not a retained publish with a payload on [t] leaves
    [t] without a retained entry. *)
Lemma handlePacket_keeps_cleared (rt : GoRuntime) (conn : nat)
    (client : option nat) (reader : list Z) (st : State) (it : iteration)
    (st' : State) (t : string) :
  handlePacket rt conn client reader st = Done it st' →
  spec.retained st !! t = None →
  (∀ header r1 data r2 publishPkt rest,
     mqtt.ReadFixedHeader reader = mqtt.Ok (header, r1) →
     mqtt.ReadFull (mqtt.RemainingLen header) r1 = mqtt.Ok (data, r2) →
     mqtt.PacketType header = mqtt.PUBLISH →
     mqtt.DecodePublishPacket header data = mqtt.Ok (publishPkt, rest) →
     mqtt.Retain publishPkt = true →
     mqtt.Topic publishPkt ≠ t ∨ mqtt.Payload publishPkt = []) →
  spec.retained st' !! t = None.
Proof.
  intros Hrun Hcleared Hother.
  unfold handlePacket, go_bind, go_ret, go_panic in Hrun.
  destruct (mqtt.ReadFixedHeader reader) as [[header r1]|] eqn:Hh;
    [| by simplify_eq].
  destruct (mqtt.ReadFull _ r1) as [[data r2]|] eqn:Hd; [| by simplify_eq].
  unfold spec.retained in *.
  destruct (Z.eqb_spec (mqtt.PacketType header) mqtt.CONNECT).
  { destruct (handleConnect _ _ _ st) as [c st1|] eqn:Hc; [| done].
    apply handleConnect_retained in Hc.
    destruct c; simplify_eq; by rewrite Hc. }
  destruct (Z.eqb_spec (mqtt.PacketType header) mqtt.PUBLISH) as [Hpub|].
  { destruct client as [c|]; [| by simplify_eq].
    destruct (handlePublish rt c header data st) as [[] st1|] eqn:Hp; [| done].
    simplify_eq. eapply handlePublish_keeps_cleared; [done | done |].
    intros publishPkt rest Hdec Hretain.
    by eapply (Hother header r1 data r2 publishPkt rest). }
  destruct (Z.eqb_spec (mqtt.PacketType header) mqtt.SUBSCRIBE).
  { destruct client as [c|]; [| by simplify_eq].
    destruct (handleSubscribe rt c conn data st) as [[] st1|] eqn:Hs; [| done].
    apply handleSubscribe_retained in Hs. simplify_eq. by rewrite Hs. }
  destruct (Z.eqb_spec (mqtt.PacketType header) mqtt.UNSUBSCRIBE).
  { destruct client as [c|]; [| by simplify_eq].
    destruct (handleUnsubscribe c data st) as [[] st1|] eqn:Hu; [| done].
    apply handleUnsubscribe_retained in Hu. simplify_eq. by rewrite Hu. }
  destruct (Z.eqb_spec (mqtt.PacketType header) mqtt.PINGREQ).
  { destruct (handlePingreq conn st) as [[] st1|] eqn:Hping; [| done].
    apply handlePingreq_retained in Hping. simplify_eq. by rewrite Hping. }
  destruct (Z.eqb_spec (mqtt.PacketType header) mqtt.DISCONNECT).
  { destruct client; by simplify_eq. }
  by simplify_eq.
Qed.

(** The retained store of a broker that has one, as [NewWithConfig] makes
    it.  A PUBLISH with the retain flag and a payload leaves its packet as
    the one retained entry of its topic, and one with the retain flag and
    no payload leaves that topic without an entry; the entries of other
    topics stay.  While a topic has no retained entry, a SUBSCRIBE is
    answered by at most its SUBACK and starts deliveries of retained
    messages of other topics only: no delivery is started for the cleared
    topic.  And the topic stays without an entry through every packet the
    broker handles, on any connection, until a retained publish with a
    payload names it again. *)
Theorem retained_lifecycle :
  (∀ rt client header data st publishPkt rest,
     mqtt.DecodePublishPacket header data = mqtt.Ok (publishPkt, rest) →
     mqtt.Retain publishPkt = true →
     is_Some (retainedMsgs st) →
     spec.keyed st →
     ∃ st',
       handlePublish rt client header data st = Done tt st' ∧
       is_Some (retainedMsgs st') ∧ spec.keyed st' ∧
       spec.retained st' !! mqtt.Topic publishPkt
       = (if decide (mqtt.Payload publishPkt = []) then None else Some publishPkt) ∧
       ∀ t, t ≠ mqtt.Topic publishPkt →
            spec.retained st' !! t = spec.retained st !! t) ∧
  (∀ rt client conn data st t,
     valid rt →
     spec.keyed st →
     spec.retained st !! t = None →
     ∃ st' ack sent,
       handleSubscribe rt client conn data st = Done tt st' ∧
       retainedMsgs st' = retainedMsgs st ∧
       trace st' = trace st ++ ack ++ sent ∧
       (ack = [] ∨
        ∃ packetID returnCodes,
          ack = [EvWrite (Conn (deref (heap st) client))
                         (spec.subackFrame packetID returnCodes)]) ∧
       Forall (λ ev, ∃ msg qos,
                 ev = EvGo client msg qos ∧
                 spec.retained st !! mqtt.Topic msg = Some msg ∧
                 mqtt.Topic msg ≠ t) sent) ∧
  (∀ rt conn client reader st it st' t,
     handlePacket rt conn client reader st = Done it st' →
     spec.retained st !! t = None →
     (∀ header r1 data r2 publishPkt rest,
        mqtt.ReadFixedHeader reader = mqtt.Ok (header, r1) →
        mqtt.ReadFull (mqtt.RemainingLen header) r1 = mqtt.Ok (data, r2) →
        mqtt.PacketType header = mqtt.PUBLISH →
        mqtt.DecodePublishPacket header data = mqtt.Ok (publishPkt, rest) →
        mqtt.Retain publishPkt = true →
        mqtt.Topic publishPkt ≠ t ∨ mqtt.Payload publishPkt = []) →
     spec.retained st' !! t = None).
Proof.
  split; [| split; [| apply handlePacket_keeps_cleared]].
  - intros rt client header data st publishPkt rest Hdec Hretain [m Hm] Hkeyed.
    destruct (handlePublish_emit rt client header data st publishPkt rest)
      as [evs Hrun]; [done | by left; eexists |].
    unfold spec.stored in Hrun. rewrite Hretain, Hm in Hrun.
    eexists. split; [exact Hrun |].
    unfold spec.keyed, spec.retained in *. rewrite Hm in *. cbn in *.
    destruct (mqtt.Payload publishPkt) as [|b payload]; cbn.
    + split; [done |]. split; [| split].
      * intros k msg [_ H]%lookup_delete_Some. by apply Hkeyed.
      * apply lookup_delete_eq.
      * intros t Hne. by apply lookup_delete_ne.
    + split; [done |]. split; [| split].
      * intros k msg [[<- <-]|[_ H]]%lookup_insert_Some; [done | by apply Hkeyed].
      * apply lookup_insert_eq.
      * intros t Hne. by apply lookup_insert_ne.
  - intros rt client conn data st t Hrt Hkeyed Habsent.
    destruct (mqtt.DecodeSubscribePacket (Z.of_nat (length data)) data)
      as [[subscribePkt rest]|e] eqn:Hdec.
    + eexists _, _, _.
      split; [exact (handleSubscribe_emit rt client conn data st subscribePkt rest Hdec) |].
      split; [reflexivity |]. split; [reflexivity |]. split.
      * unfold spec.written. destruct (decide _); eauto.
      * destruct (decide _); [by apply Forall_nil |].
        eapply Forall_impl; [by apply retainedEvents_from_store |].
        intros ev (k & msg & qos & -> & Hk). exists msg, qos.
        pose proof (Hkeyed k msg Hk) as ->. split; [done |].
        split; [done |]. congruence.
    + exists st, [], []. unfold handleSubscribe. rewrite Hdec.
      split; [done |]. split; [done |]. split; [by rewrite !app_nil_r |].
      split; [by left | by apply Forall_nil].
Qed.

Lemma retained_lifecycle_witness :
  ∃ st',
    handlePublish scenario.runtime 0 scenario.retainHeader scenario.publishBody
                  (scenario.stateOf scenario.oneConnect) = Done tt st' ∧
    spec.retained st' !! "a/b"
    = Some (mqtt.mkPublishPacket false 0 true "a/b" 0 [104; 105]).
Proof.
  destruct (proj1 retained_lifecycle scenario.runtime 0%nat
              scenario.retainHeader scenario.publishBody
              (scenario.stateOf scenario.oneConnect)
              (mqtt.mkPublishPacket false 0 true "a/b" 0 [104; 105]) [])
    as (st' & Hrun & _ & _ & Hstored & _).
  - reflexivity.
  - reflexivity.
  - by eexists.
  - intros k msg H. vm_compute in H. discriminate.
  - exists st'. split; [exact Hrun | exact Hstored].
Defined.

(** C8 on a broker made by [New].  [New] makes the client registry but not
    the retained map, which [NewWithConfig] makes.  When a client connects
    to such a broker and sends a PUBLISH with the retain flag and a
    payload, the handler assigns into the nil map and panics: no retained
    entry is created, and the deferred close of the socket is all that
    follows the CONNACK.  On a broker made by [NewWithConfig] the same
    packets leave the message as the retained entry of its topic. *)
Theorem handleConnection_retained_on_New (rt : GoRuntime) (conn : nat) :
  handleConnection rt conn
    (scenario.connectPacket "x" ++ scenario.publishPacket true "a/b" "hi") New
  = Panic "assignment to entry in nil map"
      {| clients := {[ "x" := 0%nat ]}; retainedMsgs := None;
         heap := [ {| ID := "x"; Conn := conn; CleanSession := true;
                      Subscriptions := ∅ |} ];
         closed := {[conn]} ∪ ∅;
         trace := [EvWrite conn [0x20; 2; 0; 0]; EvClose conn] |} ∧
  spec.retained
    (spec.final
       (handleConnection scenario.runtime 1
          (scenario.connectPacket "x" ++ scenario.publishPacket true "a/b" "hi")
          NewWithConfig)) !! "a/b"
  = Some (mqtt.mkPublishPacket false 0 true "a/b" 0 [104; 105]).
Proof. split; [reflexivity | by vm_compute]. Qed.

(** ** The connection loop *)

(** An iteration that continues has consumed a fixed header. *)
Lemma handlePacket_consumes (rt : GoRuntime) (conn : nat) (client : option nat)
    (reader : list Z) (st : State) (client' : option nat) (reader' : list Z)
    (st' : State) :
  handlePacket rt conn client reader st = Done (Continue client' reader') st' →
  (length reader' + 2 ≤ length reader)%nat.
Proof.
  unfold handlePacket.
  destruct (mqtt.ReadFixedHeader reader) as [[header r1]|] eqn:Hh; [| done].
  destruct (mqtt.ReadFull _ r1) as [[remainingData r2]|] eqn:Hd; [| done].
  apply ReadFixedHeader_length in Hh. apply ReadFull_length in Hd.
  assert (length r2 + 2 ≤ length reader)%nat as Hlen by lia.
  unfold go_bind, go_ret, go_panic. intros H.
  repeat case_match; simplify_eq; exact Hlen.
Qed.

(** The loop of [handleConnection] never runs out of iterations: with more
    fuel than input bytes it ends by a [return] or by a panic. *)
Lemma connectionLoop_fuel (rt : GoRuntime) (conn : nat) (fuel : nat) :
  ∀ client reader st st',
    (length reader < fuel)%nat →
    connectionLoop rt fuel conn client reader st ≠ Done false st'.
Proof.
  induction fuel as [|fuel IH]; intros client reader st st' Hfuel; [lia |].
  simpl. unfold go_bind.
  destruct (handlePacket rt conn client reader st) as [[c' r'|] st1|] eqn:Hp;
    [| done | done].
  apply handlePacket_consumes in Hp. apply IH. lia.
Qed.

Lemma handleConnection_returns (rt : GoRuntime) (conn : nat) (input : list Z)
    (st : State) :
  (∃ st', handleConnection rt conn input st = Done true st') ∨
  (∃ msg st', handleConnection rt conn input st = Panic msg st').
Proof.
  unfold handleConnection, with_defer.
  destruct (connectionLoop rt (S (length input)) conn None input st)
    as [[] st1|msg st1] eqn:Hloop; simpl; eauto.
  by apply connectionLoop_fuel in Hloop; [| lia].
Qed.

(** ** The scenarios of the integration tests

    What the peers observe when the deliveries that a packet starts run
    before the next packet arrives. *)

(** Scenario 1: the subscriber gets its CONNACK and SUBACK, the publisher
    its CONNACK, and the subscriber one PUBLISH with the topic and payload,
    QoS 0, no retain, no dup. *)
Example basicPubSub_trace :
  spec.observable (trace scenario.basicPubSub)
  = [ EvWrite 1 [0x20; 2; 0; 0];
      EvWrite 1 [0x90; 3; 0; 1; 0];
      EvWrite 2 [0x20; 2; 0; 0];
      EvWrite 1 ([0x30; 30] ++ mqtt.WriteString "test/topic"
                 ++ mqtt.bytes_of_string "Hello MQTT Server!") ].
Proof. by vm_compute. Qed.

(** Scenario 3: the retained message follows the SUBACK of the new
    subscriber, with the retain flag set. *)
Example retainedThenSubscribe_trace :
  spec.observable (trace scenario.retainedThenSubscribe)
  = [ EvWrite 1 [0x20; 2; 0; 0];
      EvWrite 2 [0x20; 2; 0; 0];
      EvWrite 2 [0x90; 3; 0; 1; 0];
      EvWrite 2 ([0x31; 22] ++ mqtt.WriteString "status/system"
                 ++ mqtt.bytes_of_string "running") ].
Proof. by vm_compute. Qed.

(** Scenario 4: the clearing publish is routed to the subscriber of
    scenario 3, which is still subscribed; the new subscriber gets its
    CONNACK and SUBACK and nothing else. *)
Example clearedThenSubscribe_trace :
  spec.observable (trace scenario.clearedThenSubscribe)
  = spec.observable (trace scenario.retainedThenSubscribe)
    ++ [ EvWrite 2 ([0x31; 15] ++ mqtt.WriteString "status/system");
         EvWrite 3 [0x20; 2; 0; 0];
         EvWrite 3 [0x90; 3; 0; 1; 0] ].
Proof. by vm_compute. Qed.

(** ** Packets before CONNECT *)

(** PUBLISH, SUBSCRIBE and UNSUBSCRIBE are guarded: with no session yet the
    loop returns, having done nothing. *)
Lemma handlePacket_guarded (rt : GoRuntime) (conn : nat) (reader : list Z)
    (st : State) (header : mqtt.FixedHeader) (r1 data r2 : list Z) :
  mqtt.ReadFixedHeader reader = mqtt.Ok (header, r1) →
  mqtt.ReadFull (mqtt.RemainingLen header) r1 = mqtt.Ok (data, r2) →
  mqtt.PacketType header ∈ [mqtt.PUBLISH; mqtt.SUBSCRIBE; mqtt.UNSUBSCRIBE] →
  handlePacket rt conn None reader st = Done Return st.
Proof.
  intros Hh Hd Ht. unfold handlePacket. rewrite Hh, Hd.
  repeat (apply elem_of_cons in Ht as [->|Ht]; [reflexivity |]).
  by apply elem_of_nil in Ht.
Qed.

(** C6 at PINGREQ: as the first packet of a connection it is answered with
    PINGRESP and the loop goes on, the socket open; and a packet type the
    loop does not handle, such as PUBACK, is skipped in the same way.  Both
    differ from the guarded packet types above. *)
Theorem handlePacket_pingreq_before_connect
    (rt : GoRuntime) (conn : nat) (rest : list Z) (st : State) :
  handlePacket rt conn None (0xC0 :: 0 :: rest) st
  = Done (Continue None rest) (spec.emit (spec.written st conn [0xD0; 0]) st) ∧
  handlePacket rt conn None (0x40 :: 2 :: 0 :: 1 :: rest) st
  = Done (Continue None rest) st ∧
  handleConnection rt 7 [0xC0; 0] NewWithConfig
  = Done true (spec.emit [EvWrite 7 [0xD0; 0]; EvClose 7]
                 {| clients := ∅; retainedMsgs := Some ∅; heap := [];
                    closed := {[7%nat]} ∪ ∅; trace := [] |}).
Proof.
  split; [| split].
  - unfold handlePacket, mqtt.ReadFixedHeader, mqtt.bind.
    rewrite ReadByte_cons; simpl.
    unfold handlePingreq, go_bind; simpl. by rewrite conn_Write_emit.
  - assert (mqtt.ReadFixedHeader (0x40 :: 2 :: 0 :: 1 :: rest)
            = mqtt.Ok (mqtt.mkFixedHeader mqtt.PUBACK 0 2, 0 :: 1 :: rest)) as Hh.
    { unfold mqtt.ReadFixedHeader, mqtt.bind. by rewrite ReadByte_cons. }
    unfold handlePacket. rewrite Hh. cbn [mqtt.RemainingLen].
    rewrite ReadFull_two. reflexivity.
  - reflexivity.
Qed.

(** C10 at DISCONNECT: as the first packet of a connection it makes the
    handler read [client.ID] through the nil [client], and the goroutine
    panics; the deferred close of the socket is all that follows. *)
Theorem handlePacket_disconnect_before_connect
    (rt : GoRuntime) (conn : nat) (rest : list Z) (st : State) :
  handlePacket rt conn None (0xE0 :: 0 :: rest) st
  = Panic "invalid memory address or nil pointer dereference" st ∧
  handleConnection rt conn [0xE0; 0] st
  = Panic "invalid memory address or nil pointer dereference"
      {| clients := clients st; retainedMsgs := retainedMsgs st;
         heap := heap st; closed := {[conn]} ∪ closed st;
         trace := trace st ++ [EvClose conn] |}.
Proof.
  split.
  - unfold handlePacket, mqtt.ReadFixedHeader, mqtt.bind.
    rewrite ReadByte_cons; simpl. reflexivity.
  - reflexivity.
Qed.

End Broker.

(* ===================================================================== *)
(** * More of the codec                                                   *)
(* ===================================================================== *)

Section FixedHeaders.

Import mqtt.

Lemma land_mask_bounds (b : Z) (n : Z) :
  0 ≤ n → 0 ≤ Z.land b (Z.ones n) ≤ 2 ^ n - 1.
Proof.
  intros Hn. rewrite Z.land_ones by done.
  pose proof (Z.mod_pos_bound b (2 ^ n) ltac:(by apply Z.pow_pos_nonneg)). lia.
Qed.

Lemma land_7F_bounds (b : Z) : 0 ≤ Z.land b 0x7F ≤ 127.
Proof. apply (land_mask_bounds b 7). lia. Qed.

Lemma land_0F_bounds (b : Z) : 0 ≤ Z.land b 0x0F ≤ 15.
Proof. apply (land_mask_bounds b 4). lia. Qed.

(** What the remaining-length loop returns and consumes, by the multiplier
    it starts from. *)
Lemma readRemainingLen_bounds (r : list Z) :
  ∀ multiplier value x r',
    readRemainingLen multiplier value r = Ok (x, r') →
    multiplier = 1 ∨ multiplier = 128 ∨ multiplier = 128 * 128
    ∨ multiplier = 128 * 128 * 128 →
    value ≤ x ≤ value + (128 * 128 * 128 * 128 - multiplier) ∧
    (length r' < length r)%nat ∧
    (multiplier = 1 → (length r ≤ length r' + 4)%nat) ∧
    (multiplier = 128 → (length r ≤ length r' + 3)%nat) ∧
    (multiplier = 128 * 128 → (length r ≤ length r' + 2)%nat) ∧
    (multiplier = 128 * 128 * 128 → (length r ≤ length r' + 1)%nat).
Proof.
  induction r as [|b r IH]; intros m v x r' H Hm; simpl in H; [done |].
  pose proof (land_7F_bounds b) as Hb.
  destruct (Z.land b 128 =? 0).
  { simplify_eq. cbn [length]. repeat split; nia. }
  destruct (Z.gtb_spec (m * 128) (128 * 128 * 128)) as [|Hle]; [done |].
  apply IH in H as (Hx & Hlen & H1 & H2 & H3 & H4); [| lia].
  cbn [length]. repeat split; try nia; intros ->; lia.
Qed.

(** X1.  A fixed header that reads has a packet type and flags of four bits
    each and a remaining length of at most 268,435,455, and takes between
    two and five bytes of the input. *)
Theorem ReadFixedHeader_bounds (r : list Z) (header : FixedHeader) (r' : list Z) :
  ReadFixedHeader r = Ok (header, r') →
  0 ≤ PacketType header ≤ 15 ∧
  0 ≤ Flags header ≤ 15 ∧
  0 ≤ RemainingLen header ≤ 268435455 ∧
  (length r' + 2 ≤ length r ≤ length r' + 5)%nat.
Proof.
  unfold ReadFixedHeader, bind, ret. intros H.
  destruct r as [|b r]; [done |]. rewrite ReadByte_cons in H.
  destruct (readRemainingLen 1 0 r) as [[x r1]|] eqn:E; simplify_eq.
  apply readRemainingLen_bounds in E as (Hx & Hlen & Hcount & _); [| by left].
  specialize (Hcount eq_refl).
  cbn [PacketType Flags RemainingLen length].
  pose proof (land_0F_bounds (Z.shiftr b 4)). pose proof (land_0F_bounds b).
  repeat split; lia.
Qed.

Lemma ReadFixedHeader_bounds_witness :
  ReadFixedHeader [0x82; 0x06; 0; 1; 0; 1; 97; 2]
  = Ok (mkFixedHeader SUBSCRIBE 2 6, [0; 1; 0; 1; 97; 2]) ∧
  0 ≤ PacketType (mkFixedHeader SUBSCRIBE 2 6) ≤ 15.
Proof.
  split; [reflexivity |].
  apply (ReadFixedHeader_bounds [0x82; 0x06; 0; 1; 0; 1; 97; 2]
           (mkFixedHeader SUBSCRIBE 2 6) [0; 1; 0; 1; 97; 2]).
  reflexivity.
Defined.

(** X2.  Four length bytes that all carry the continuation bit are
    rejected as a malformed remaining length; the loop reads no fifth. *)
Theorem ReadFixedHeader_malformed (b0 b1 b2 b3 b4 : Z) (r : list Z) :
  Z.land b1 0x80 ≠ 0 → Z.land b2 0x80 ≠ 0 →
  Z.land b3 0x80 ≠ 0 → Z.land b4 0x80 ≠ 0 →
  ReadFixedHeader (b0 :: b1 :: b2 :: b3 :: b4 :: r)
  = Err (Errorf "malformed remaining length").
Proof.
  intros H1 H2 H3 H4. unfold ReadFixedHeader, bind.
  rewrite ReadByte_cons. cbn [readRemainingLen].
  apply Z.eqb_neq in H1, H2, H3, H4. rewrite H1, H2, H3, H4.
  reflexivity.
Qed.

Lemma ReadFixedHeader_malformed_witness :
  ReadFixedHeader [0x30; 0xFF; 0xFF; 0xFF; 0xFF; 0x7F]
  = Err (Errorf "malformed remaining length").
Proof.
  apply (ReadFixedHeader_malformed 0x30 0xFF 0xFF 0xFF 0xFF [0x7F]); by vm_compute.
Defined.

(** The variable-length loop of [deliverMessage] on a length of five
    digits or more. *)
Lemma encodeLength_too_long (fuel : nat) (x : Z) (tail : list Z) :
  128 * 128 * 128 * 128 ≤ x → (4 ≤ fuel)%nat →
  readRemainingLen 1 0 (server.encodeLength fuel x ++ tail)
  = Err (Errorf "malformed remaining length").
Proof.
  intros Hx Hfuel.
  do 4 (destruct fuel as [|fuel]; [lia |]). clear Hfuel.
  assert (∀ y, 128 ≤ y →
            ∃ d, 0 ≤ d < 128 ∧
                 (∀ f, server.encodeLength (S f) y
                       = Z.lor d 0x80 :: server.encodeLength f (y / 128))) as Hstep.
  { intros y Hy. exists (y mod 128).
    split; [apply Z.mod_pos_bound; lia |]. intros f.
    cbn [server.encodeLength]. destruct (Z.gtb_spec y 0); [| lia].
    assert (0 < y / 128) by (apply Z.div_str_pos; lia).
    destruct (Z.gtb_spec (y / 128) 0); [| lia].
    unfold to_byte. rewrite (Z.mod_small (y mod 128) 256); [done |].
    pose proof (Z.mod_pos_bound y 128). lia. }
  assert (128 * 128 * 128 ≤ x / 128) by (apply Z.div_le_lower_bound; lia).
  assert (128 * 128 ≤ x / 128 / 128) by (apply Z.div_le_lower_bound; lia).
  assert (128 ≤ x / 128 / 128 / 128) by (apply Z.div_le_lower_bound; lia).
  destruct (Hstep x ltac:(lia)) as (d1 & Hd1 & ->).
  destruct (Hstep (x / 128) ltac:(lia)) as (d2 & Hd2 & ->).
  destruct (Hstep (x / 128 / 128) ltac:(lia)) as (d3 & Hd3 & ->).
  destruct (Hstep (x / 128 / 128 / 128) ltac:(lia)) as (d4 & Hd4 & ->).
  destruct (digit_bits d1 Hd1) as (_ & _ & _ & E1).
  destruct (digit_bits d2 Hd2) as (_ & _ & _ & E2).
  destruct (digit_bits d3 Hd3) as (_ & _ & _ & E3).
  destruct (digit_bits d4 Hd4) as (_ & _ & _ & E4).
  cbn [app readRemainingLen]. rewrite E1, E2, E3, E4. reflexivity.
Qed.

(** X3.  The remaining length: for every length from 1 to 268,435,455 the
    bytes the loop of [deliverMessage] writes are at most four and
    [ReadFixedHeader]'s loop reads them back as that length; what the loop
    writes for a larger length is rejected on reading as malformed. *)
Theorem encodeLength_roundtrip (fuel : nat) (x : Z) (tail : list Z) :
  0 < x → Z.log2 x < Z.of_nat fuel →
  (x < 128 * 128 * 128 * 128 →
   readRemainingLen 1 0 (server.encodeLength fuel x ++ tail) = Ok (x, tail) ∧
   (1 ≤ length (server.encodeLength fuel x) ≤ 4)%nat) ∧
  (128 * 128 * 128 * 128 ≤ x →
   readRemainingLen 1 0 (server.encodeLength fuel x ++ tail)
   = Err (Errorf "malformed remaining length")).
Proof.
  intros Hx Hfuel. split.
  - intros Hsmall.
    assert (readRemainingLen 1 0 (server.encodeLength fuel x ++ tail)
            = Ok (x, tail)) as Hdec.
    { rewrite encodeLength_decodes; [| done | done | by left | lia].
      do 2 f_equal. lia. }
    split; [done |].
    apply readRemainingLen_bounds in Hdec as (_ & Hlt & Hcount & _); [| by left].
    specialize (Hcount eq_refl). rewrite length_app in *. lia.
  - intros Hbig. apply encodeLength_too_long; [done |].
    pose proof (Z.log2_le_mono (128 * 128 * 128 * 128) x Hbig) as Hmono.
    change (Z.log2 (128 * 128 * 128 * 128)) with 28 in Hmono. lia.
Qed.

Lemma encodeLength_roundtrip_witness :
  readRemainingLen 1 0 (server.encodeLength 9 321 ++ [7]) = Ok (321, [7]).
Proof.
  apply (encodeLength_roundtrip 9 321 [7]); [lia | by vm_compute | lia].
Defined.

End FixedHeaders.

Section Strings.

Import mqtt.

Lemma len_string_of_bytes (b : list Z) :
  len (string_of_bytes b) = Z.of_nat (length b).
Proof.
  unfold len, string_of_bytes. f_equal.
  induction b as [|x b IH]; simpl; [done | by f_equal].
Qed.

Lemma bytes_of_string_of_bytes (b : list Z) :
  Forall (λ x, 0 ≤ x < 256) b → bytes_of_string (string_of_bytes b) = b.
Proof.
  intros Hb. unfold string_of_bytes, bytes_of_string.
  rewrite String.list_ascii_of_string_of_list_ascii, <- list_fmap_compose.
  rewrite <- (list_fmap_id b) at 2. apply Forall_fmap_ext_1.
  eapply Forall_impl; [exact Hb |]. intros x Hx. cbv beta in Hx.
  simpl. unfold to_byte.
  rewrite Z.mod_small by done.
  rewrite N_ascii_embedding.
  - apply Z2N.id. lia.
  - change 256%N with (Z.to_N 256). apply Z2N.inj_lt; lia.
Qed.

(** What [ReadString] takes from the input: a two-byte length and as many
    bytes as it says. *)
Lemma ReadString_spec (r : list Z) (s : string) (r' : list Z) :
  ReadString r = Ok (s, r') →
  ∃ a b body,
    r = a :: b :: body ++ r' ∧
    Z.of_nat (length body) = Z.max 0 (Uint16 [a; b]) ∧
    s = string_of_bytes body.
Proof.
  unfold ReadString, bind, ret. intros H.
  destruct r as [|a [|b r]]; [done | cbv in H; done |].
  rewrite ReadFull_two in H.
  destruct (Z.eqb_spec (Uint16 [a; b]) 0) as [Hz|Hnz].
  - simplify_eq. exists a, b, []. by rewrite Hz.
  - destruct (ReadFull (Uint16 [a; b]) r) as [[strBuf r1]|] eqn:E; simplify_eq.
    unfold ReadFull in E.
    destruct (Z.leb_spec (Uint16 [a; b]) 0).
    { simplify_eq. exists a, b, []. split; [done |]. split; [cbn [length]; lia | done]. }
    destruct r as [|x r]; [done |].
    destruct (Z.ltb_spec (Z.of_nat (length (x :: r))) (Uint16 [a; b]));
      simplify_eq.
    exists a, b, (take (Z.to_nat (Uint16 [a; b])) (x :: r)).
    rewrite take_drop, length_take. split; [done |]. split; [lia | done].
Qed.

(** X4.  [ReadString] reads back what [WriteString] wrote exactly for the
    strings shorter than 65,536 bytes; the length prefix of a longer string
    is cut to 16 bits and the string does not come back. *)
Theorem WriteString_roundtrip (s : string) (tail : list Z) :
  ReadString (WriteString s ++ tail) = Ok (s, tail) ↔ len s < 65536.
Proof.
  split; [| apply ReadString_WriteString].
  intros H. apply ReadString_spec in H as (a & b & body & Hr & Hlen & ->).
  pose proof (len_nonneg (string_of_bytes body)) as Hnonneg.
  unfold WriteString, PutUint16 in Hr. cbn [app] in Hr.
  injection Hr as <- <- _.
  rewrite len_string_of_bytes in *.
  set (n := Z.of_nat (length body)) in *.
  assert (0 ≤ to_uint16 n < 65536) as Hn by (apply Z.mod_pos_bound; lia).
  destruct (Uint16_PutUint16 (to_uint16 n) Hn) as [Hu _].
  unfold PutUint16 in Hu. unfold to_uint16 in *. lia.
Qed.

(** Two bytes, read as a big-endian number and written again. *)
Lemma PutUint16_Uint16 (a b : Z) :
  0 ≤ a < 256 → 0 ≤ b < 256 →
  0 ≤ Uint16 [a; b] < 65536 ∧ PutUint16 (Uint16 [a; b]) = [a; b].
Proof.
  intros Ha Hb. unfold Uint16. rewrite lor_shiftl_8 by done.
  split; [lia |].
  unfold PutUint16, to_byte. rewrite Z.shiftr_div_pow2 by lia.
  change (2 ^ 8) with 256.
  replace ((a * 256 + b) / 256) with a
    by (apply (Z.div_unique _ 256 a b); lia).
  replace ((a * 256 + b) mod 256) with b
    by (apply (Z.mod_unique _ 256 a b); lia).
  by rewrite (Z.mod_small a) by lia.
Qed.

(** The bytes [ReadString] consumes are the string it returns, written
    with [WriteString]. *)
Lemma ReadString_bytes (r : list Z) (s : string) (r' : list Z) :
  Forall (λ x, 0 ≤ x < 256) r →
  ReadString r = Ok (s, r') →
  r = WriteString s ++ r' ∧ len s < 65536 ∧ Forall (λ x, 0 ≤ x < 256) r'.
Proof.
  intros Hbytes H. apply ReadString_spec in H as (a & b & body & -> & Hlen & ->).
  apply Forall_cons in Hbytes as [Ha Hbytes].
  apply Forall_cons in Hbytes as [Hb Hbytes].
  apply Forall_app in Hbytes as [Hbody Hrest].
  destruct (PutUint16_Uint16 a b Ha Hb) as [Hrange Hput].
  unfold WriteString. rewrite bytes_of_string_of_bytes by done.
  rewrite len_string_of_bytes, Hlen.
  rewrite Z.max_r by lia.
  unfold to_uint16. rewrite Z.mod_small by lia.
  rewrite Hput. split; [done |]. split; [lia | done].
Qed.

(** X5.  What [ReadString] returns, written again with [WriteString], is
    the bytes it consumed; the string is shorter than 65,536 bytes. *)
Theorem ReadString_inverse (r : list Z) (s : string) (r' : list Z) :
  Forall (λ x, 0 ≤ x < 256) r →
  ReadString r = Ok (s, r') →
  r = WriteString s ++ r' ∧ len s < 65536.
Proof.
  intros Hbytes H.
  destruct (ReadString_bytes r s r' Hbytes H) as (Hr & Hlen & _). done.
Qed.

Lemma ReadString_inverse_witness :
  [0; 3; 97; 47; 98; 1] = WriteString "a/b" ++ [1] ∧ len "a/b" < 65536.
Proof.
  apply (ReadString_inverse [0; 3; 97; 47; 98; 1] "a/b" [1]).
  - repeat constructor; lia.
  - reflexivity.
Defined.

End Strings.

Section Packets.

Import mqtt.

(** X6.  What a subscriber reads.  [deliverMessage] writes one frame to
    the socket of the session; read with [ReadFixedHeader] and
    [DecodePublishPacket] it is a PUBLISH whose remaining length covers
    exactly its body, with the dup and retain flags, the topic and the
    payload of the publish it was built from, QoS [min(q, g)] and, above
    QoS 0, the packet identifier of that publish, 1 standing in for 0. *)
Theorem deliverMessage_roundtrip (client : nat) (pub : PublishPacket)
    (subQoS : Z) (st : server.State) (tail : list Z) :
  0 ≤ QoS pub ≤ 3 → 0 ≤ subQoS →
  len (Topic pub) < 65536 →
  0 ≤ PacketID pub < 65536 →
  4 + len (Topic pub) + Z.of_nat (length (Payload pub)) < 128 * 128 * 128 * 128 →
  server.Conn (server.deref (server.heap st) client) ∉ server.closed st →
  ∃ frame header body,
    server.deliverMessage client pub subQoS st
    = server.Done tt
        (spec.emit [server.EvWrite (server.Conn (server.deref (server.heap st) client))
                                   frame] st) ∧
    ReadFixedHeader (frame ++ tail) = Ok (header, body ++ tail) ∧
    PacketType header = PUBLISH ∧
    ReadFull (RemainingLen header) (body ++ tail) = Ok (body, tail) ∧
    DecodePublishPacket header body = Ok (spec.redelivered pub subQoS, []).
Proof.
  intros Hq Hg Htopic Hpid Hsize Hopen.
  destruct (publishFrame_decodes pub subQoS tail Hq Hg Htopic Hpid Hsize)
    as (header & body & Hheader & Htype & Hbody & Hdec).
  exists (server.publishFrame pub subQoS), header, body.
  split; [| done].
  rewrite deliverMessage_emit. unfold spec.written.
  by rewrite decide_False.
Qed.

Lemma deliverMessage_roundtrip_witness :
  ∃ frame header body,
    server.deliverMessage 0 scenario.publishAB 0 scenario.mixedQoS
    = server.Done tt
        (spec.emit [server.EvWrite
                      (server.Conn (server.deref (server.heap scenario.mixedQoS) 0))
                      frame] scenario.mixedQoS) ∧
    ReadFixedHeader (frame ++ []) = Ok (header, body ++ []) ∧
    PacketType header = PUBLISH ∧
    ReadFull (RemainingLen header) (body ++ []) = Ok (body, []) ∧
    DecodePublishPacket header body = Ok (spec.redelivered scenario.publishAB 0, []).
Proof.
  apply (deliverMessage_roundtrip 0 scenario.publishAB 0 scenario.mixedQoS []).
  - simpl. lia.
  - lia.
  - by vm_compute.
  - simpl. lia.
  - by vm_compute.
  - simpl. set_solver.
Defined.

(** X7.  The acknowledgements of fixed size.  The frames of CONNACK,
    PUBACK, UNSUBACK and PINGRESP start with a fixed header that reads
    back as their packet type with no flags and with the length of what
    follows; PUBACK and UNSUBACK carry the packet identifier in two
    bytes. *)
Theorem ack_frames_wellformed (tail : list Z) :
  (∀ c, ∃ frame,
      ConnackPacket_Encode c = Ok frame ∧
      ReadFixedHeader (frame ++ tail)
      = Ok (mkFixedHeader CONNACK 0 2,
            [if SessionPresent c then 1 else 0; ReturnCode c] ++ tail)) ∧
  (∀ p, ∃ frame,
      PubackPacket_Encode p = Ok frame ∧
      ReadFixedHeader (frame ++ tail)
      = Ok (mkFixedHeader PUBACK 0 2, PutUint16 (Puback_PacketID p) ++ tail) ∧
      (0 ≤ Puback_PacketID p < 65536 →
       Uint16 (PutUint16 (Puback_PacketID p)) = Puback_PacketID p)) ∧
  (∀ u, ∃ frame,
      UnsubackPacket_Encode u = Ok frame ∧
      ReadFixedHeader (frame ++ tail)
      = Ok (mkFixedHeader UNSUBACK 0 2, PutUint16 (Unsuback_PacketID u) ++ tail) ∧
      (0 ≤ Unsuback_PacketID u < 65536 →
       Uint16 (PutUint16 (Unsuback_PacketID u)) = Unsuback_PacketID u)) ∧
  (∀ p, ∃ frame,
      PingrespPacket_Encode p = Ok frame ∧
      ReadFixedHeader (frame ++ tail) = Ok (mkFixedHeader PINGRESP 0 0, tail)).
Proof.
  assert (∀ b0 rest, ReadFixedHeader (b0 :: 2 :: rest)
                     = Ok (mkFixedHeader (Z.land (Z.shiftr b0 4) 0x0F)
                                         (Z.land b0 0x0F) 2, rest)) as Hread.
  { intros b0 rest. unfold ReadFixedHeader, bind, ret.
    by rewrite ReadByte_cons. }
  split; [| split; [| split]].
  - intros c. eexists. split; [reflexivity |]. cbn [app]. by rewrite Hread.
  - intros p. eexists. split; [reflexivity |]. cbn [app]. rewrite Hread.
    split; [reflexivity |]. intros Hp. by apply Uint16_PutUint16.
  - intros u. eexists. split; [reflexivity |]. cbn [app]. rewrite Hread.
    split; [reflexivity |]. intros Hu. by apply Uint16_PutUint16.
  - intros p. eexists. split; [reflexivity |]. cbn [app].
    unfold ReadFixedHeader, bind, ret. by rewrite ReadByte_cons.
Qed.

(** X8.  The SUBACK frame.  Its length is written in one byte,
    [byte(2 + len(ReturnCodes))], with no variable-length encoding: the
    fixed header reads back as a SUBACK followed by the packet identifier
    and the return codes exactly when there are at most 125 return
    codes. *)
Theorem SubackPacket_Encode_wellformed (s : SubackPacket) (tail : list Z) :
  ∃ frame,
    SubackPacket_Encode s = Ok frame ∧
    (ReadFixedHeader (frame ++ tail)
     = Ok (mkFixedHeader SUBACK 0 (2 + Z.of_nat (length (ReturnCodes s))),
           PutUint16 (Suback_PacketID s) ++ ReturnCodes s ++ tail)
     ↔ (length (ReturnCodes s) ≤ 125)%nat).
Proof.
  eexists. split; [reflexivity |].
  set (n := Z.of_nat (length (ReturnCodes s))).
  assert (0 ≤ n) as Hn by (unfold n; lia).
  set (rest := PutUint16 (Suback_PacketID s) ++ ReturnCodes s ++ tail).
  assert (([to_byte (Z.shiftl SUBACK 4); to_byte (2 + n)]
           ++ PutUint16 (Suback_PacketID s) ++ ReturnCodes s) ++ tail
          = 0x90 :: to_byte (2 + n) :: rest) as ->.
  { unfold rest. by rewrite <- !app_assoc. }
  unfold ReadFixedHeader, bind, ret. rewrite ReadByte_cons.
  cbn [readRemainingLen]. unfold to_byte.
  pose proof (Z.mod_pos_bound (2 + n) 256 ltac:(lia)) as Hb.
  pose proof (land_7F_bounds ((2 + n) mod 256)) as Hlow.
  split.
  - intros H.
    destruct (Z.eqb_spec (Z.land ((2 + n) mod 256) 128) 0) as [Hbit|Hbit].
    + injection H as H. unfold n in *. lia.
    + exfalso. change (1 * 128 >? 128 * 128 * 128) with false in H. cbv iota in H.
      destruct (readRemainingLen _ _ rest) as [[x r1]|] eqn:E; [| done].
      apply readRemainingLen_length in E. simplify_eq. lia.
  - intros Hle. rewrite Z.mod_small by lia.
    destruct (digit_bits (2 + n) ltac:(lia)) as (H1 & H2 & _).
    rewrite H1, H2. change (0 =? 0) with true. cbv iota.
    do 2 f_equal. f_equal. lia.
Qed.

(** The loop of [DecodeSubscribePacket] on the entries laid out one after
    the other. *)
Lemma subscribeLoop_layout (topics : list Subscription) :
  ∀ fuel bytesRead remainingLen acc,
    Forall (λ sub, len (Sub_Topic sub) < 65536) topics →
    let payload :=
      concat ((λ sub, WriteString (Sub_Topic sub) ++ [Sub_QoS sub]) <$> topics) in
    remainingLen = bytesRead + Z.of_nat (length payload) →
    (length payload ≤ fuel)%nat →
    subscribeLoop fuel bytesRead remainingLen acc payload = Ok (acc ++ topics, []).
Proof.
  induction topics as [|sub topics IH];
    intros fuel bytesRead remainingLen acc Hlen payload Hrem Hfuel.
  - cbn in *. rewrite app_nil_r.
    destruct fuel; cbn; destruct (Z.ltb_spec bytesRead remainingLen); done || lia.
  - apply Forall_cons in Hlen as [Hsub Hlen].
    unfold payload in *. rewrite fmap_cons, concat_cons in *.
    rewrite !length_app in Hrem, Hfuel. cbn [length] in Hrem, Hfuel.
    pose proof (length_WriteString (Sub_Topic sub) Hsub) as Hw.
    pose proof (len_nonneg (Sub_Topic sub)).
    destruct fuel as [|fuel]; [lia |]. cbn [subscribeLoop].
    destruct (Z.ltb_spec bytesRead remainingLen); [| lia].
    unfold bind, wrap. rewrite <- !app_assoc.
    rewrite ReadString_WriteString by done. cbn [app].
    rewrite ReadByte_cons.
    rewrite IH; [destruct sub; by rewrite <- app_assoc | done | lia | lia].
Qed.

(** X9.  A SUBSCRIBE body decodes to what it lays out: the packet
    identifier and, in order, each filter with the QoS byte that follows
    it.  The QoS byte is taken as it is, whatever its value, and a body
    with no entry at all is accepted. *)
Theorem DecodeSubscribePacket_layout (packetID : Z) (topics : list Subscription) :
  0 ≤ packetID < 65536 →
  Forall (λ sub, len (Sub_Topic sub) < 65536) topics →
  DecodeSubscribePacket
    (Z.of_nat (length (spec.subscribeBody packetID topics)))
    (spec.subscribeBody packetID topics)
  = Ok (mkSubscribePacket packetID topics, []).
Proof.
  intros Hpid Htopics. unfold spec.subscribeBody, DecodeSubscribePacket, bind, ret.
  destruct (Uint16_PutUint16 packetID Hpid) as [Hu _].
  unfold PutUint16 in *. cbn [app]. rewrite ReadFull_two, Hu.
  rewrite (subscribeLoop_layout topics _ _ _ []); [done | done | |].
  - cbn [length]. lia.
  - cbn [length]. lia.
Qed.

Lemma DecodeSubscribePacket_layout_witness :
  DecodeSubscribePacket
    (Z.of_nat (length (spec.subscribeBody 7 [mkSubscription "a/+" 1; mkSubscription "#" 9])))
    (spec.subscribeBody 7 [mkSubscription "a/+" 1; mkSubscription "#" 9])
  = Ok (mkSubscribePacket 7 [mkSubscription "a/+" 1; mkSubscription "#" 9], []).
Proof.
  apply (DecodeSubscribePacket_layout 7 [mkSubscription "a/+" 1; mkSubscription "#" 9]).
  - lia.
  - repeat constructor.
Defined.

Lemma unsubscribeLoop_layout (topics : list string) :
  ∀ fuel bytesRead remainingLen acc,
    Forall (λ topic, len topic < 65536) topics →
    let payload := concat (WriteString <$> topics) in
    remainingLen = bytesRead + Z.of_nat (length payload) →
    (length payload ≤ fuel)%nat →
    unsubscribeLoop fuel bytesRead remainingLen acc payload = Ok (acc ++ topics, []).
Proof.
  induction topics as [|topic topics IH];
    intros fuel bytesRead remainingLen acc Hlen payload Hrem Hfuel.
  - cbn in *. rewrite app_nil_r.
    destruct fuel; cbn; destruct (Z.ltb_spec bytesRead remainingLen); done || lia.
  - apply Forall_cons in Hlen as [Htopic Hlen].
    unfold payload in *. rewrite fmap_cons, concat_cons in *.
    rewrite !length_app in Hrem, Hfuel.
    pose proof (length_WriteString topic Htopic) as Hw.
    pose proof (len_nonneg topic).
    destruct fuel as [|fuel]; [lia |]. cbn [unsubscribeLoop].
    destruct (Z.ltb_spec bytesRead remainingLen); [| lia].
    unfold bind, wrap.
    rewrite ReadString_WriteString by done.
    rewrite IH; [by rewrite <- app_assoc | done | lia | lia].
Qed.

(** X10.  An UNSUBSCRIBE body decodes to what it lays out: the packet
    identifier and the filters in order. *)
Theorem DecodeUnsubscribePacket_layout (packetID : Z) (topics : list string) :
  0 ≤ packetID < 65536 →
  Forall (λ topic, len topic < 65536) topics →
  DecodeUnsubscribePacket
    (Z.of_nat (length (spec.unsubscribeBody packetID topics)))
    (spec.unsubscribeBody packetID topics)
  = Ok (mkUnsubscribePacket packetID topics, []).
Proof.
  intros Hpid Htopics. unfold spec.unsubscribeBody, DecodeUnsubscribePacket, bind, ret.
  destruct (Uint16_PutUint16 packetID Hpid) as [Hu _].
  unfold PutUint16 in *. cbn [app]. rewrite ReadFull_two, Hu.
  rewrite (unsubscribeLoop_layout topics _ _ _ []); [done | done | |].
  - cbn [length]. lia.
  - cbn [length]. lia.
Qed.

Lemma DecodeUnsubscribePacket_layout_witness :
  DecodeUnsubscribePacket
    (Z.of_nat (length (spec.unsubscribeBody 7 ["a/+"; ""])))
    (spec.unsubscribeBody 7 ["a/+"; ""])
  = Ok (mkUnsubscribePacket 7 ["a/+"; ""], []).
Proof.
  apply (DecodeUnsubscribePacket_layout 7 ["a/+"; ""]).
  - lia.
  - repeat constructor.
Defined.

End Packets.

Section Bodies.

Import mqtt.

Lemma ReadFull_bytes (n : Z) (r buf r' : list Z) :
  ReadFull n r = Ok (buf, r') →
  r = buf ++ r' ∧ Z.of_nat (length buf) = Z.max 0 n.
Proof.
  unfold ReadFull. intros H.
  destruct (Z.leb_spec n 0); [simplify_eq; split; [done | cbn [length]; lia] |].
  destruct r as [|x r]; [done |].
  destruct (Z.ltb_spec (Z.of_nat (length (x :: r))) n); simplify_eq.
  rewrite take_drop, length_take. split; [done | lia].
Qed.

(** X11.  What a PUBLISH body that decodes looks like.  The QoS is the two
    QoS bits of the flags, 3 included; a packet identifier is read only
    above QoS 0; the payload is what the remaining length leaves after
    the topic and the identifier; and the bytes consumed are the topic as
    a length-prefixed string, the identifier, and the payload. *)
Theorem DecodePublishPacket_inverse (header : FixedHeader) (r : list Z)
    (p : PublishPacket) (r' : list Z) :
  Forall (λ x, 0 ≤ x < 256) r →
  DecodePublishPacket header r = Ok (p, r') →
  0 ≤ QoS p ≤ 3 ∧
  (QoS p = 0 → PacketID p = 0) ∧
  Z.of_nat (length (Payload p))
  = Z.max 0 (RemainingLen header
             - (2 + len (Topic p) + (if QoS p >? 0 then 2 else 0))) ∧
  r = WriteString (Topic p)
      ++ (if QoS p >? 0 then PutUint16 (PacketID p) else [])
      ++ Payload p ++ r'.
Proof.
  intros Hbytes H. unfold DecodePublishPacket, bind, wrap, ret in H.
  destruct (ReadString r) as [[topic r1]|] eqn:Etopic; [| done].
  apply ReadString_bytes in Etopic as (-> & Htopic & Hr1); [| done].
  set (qos := Z.land (Z.shiftr (Flags header) 1) 3) in *.
  assert (0 ≤ qos ≤ 3) as Hqos by apply (land_mask_bounds _ 2 ltac:(lia)).
  destruct (Z.gtb_spec qos 0) as [Hpos|Hzero].
  - destruct r1 as [|a [|b r2]]; [done | by cbv in H |].
    rewrite ReadFull_two in H. cbn [fst snd] in H.
    apply Forall_cons in Hr1 as [Ha Hr1]. apply Forall_cons in Hr1 as [Hb Hr2].
    destruct (PutUint16_Uint16 a b Ha Hb) as [_ Hput].
    set (payloadLen := RemainingLen header - (2 + len topic + 2)) in *.
    destruct (Z.gtb_spec payloadLen 0) as [Hpay|Hpay].
    + destruct (ReadFull payloadLen r2) as [[payload r3]|] eqn:Epay; [| done].
      apply ReadFull_bytes in Epay as [-> Hlen]. simplify_eq. cbn [QoS PacketID Payload Topic].
      destruct (Z.gtb_spec qos 0); [| lia].
      change (Z.lor b (Z.shiftl a 8)) with (Uint16 [a; b]). rewrite Hput. fold payloadLen. repeat split; (cbn [length]; lia) || done.
    + simplify_eq. cbn [QoS PacketID Payload Topic].
      destruct (Z.gtb_spec qos 0); [| lia].
      change (Z.lor b (Z.shiftl a 8)) with (Uint16 [a; b]). rewrite Hput. fold payloadLen. repeat split; (cbn [length]; lia) || done.
  - cbn [fst snd] in H.
    set (payloadLen := RemainingLen header - (2 + len topic)) in *.
    destruct (Z.gtb_spec payloadLen 0) as [Hpay|Hpay].
    + destruct (ReadFull payloadLen r1) as [[payload r3]|] eqn:Epay; [| done].
      apply ReadFull_bytes in Epay as [-> Hlen]. simplify_eq. cbn [QoS PacketID Payload Topic].
      destruct (Z.gtb_spec qos 0); [lia |].
      replace (2 + len topic + 0) with (2 + len topic) by lia.
      fold payloadLen. repeat split; (cbn [length]; lia) || done.
    + simplify_eq. cbn [QoS PacketID Payload Topic].
      destruct (Z.gtb_spec qos 0); [lia |].
      replace (2 + len topic + 0) with (2 + len topic) by lia.
      fold payloadLen. repeat split; (cbn [length]; lia) || done.
Qed.

Lemma DecodePublishPacket_inverse_witness :
  0 ≤ QoS (mkPublishPacket false 3 true "a" 7 [9]) ≤ 3.
Proof.
  apply (DecodePublishPacket_inverse (mkFixedHeader PUBLISH 7 6)
           [0; 1; 97; 0; 7; 9] (mkPublishPacket false 3 true "a" 7 [9]) []).
  - repeat constructor; lia.
  - reflexivity.
Defined.

End Bodies.

Section Connect.

Import mqtt.

Lemma readLengthPrefixed_lengthPrefixed (b tail : list Z) :
  Z.of_nat (length b) < 65536 →
  readLengthPrefixed (spec.lengthPrefixed b ++ tail) = Ok (b, tail).
Proof.
  intros Hlen. unfold readLengthPrefixed, spec.lengthPrefixed, bind.
  destruct (Uint16_PutUint16 (Z.of_nat (length b)) ltac:(lia)) as [Hu _].
  unfold PutUint16 in *. cbn [app]. rewrite ReadFull_two, Hu.
  destruct b as [|x b]; [reflexivity |].
  by rewrite ReadFull_app by (cbn [length]; lia).
Qed.

(** X12.  A CONNECT body decodes to what it lays out, with the remaining
    bytes left in the reader.  The protocol name and level are read and
    returned as they are, whatever they are, and the remaining length
    handed to the decoder plays no part. *)
Theorem DecodeConnectPacket_layout (c : ConnectPacket) (flags remainingLen : Z)
    (tail : list Z) :
  spec.connectFlags c flags →
  spec.connectSized c →
  DecodeConnectPacket remainingLen (spec.connectBody c flags ++ tail) = Ok (c, tail).
Proof.
  intros (Huser & Hpass & Hretain & Hqos & Hwill & Hclean & Hnowill & Hnouser & Hnopass)
         (Hname & Hkeep & Hid & Htopic & Hmsg & Hu & Hp).
  destruct c as [name version clean will willQoS willRetain passF userF keep
                 id willTopic willMsg user pass].
  cbn [ProtocolName ProtocolVersion CleanSession WillFlag WillQoS WillRetain
       PasswordFlag UsernameFlag KeepAlive ClientID WillTopic WillMessage
       Username Password] in *.
  unfold spec.connectBody, DecodeConnectPacket, bind, wrap, ret.
  cbn [ProtocolName ProtocolVersion CleanSession WillFlag WillQoS WillRetain
       PasswordFlag UsernameFlag KeepAlive ClientID WillTopic WillMessage
       Username Password].
  rewrite <- !app_assoc. rewrite ReadString_WriteString by done.
  cbn [app]. rewrite !ReadByte_cons.
  destruct (Uint16_PutUint16 keep Hkeep) as [Hk _].
  unfold PutUint16 in Hk |- *. cbn [app]. rewrite ReadFull_two, Hk.
  rewrite ReadString_WriteString by done.
  rewrite <- Hwill, <- Huser, <- Hpass, <- Hretain, <- Hqos, <- Hclean.
  destruct will, userF, passF;
    try (destruct (Hnowill eq_refl) as [-> ->]);
    rewrite ?(Hnouser eq_refl), ?(Hnopass eq_refl);
    rewrite <- ?app_assoc;
    repeat (cbn [app fst snd];
            first [ rewrite ReadString_WriteString by done
                  | rewrite readLengthPrefixed_lengthPrefixed by done ]);
    reflexivity.
Qed.

Lemma DecodeConnectPacket_layout_witness :
  DecodeConnectPacket 0 (spec.connectBody scenario.willConnect 0xEE ++ [5])
  = Ok (scenario.willConnect, [5]).
Proof.
  apply (DecodeConnectPacket_layout scenario.willConnect 0xEE 0 [5]).
  - repeat split; try reflexivity; intros; discriminate.
  - repeat split; by vm_compute.
Defined.

End Connect.

(* ===================================================================== *)
(** * More on topics                                                      *)
(* ===================================================================== *)

Section Topics.

Import server.

Lemma splitTopic_loop_last (seg cur : string) :
  spec.isLevel seg = true →
  splitTopic_loop seg cur
  = if String.eqb (cur +:+ seg) "" then [] else [cur +:+ seg].
Proof.
  revert cur. induction seg as [|c seg IH]; intros cur Hseg.
  - by rewrite append_empty_r.
  - simpl in Hseg. apply andb_prop in Hseg as [Hc Hseg].
    simpl. destruct (Ascii.eqb c "/"); [done |].
    rewrite IH by done. by rewrite append_snoc.
Qed.

Lemma splitTopic_level (seg : string) :
  spec.isLevel seg = true → seg ≠ "" → splitTopic seg = [seg].
Proof.
  intros Hseg Hne. unfold splitTopic.
  destruct (String.eqb seg "") eqn:E; [by apply String.eqb_eq in E |].
  rewrite splitTopic_loop_last by done. by rewrite append_nil_l, E.
Qed.

(** X13.  [splitTopic] undoes joining levels by ['/'], up to one case: an
    empty last level is dropped.  Levels none of which is an empty last
    one come back as they are, empty first and inner levels included; with
    one more, empty, level at the end the result is the same. *)
Theorem splitTopic_joinLevels (levels : list string) :
  Forall (λ l, spec.isLevel l = true) levels →
  (last levels ≠ Some "" → splitTopic (spec.joinLevels levels) = levels) ∧
  splitTopic (spec.joinLevels (levels ++ [""])) = levels.
Proof.
  induction levels as [|l levels IH]; intros Hlevels; [done |].
  apply Forall_cons in Hlevels as [Hl Hlevels].
  destruct (IH Hlevels) as [IH1 IH2].
  destruct levels as [|l2 levels].
  - split.
    + intros Hlast. apply splitTopic_level; [done |]. by intros ->.
    + cbn [app spec.joinLevels]. by rewrite splitTopic_cons_level.
  - split.
    + intros Hlast. cbn [spec.joinLevels].
      rewrite splitTopic_cons_level by done. f_equal. by apply IH1.
    + change (spec.joinLevels ((l :: l2 :: levels) ++ [""]))
        with (l +:+ String "/" (spec.joinLevels ((l2 :: levels) ++ [""]))).
      rewrite splitTopic_cons_level by done. by f_equal.
Qed.

Lemma splitTopic_joinLevels_witness :
  splitTopic (spec.joinLevels [""; "a"; ""; "b"]) = [""; "a"; ""; "b"].
Proof.
  refine (proj1 (splitTopic_joinLevels [""; "a"; ""; "b"] _) _).
  - repeat constructor.
  - discriminate.
Defined.

Lemma eqb_plain (l : string) :
  l ≠ "#" ∧ l ≠ "+" → String.eqb l "#" = false ∧ String.eqb l "+" = false.
Proof. intros [H1 H2]. by rewrite !String.eqb_neq. Qed.

Lemma matchLevels_plain (subLevels : list string) :
  spec.plain subLevels →
  ∀ pubLevels, matchLevels subLevels pubLevels = true ↔ subLevels = pubLevels.
Proof.
  induction 1 as [|l subLevels Hl Hplain IH]; intros pubLevels.
  - by destruct pubLevels.
  - apply eqb_plain in Hl as [Hhash Hplus].
    destruct pubLevels as [|p pubLevels]; simpl; rewrite Hhash; [done |].
    rewrite Hplus. destruct (String.eqb_spec l p) as [->|Hne].
    + rewrite IH. split; [by intros -> | by intros [= ->]].
    + split; [done | by intros [= -> _]].
Qed.

(** X14.  A filter without wildcards matches exactly the topics that split
    into the same levels as the filter: the same string, and also the
    strings that differ from it by an empty last level. *)
Theorem topicMatch_plain (filter topic : string) :
  spec.plain (splitTopic filter) →
  topicMatch filter topic = true ↔ splitTopic filter = splitTopic topic.
Proof.
  intros Hplain. rewrite topicMatch_levels. by apply matchLevels_plain.
Qed.

Lemma topicMatch_plain_witness :
  topicMatch "a/b" "a/b/" = true ↔ splitTopic "a/b" = splitTopic "a/b/".
Proof.
  apply (topicMatch_plain "a/b" "a/b/").
  repeat constructor; discriminate.
Defined.

Lemma matchLevels_hash_prefix (pre : list string) :
  spec.plain pre →
  ∀ rest pubLevels,
    matchLevels (pre ++ "#" :: rest) pubLevels = true ↔ pre `prefix_of` pubLevels.
Proof.
  induction 1 as [|l pre Hl Hplain IH]; intros rest pubLevels.
  - rewrite app_nil_l, matchLevels_hash. split; [intros _; apply prefix_nil | done].
  - apply eqb_plain in Hl as [Hhash Hplus].
    destruct pubLevels as [|p pubLevels]; cbn [app matchLevels]; rewrite Hhash.
    + split; [done |]. intros [k Hk]. discriminate.
    + rewrite Hplus. destruct (String.eqb_spec l p) as [->|Hne].
      * rewrite IH. split; [apply prefix_cons | apply prefix_cons_inv_2].
      * split; [done |]. intros Hpre. by apply prefix_cons_inv_1 in Hpre.
Qed.

(** X15.  The multi-level wildcard.  A filter whose levels are wildcard-free
    levels followed by ['#'] matches exactly the topics whose levels start
    with those levels: the parent topic itself is one of them, and whatever
    levels the filter has after the ['#'] play no part. *)
Theorem topicMatch_hash_prefix (filter topic : string) (pre rest : list string) :
  splitTopic filter = pre ++ "#" :: rest →
  spec.plain pre →
  topicMatch filter topic = true ↔ pre `prefix_of` splitTopic topic.
Proof.
  intros Hsplit Hplain. rewrite topicMatch_levels, Hsplit.
  by apply matchLevels_hash_prefix.
Qed.

Lemma topicMatch_hash_prefix_witness :
  topicMatch "a/#/b" "a" = true ↔ ["a"] `prefix_of` splitTopic "a".
Proof.
  apply (topicMatch_hash_prefix "a/#/b" "a" ["a"] ["b"]).
  - reflexivity.
  - repeat constructor; discriminate.
Defined.

End Topics.

(* ===================================================================== *)
(** * More on the configuration                                           *)
(* ===================================================================== *)

Section Defaults.

Import config.

Lemma orInt_orInt (x d : Z) : d ≠ 0 → orInt (orInt x d) d = orInt x d.
Proof.
  intros Hd. unfold orInt. destruct (Z.eqb_spec x 0) as [->|Hx].
  - by destruct (Z.eqb_spec d 0).
  - by destruct (Z.eqb_spec x 0).
Qed.

Lemma orString_orString (s d : string) :
  d ≠ "" → orString (orString s d) d = orString s d.
Proof.
  intros Hd. unfold orString. destruct (String.eqb_spec s "") as [->|Hs].
  - by destruct (String.eqb_spec d "").
  - by destruct (String.eqb_spec s "").
Qed.

Lemma orInt_nonzero (x d : Z) : d ≠ 0 → orInt x d ≠ 0.
Proof. intros Hd. unfold orInt. by destruct (Z.eqb_spec x 0). Qed.

Lemma orString_nonempty (s d : string) : d ≠ "" → orString s d ≠ "".
Proof. intros Hd. unfold orString. by destruct (String.eqb_spec s ""). Qed.

Lemma setDefaults_setDefaults (c : Config) :
  setDefaults (setDefaults c) = setDefaults c.
Proof.
  unfold setDefaults; simpl.
  rewrite !orInt_orInt by (unfold Second; lia).
  by rewrite !orString_orString by done.
Qed.

(** X16.  [setDefaults] fills in a configuration once and for all: applied
    to its own result it changes nothing, and in its result no field that
    has a default is left at zero or empty. *)
Theorem setDefaults_idempotent (c : Config) :
  setDefaults (setDefaults c) = setDefaults c ∧
  Host (Server (setDefaults c)) ≠ "" ∧
  Port (Server (setDefaults c)) ≠ 0 ∧
  Backend (Storage (setDefaults c)) ≠ "" ∧
  MaxQoS (QoS (setDefaults c)) ≠ 0 ∧
  Level (Logging (setDefaults c)) ≠ "" ∧
  Metrics_Port (Metrics (setDefaults c)) ≠ 0.
Proof.
  split; [apply setDefaults_setDefaults |].
  simpl. repeat split;
    (by apply orString_nonempty) || (by apply orInt_nonzero).
Qed.

(** X17.  What [Load] can return.  A loaded configuration has a server
    port in [1, 65535], a storage backend and a log level from the valid
    sets, and a maximum QoS of 1 or 2: a file that asks for [max_qos: 0]
    is loaded with 1, as is a file that leaves it out.  Defaulting again
    would change nothing. *)
Theorem Load_defaults
    (os_ReadFile : string → option (list Z))
    (yaml_Unmarshal : list Z → option Config) (path : string) (cfg : Config) :
  (∀ data c, yaml_Unmarshal data = Some c → 0 ≤ MaxQoS (QoS c) < 256) →
  Load os_ReadFile yaml_Unmarshal path = inr cfg →
  1 ≤ Port (Server cfg) ≤ 65535 ∧
  1 ≤ MaxQoS (QoS cfg) ≤ 2 ∧
  Backend (Storage cfg) ∈ ["memory"; "bbolt"; "redis"] ∧
  Level (Logging cfg) ∈ ["debug"; "info"; "warn"; "error"] ∧
  setDefaults cfg = cfg.
Proof.
  intros Hbyte. unfold Load.
  destruct (os_ReadFile path) as [data|]; [| done].
  destruct (yaml_Unmarshal data) as [c|] eqn:Eparse; [| done].
  destruct (Validate (setDefaults c)) as [e|] eqn:Ev; [done |].
  intros [= <-]. apply Validate_accepts in Ev as [(Hport & _ & Hb & Hq & Hl & _) _].
  specialize (Hbyte data c Eparse).
  repeat split; try done; try lia; [| apply setDefaults_setDefaults].
  cbn [setDefaults QoS MaxQoS] in *. unfold orInt in *.
  destruct (Z.eqb_spec (MaxQoS (QoS c)) 0); lia.
Qed.

Lemma Load_defaults_witness :
  1 ≤ MaxQoS (QoS (setDefaults scenario.zeroConfig)) ≤ 2.
Proof.
  refine (proj1 (proj2 (Load_defaults (λ _, Some []) (λ _, Some scenario.zeroConfig)
                          "config/config.yaml" (setDefaults scenario.zeroConfig)
                          _ _))).
  - intros data c [= <-]. simpl. lia.
  - reflexivity.
Defined.

End Defaults.

(* ===================================================================== *)
(** * More on the broker                                                  *)
(* ===================================================================== *)

Section Handlers.

Import server.

(** ** PUBLISH *)



End Handlers.

Section Sessions.

Import server.

(** ** UNSUBSCRIBE *)

Lemma foldl_delete_lookup (topics : list string) :
  ∀ (subs : gmap string Z) (filter : string),
    foldl (λ m topic, delete topic m) subs topics !! filter
    = if decide (filter ∈ topics) then None else subs !! filter.
Proof.
  induction topics as [|topic topics IH]; intros subs filter; cbn [foldl].
  - by rewrite decide_False by apply not_elem_of_nil.
  - rewrite IH. destruct (decide (filter ∈ topics)) as [Hin|Hout].
    + by rewrite decide_True by (by right).
    + destruct (decide (filter = topic)) as [->|Hne].
      * rewrite decide_True by left. apply lookup_delete_eq.
      * rewrite decide_False by (by intros [?|?]%elem_of_cons).
        by apply lookup_delete_ne.
Qed.

(** What [handleUnsubscribe] does for an UNSUBSCRIBE that decodes. *)
Lemma handleUnsubscribe_emit (client : nat) (data : list Z) (st : State)
    (unsubscribePkt : mqtt.UnsubscribePacket) (rest : list Z) :
  mqtt.DecodeUnsubscribePacket (Z.of_nat (length data)) data
  = mqtt.Ok (unsubscribePkt, rest) →
  let c := deref (heap st) client in
  handleUnsubscribe client data st
  = Done tt
      (spec.emit
         (spec.written st (Conn c)
            (spec.unsubackFrame (mqtt.Unsubscribe_PacketID unsubscribePkt)))
         (spec.withSubscriptions client
            (foldl (λ m topic, delete topic m) (Subscriptions c)
                   (mqtt.Unsubscribe_Topics unsubscribePkt)) st)).
Proof.
  intros Hdec c. unfold handleUnsubscribe. rewrite Hdec.
  unfold go_bind, load, setSubscriptions, go_ret; simpl.
  by rewrite conn_Write_emit.
Qed.

(** X19.  What [handleUnsubscribe] does.  For an UNSUBSCRIBE that decodes,
    the filters it lists are removed from the subscriptions of the session
    and the others stay; the UNSUBACK with the packet identifier of the
    request is the one thing written, and it is written whether or not
    any listed filter was subscribed.  The registry, the retained store
    and the other sessions are not touched. *)
Theorem handleUnsubscribe_removes (client : nat) (data : list Z) (st : State)
    (unsubscribePkt : mqtt.UnsubscribePacket) (rest : list Z) :
  mqtt.DecodeUnsubscribePacket (Z.of_nat (length data)) data
  = mqtt.Ok (unsubscribePkt, rest) →
  (client < length (heap st))%nat →
  let c := deref (heap st) client in
  let topics := mqtt.Unsubscribe_Topics unsubscribePkt in
  ∃ st',
    handleUnsubscribe client data st = Done tt st' ∧
    mqtt.UnsubackPacket_Encode
      {| mqtt.Unsuback_PacketID := mqtt.Unsubscribe_PacketID unsubscribePkt |}
    = mqtt.Ok (spec.unsubackFrame (mqtt.Unsubscribe_PacketID unsubscribePkt)) ∧
    trace st'
    = trace st
      ++ spec.written st (Conn c)
           (spec.unsubackFrame (mqtt.Unsubscribe_PacketID unsubscribePkt)) ∧
    (∀ filter,
       Subscriptions (deref (heap st') client) !! filter
       = if decide (filter ∈ topics) then None else Subscriptions c !! filter) ∧
    ID (deref (heap st') client) = ID c ∧
    Conn (deref (heap st') client) = Conn c ∧
    (∀ other, other ≠ client → heap st' !! other = heap st !! other) ∧
    clients st' = clients st ∧
    retainedMsgs st' = retainedMsgs st ∧
    closed st' = closed st.
Proof.
  intros Hdec Hlt c topics. eexists.
  split; [exact (handleUnsubscribe_emit client data st unsubscribePkt rest Hdec) |].
  split; [reflexivity |]. split; [reflexivity |].
  cbn [spec.emit heap clients retainedMsgs closed].
  split; [| split; [| split; [| split; [| done]]]].
  - intros filter. rewrite Subscriptions_withSubscriptions by done.
    apply foldl_delete_lookup.
  - unfold spec.withSubscriptions, deref; cbn [heap].
    by rewrite list_lookup_insert_eq.
  - apply Conn_withSubscriptions.
  - intros other Hne. unfold spec.withSubscriptions; cbn [heap].
    by rewrite list_lookup_insert_ne.
Qed.

Lemma handleUnsubscribe_removes_witness :
  ∃ st',
    handleUnsubscribe 0 (spec.unsubscribeBody 9 ["a/b"; "x"]) scenario.mixedQoS
    = Done tt st' ∧
    trace st' = trace scenario.mixedQoS
                ++ spec.written scenario.mixedQoS 1 (spec.unsubackFrame 9) ∧
    Subscriptions (deref (heap st') 0) !! "a/b" = None ∧
    Subscriptions (deref (heap st') 0) !! "a/#" = Some 0.
Proof.
  destruct (handleUnsubscribe_removes 0 (spec.unsubscribeBody 9 ["a/b"; "x"])
              scenario.mixedQoS (mqtt.mkUnsubscribePacket 9 ["a/b"; "x"]) [])
    as (st' & Hrun & _ & Htrace & Hsubs & _).
  - reflexivity.
  - vm_compute. lia.
  - exists st'. split; [exact Hrun |]. split; [exact Htrace |].
    split; [exact (Hsubs "a/b") | exact (Hsubs "a/#")].
Defined.

(** ** Retained messages on SUBSCRIBE *)

Lemma firstSubMatch_Some (topics : list mqtt.Subscription) (topic : string)
    (sub : mqtt.Subscription) :
  firstSubMatch topics topic = Some sub → spec.firstRequest topics topic sub.
Proof.
  induction topics as [|sub0 topics IH]; simpl; [done |].
  destruct (topicMatch (mqtt.Sub_Topic sub0) topic) eqn:E.
  - intros [= ->]. exists 0%nat. split; [done |]. split; [done |]. lia.
  - intros H. destruct (IH H) as (i & Hi & Hm & Hfirst).
    exists (S i). split; [done |]. split; [done |].
    intros [|j] sub' Hj Hsub'; simpl in Hsub'; [by simplify_eq |].
    apply (Hfirst j); [lia | done].
Qed.

Lemma firstSubMatch_None (topics : list mqtt.Subscription) (topic : string) :
  firstSubMatch topics topic = None →
  ∀ sub, sub ∈ topics → topicMatch (mqtt.Sub_Topic sub) topic = false.
Proof.
  induction topics as [|sub0 topics IH]; simpl; intros H sub Hin.
  - by apply elem_of_nil in Hin.
  - destruct (topicMatch (mqtt.Sub_Topic sub0) topic) eqn:E; [done |].
    apply elem_of_cons in Hin as [->|Hin]; [done | by apply IH].
Qed.



End Sessions.

Section Connections.

Import server.

(** ** The broker only grows *)

Lemma grows_refl (st : State) : spec.grows st st.
Proof. repeat split; [done | by eauto | done | done]. Qed.

Lemma grows_trans (st1 st2 st3 : State) :
  spec.grows st1 st2 → spec.grows st2 st3 → spec.grows st1 st3.
Proof.
  intros (Hc1 & Hh1 & Hs1 & Ht1) (Hc2 & Hh2 & Hs2 & Ht2).
  split; [by auto |]. split; [| split; [set_solver | by etrans]].
  intros p c Hp. destruct (Hh1 p c Hp) as (c' & Hp' & Hid & Hconn).
  destruct (Hh2 p c' Hp') as (c'' & Hp'' & Hid' & Hconn').
  exists c''. split; [done |]. split; congruence.
Qed.

Lemma step_refl (st : State) : spec.step st st.
Proof. split; [apply grows_refl | done]. Qed.

Lemma step_trans (st1 st2 st3 : State) :
  spec.step st1 st2 → spec.step st2 st3 → spec.step st1 st3.
Proof.
  intros [Hg1 Hr1] [Hg2 Hr2]. split; [by eapply grows_trans | by auto].
Qed.

Lemma step_emit (evs : list Event) (st : State) : spec.step st (spec.emit evs st).
Proof.
  split; [| done].
  split; [done |]. split; [by eauto |]. split; [done | by exists evs].
Qed.

Lemma step_withRetained (m : option (gmap string mqtt.PublishPacket)) (st : State) :
  spec.step st (spec.withRetained m st).
Proof. split; [| done]. repeat split; [done | by eauto | done | done]. Qed.

Lemma step_withSubscriptions (client : nat) (subs : gmap string Z) (st : State) :
  spec.step st (spec.withSubscriptions client subs st).
Proof.
  assert (∀ p c, heap st !! p = Some c →
            ∃ c', heap (spec.withSubscriptions client subs st) !! p = Some c' ∧
                  ID c' = ID c ∧ Conn c' = Conn c) as Hheap.
  { intros p c Hp. cbn [spec.withSubscriptions heap].
    destruct (decide (p = client)) as [->|Hne].
    - rewrite list_lookup_insert_eq by (by eapply lookup_lt_Some).
      eexists. split; [done |]. unfold deref. by rewrite Hp.
    - rewrite list_lookup_insert_ne by done. by eauto. }
  split.
  - split; [done |]. split; [done |]. done.
  - intros Hreg id p Hid. destruct (Hreg id p Hid) as [Hlt <-].
    cbn [spec.withSubscriptions heap clients] in *.
    rewrite length_insert. split; [done |].
    destruct (lookup_lt_is_Some_2 (heap st) p Hlt) as [c Hp].
    destruct (Hheap p c Hp) as (c' & Hp' & Hid' & _).
    cbn [spec.withSubscriptions heap] in Hp'.
    unfold deref in *. by rewrite Hp', Hp.
Qed.

Lemma step_close (conn : nat) (st : State) :
  spec.step st (spec.final (conn_Close conn st)).
Proof.
  split; [| done].
  split; [done |]. split; [by eauto |].
  split; [cbn; set_solver | by eexists].
Qed.

Lemma final_bind {A B} (m : Go A) (k : A → Go B) (st : State) :
  (∀ a st', spec.final (k a st') = st') →
  spec.final (go_bind m k st) = spec.final (m st).
Proof. intros Hk. unfold go_bind. destruct (m st); [apply Hk | done]. Qed.

Lemma handleConnect_step (conn : nat) (reader : list Z) (remainingLen : Z)
    (st : State) :
  spec.step st (spec.final (handleConnect conn reader remainingLen st)).
Proof.
  unfold handleConnect.
  destruct (mqtt.DecodeConnectPacket remainingLen reader) as [[pkt rest]|].
  - unfold go_bind, alloc, storeClient, go_ret; simpl.
    rewrite conn_Write_emit. cbn [spec.final].
    eapply step_trans; [| apply step_emit].
    split.
    + split; [| split; [| done]]; cbn.
      * intros id Hid. rewrite lookup_insert_is_Some'. by right.
      * intros p c Hp. exists c. split; [| done].
        by apply lookup_app_l_Some.
    + intros Hreg id p. cbn. rewrite length_app. cbn [length].
      intros [[<- <-]|[Hne Hid]]%lookup_insert_Some.
      * split; [lia |]. unfold deref. by rewrite list_lookup_middle.
      * destruct (Hreg id p Hid) as [Hlt <-]. split; [lia |].
        unfold deref. by rewrite lookup_app_l.
  - unfold go_bind, go_ret. apply step_close.
Qed.

Lemma handlePublish_step (rt : GoRuntime) (client : nat)
    (header : mqtt.FixedHeader) (data : list Z) (st : State) :
  spec.step st (spec.final (handlePublish rt client header data st)).
Proof.
  destruct (mqtt.DecodePublishPacket header data) as [[publishPkt rest]|] eqn:Hdec;
    [| unfold handlePublish; rewrite Hdec; apply step_refl].
  destruct (decide (is_Some (retainedMsgs st) ∨ mqtt.Retain publishPkt = false
                    ∨ mqtt.Payload publishPkt = [])) as [Hok|Hnil].
  - destruct (handlePublish_emit rt client header data st publishPkt rest Hdec Hok)
      as [evs ->].
    eapply step_trans; [apply step_withRetained | apply step_emit].
  - rewrite (handlePublish_nil_map rt client header data st publishPkt rest);
      [apply step_refl | done | | |].
    + destruct (mqtt.Retain publishPkt); [done | tauto].
    + tauto.
    + destruct (retainedMsgs st); [| done]. destruct Hnil. left. by eexists.
Qed.

Lemma handleSubscribe_step (rt : GoRuntime) (client conn : nat) (data : list Z)
    (st : State) :
  spec.step st (spec.final (handleSubscribe rt client conn data st)).
Proof.
  destruct (mqtt.DecodeSubscribePacket (Z.of_nat (length data)) data)
    as [[subscribePkt rest]|] eqn:Hdec.
  - rewrite (handleSubscribe_emit rt client conn data st subscribePkt rest Hdec).
    eapply step_trans; [apply step_withSubscriptions | apply step_emit].
  - unfold handleSubscribe. rewrite Hdec. apply step_refl.
Qed.

Lemma handleUnsubscribe_step (client : nat) (data : list Z) (st : State) :
  spec.step st (spec.final (handleUnsubscribe client data st)).
Proof.
  destruct (mqtt.DecodeUnsubscribePacket (Z.of_nat (length data)) data)
    as [[unsubscribePkt rest]|] eqn:Hdec.
  - rewrite (handleUnsubscribe_emit client data st unsubscribePkt rest Hdec).
    eapply step_trans; [apply step_withSubscriptions | apply step_emit].
  - unfold handleUnsubscribe. rewrite Hdec. apply step_refl.
Qed.

Lemma handlePingreq_step (conn : nat) (st : State) :
  spec.step st (spec.final (handlePingreq conn st)).
Proof.
  unfold handlePingreq, go_bind, go_ret; simpl.
  rewrite conn_Write_emit. apply step_emit.
Qed.

Lemma handlePacket_step (rt : GoRuntime) (conn : nat) (client : option nat)
    (reader : list Z) (st : State) :
  spec.step st (spec.final (handlePacket rt conn client reader st)).
Proof.
  unfold handlePacket.
  destruct (mqtt.ReadFixedHeader reader) as [[header r1]|]; [| apply step_refl].
  destruct (mqtt.ReadFull _ r1) as [[data r2]|]; [| apply step_refl].
  destruct (_ =? mqtt.CONNECT).
  { rewrite final_bind; [apply handleConnect_step | by intros []]. }
  destruct (_ =? mqtt.PUBLISH).
  { destruct client as [c|]; [| apply step_refl].
    rewrite final_bind; [apply handlePublish_step | done]. }
  destruct (_ =? mqtt.SUBSCRIBE).
  { destruct client as [c|]; [| apply step_refl].
    rewrite final_bind; [apply handleSubscribe_step | done]. }
  destruct (_ =? mqtt.UNSUBSCRIBE).
  { destruct client as [c|]; [| apply step_refl].
    rewrite final_bind; [apply handleUnsubscribe_step | done]. }
  destruct (_ =? mqtt.PINGREQ).
  { rewrite final_bind; [apply handlePingreq_step | done]. }
  destruct (_ =? mqtt.DISCONNECT); [destruct client |]; apply step_refl.
Qed.

Lemma connectionLoop_step (rt : GoRuntime) (conn : nat) (fuel : nat) :
  ∀ client reader st,
    spec.step st (spec.final (connectionLoop rt fuel conn client reader st)).
Proof.
  induction fuel as [|fuel IH]; intros client reader st; [apply step_refl |].
  cbn [connectionLoop]. unfold go_bind.
  pose proof (handlePacket_step rt conn client reader st) as Hstep.
  destruct (handlePacket rt conn client reader st) as [[c' r'|] st1|msg st1];
    cbn [spec.final] in *; [| done | done].
  eapply step_trans; [done | apply IH].
Qed.

Lemma final_with_defer_close {A} (conn : nat) (m : Go A) (st : State) :
  spec.final (with_defer (conn_Close conn) m st)
  = spec.final (conn_Close conn (spec.final (m st))).
Proof. unfold with_defer. by destruct (m st). Qed.


(** ** Connections that end without an answer *)

Lemma handleConnection_return (rt : GoRuntime) (conn : nat) (input : list Z)
    (st st1 : State) :
  handlePacket rt conn None input st = Done Return st1 →
  handleConnection rt conn input st
  = Done true (spec.final (conn_Close conn st1)).
Proof.
  intros Hp. unfold handleConnection, with_defer. cbn [connectionLoop].
  unfold go_bind. by rewrite Hp.
Qed.

(** X22.  PUBLISH, SUBSCRIBE and UNSUBSCRIBE before CONNECT.  When the
    first packet of a connection is one of these, the handler returns at
    once: nothing is written, nothing is registered, and the socket is
    closed. *)
Theorem handleConnection_guarded (rt : GoRuntime) (conn : nat) (input : list Z)
    (st : State) (header : mqtt.FixedHeader) (r1 data r2 : list Z) :
  mqtt.ReadFixedHeader input = mqtt.Ok (header, r1) →
  mqtt.ReadFull (mqtt.RemainingLen header) r1 = mqtt.Ok (data, r2) →
  mqtt.PacketType header ∈ [mqtt.PUBLISH; mqtt.SUBSCRIBE; mqtt.UNSUBSCRIBE] →
  handleConnection rt conn input st
  = Done true
      {| clients := clients st; retainedMsgs := retainedMsgs st;
         heap := heap st; closed := {[conn]} ∪ closed st;
         trace := trace st ++ [EvClose conn] |}.
Proof.
  intros Hh Hd Ht.
  by rewrite (handleConnection_return rt conn input st st)
    by (by eapply handlePacket_guarded).
Qed.

Lemma handleConnection_guarded_witness :
  handleConnection scenario.runtime 3 (0x82 :: 6 :: scenario.subscribeA2)
                   NewWithConfig
  = Done true
      {| clients := ∅; retainedMsgs := Some ∅; heap := [];
         closed := {[3%nat]} ∪ ∅; trace := [] ++ [EvClose 3] |}.
Proof.
  apply (handleConnection_guarded scenario.runtime 3
           (0x82 :: 6 :: scenario.subscribeA2) NewWithConfig
           (mqtt.mkFixedHeader mqtt.SUBSCRIBE 2 6)
           scenario.subscribeA2 scenario.subscribeA2 []).
  - reflexivity.
  - reflexivity.
  - set_solver.
Defined.

(** X23.  Input that stops short.  When the peer closes, or sends a
    malformed length, before a whole packet has arrived, the loop returns
    without handling anything, whether or not a session exists; on a
    fresh connection the socket is then closed and that is all. *)
Theorem handlePacket_truncated (rt : GoRuntime) (conn : nat) (client : option nat)
    (input : list Z) (st : State) :
  (∃ e, mqtt.ReadFixedHeader input = mqtt.Err e) ∨
  (∃ header r1 e, mqtt.ReadFixedHeader input = mqtt.Ok (header, r1) ∧
                  mqtt.ReadFull (mqtt.RemainingLen header) r1 = mqtt.Err e) →
  handlePacket rt conn client input st = Done Return st ∧
  handleConnection rt conn input st
  = Done true
      {| clients := clients st; retainedMsgs := retainedMsgs st;
         heap := heap st; closed := {[conn]} ∪ closed st;
         trace := trace st ++ [EvClose conn] |}.
Proof.
  intros Hshort.
  assert (∀ client, handlePacket rt conn client input st = Done Return st) as Hp.
  { intros client'. unfold handlePacket.
    destruct Hshort as [[e ->]|(header & r1 & e & -> & ->)]; reflexivity. }
  split; [apply Hp |].
  by rewrite (handleConnection_return rt conn input st st) by apply Hp.
Qed.

Lemma handlePacket_truncated_witness :
  handlePacket scenario.runtime 3 (Some 0%nat) [0x30; 5; 0; 1] scenario.mixedQoS
  = Done Return scenario.mixedQoS.
Proof.
  refine (proj1 (handlePacket_truncated scenario.runtime 3 (Some 0%nat)
                   [0x30; 5; 0; 1] scenario.mixedQoS _)).
  right. exists (mqtt.mkFixedHeader mqtt.PUBLISH 0 5), [0; 1], mqtt.ErrUnexpectedEOF.
  split; reflexivity.
Defined.

(** X24.  A CONNECT that does not decode.  [handleConnect] closes the
    socket and returns no session; the loop returns and the deferred
    close runs too, so the socket is closed twice.  No CONNACK is written
    and nothing is registered. *)
Theorem handleConnection_malformed_connect (rt : GoRuntime) (conn : nat)
    (input : list Z) (st : State) (header : mqtt.FixedHeader)
    (r1 data r2 : list Z) (e : mqtt.error) :
  mqtt.ReadFixedHeader input = mqtt.Ok (header, r1) →
  mqtt.ReadFull (mqtt.RemainingLen header) r1 = mqtt.Ok (data, r2) →
  mqtt.PacketType header = mqtt.CONNECT →
  mqtt.DecodeConnectPacket (mqtt.RemainingLen header) data = mqtt.Err e →
  handleConnection rt conn input st
  = Done true
      {| clients := clients st; retainedMsgs := retainedMsgs st;
         heap := heap st; closed := {[conn]} ∪ ({[conn]} ∪ closed st);
         trace := trace st ++ [EvClose conn; EvClose conn] |}.
Proof.
  intros Hh Hd Ht Hdec.
  rewrite (handleConnection_return rt conn input st
             (spec.final (conn_Close conn st))).
  - cbn. by rewrite <- app_assoc.
  - unfold handlePacket. rewrite Hh, Hd, Ht. cbn [Z.eqb Pos.eqb].
    unfold handleConnect. rewrite Hdec. reflexivity.
Qed.

Lemma handleConnection_malformed_connect_witness :
  handleConnection scenario.runtime 3 [0x10; 2; 0; 4] NewWithConfig
  = Done true
      {| clients := ∅; retainedMsgs := Some ∅; heap := [];
         closed := {[3%nat]} ∪ ({[3%nat]} ∪ ∅);
         trace := [] ++ [EvClose 3; EvClose 3] |}.
Proof.
  apply (handleConnection_malformed_connect scenario.runtime 3 [0x10; 2; 0; 4]
           NewWithConfig (mqtt.mkFixedHeader mqtt.CONNECT 0 2) [0; 4] [0; 4] []
           (mqtt.Wrapped "failed to read protocol name" mqtt.EOF));
    reflexivity.
Defined.

(** X25.  A packet body that does not decode.  When a connected client
    sends a PUBLISH, SUBSCRIBE or UNSUBSCRIBE whose body the decoder
    rejects, the packet is dropped: nothing is written, no acknowledgement
    either, the state is unchanged, and the loop goes on with the next
    packet. *)
Theorem handlePacket_undecodable (rt : GoRuntime) (conn client : nat)
    (input : list Z) (st : State) (header : mqtt.FixedHeader)
    (r1 data r2 : list Z) :
  mqtt.ReadFixedHeader input = mqtt.Ok (header, r1) →
  mqtt.ReadFull (mqtt.RemainingLen header) r1 = mqtt.Ok (data, r2) →
  (mqtt.PacketType header = mqtt.PUBLISH ∧
   ∃ e, mqtt.DecodePublishPacket header data = mqtt.Err e) ∨
  (mqtt.PacketType header = mqtt.SUBSCRIBE ∧
   ∃ e, mqtt.DecodeSubscribePacket (Z.of_nat (length data)) data = mqtt.Err e) ∨
  (mqtt.PacketType header = mqtt.UNSUBSCRIBE ∧
   ∃ e, mqtt.DecodeUnsubscribePacket (Z.of_nat (length data)) data = mqtt.Err e) →
  handlePacket rt conn (Some client) input st
  = Done (Continue (Some client) r2) st.
Proof.
  intros Hh Hd Hcase. unfold handlePacket. rewrite Hh, Hd.
  destruct Hcase as [[-> [e He]]|[[-> [e He]]|[-> [e He]]]]; cbn [Z.eqb Pos.eqb].
  - unfold go_bind, handlePublish. by rewrite He.
  - unfold go_bind, handleSubscribe. by rewrite He.
  - unfold go_bind, handleUnsubscribe. by rewrite He.
Qed.

Lemma handlePacket_undecodable_witness :
  handlePacket scenario.runtime 1 (Some 0%nat) [0x82; 3; 0; 1; 0; 0xC0; 0]
               scenario.mixedQoS
  = Done (Continue (Some 0%nat) [0xC0; 0]) scenario.mixedQoS.
Proof.
  apply (handlePacket_undecodable scenario.runtime 1 0 [0x82; 3; 0; 1; 0; 0xC0; 0]
           scenario.mixedQoS (mqtt.mkFixedHeader mqtt.SUBSCRIBE 2 3)
           [0; 1; 0; 0xC0; 0] [0; 1; 0]).
  - reflexivity.
  - reflexivity.
  - right. left. split; [reflexivity |].
    exists (mqtt.Wrapped "failed to read topic filter" mqtt.ErrUnexpectedEOF).
    reflexivity.
Defined.

(** ** A broker made by [New] *)



End Connections.

Section Shutdown.

Import server.

(** The loop of [Stop] over a list of registry entries. *)
Lemma closeAll_emit (entries : list (string * nat)) :
  ∀ st, ∃ st',
    forEach entries (λ entry, do* c := load entry.2 in conn_Close (Conn c)) st
    = Done tt st' ∧
    clients st' = clients st ∧ retainedMsgs st' = retainedMsgs st ∧
    heap st' = heap st ∧
    trace st'
    = trace st ++ ((λ entry, EvClose (Conn (deref (heap st) entry.2))) <$> entries) ∧
    ∀ conn, conn ∈ closed st' ↔
            conn ∈ closed st ∨
            ∃ entry, entry ∈ entries ∧ Conn (deref (heap st) entry.2) = conn.
Proof.
  induction entries as [|entry entries IH]; intros st.
  - exists st. cbn. rewrite app_nil_r. repeat split; try done.
    + by left.
    + intros [?|(? & []%elem_of_nil & _)]. done.
  - cbn [forEach]. unfold go_bind at 1.
    set (st1 := spec.final (conn_Close (Conn (deref (heap st) entry.2)) st)).
    change (go_bind (load entry.2) (λ c, conn_Close (Conn c)) st)
      with (Done tt st1).
    destruct (IH st1) as (st' & -> & Hc & Hr & Hh & Ht & Hclosed).
    exists st'. split; [done |]. split; [done |]. split; [done |].
    split; [done |]. split.
    + rewrite Ht. cbn. by rewrite <- app_assoc.
    + intros conn. rewrite Hclosed. cbn.
      rewrite elem_of_union, elem_of_singleton. split.
      * intros [[->|?]|(e & He & <-)]; [right | by left | right].
        -- exists entry. split; [left | done].
        -- exists e. split; [by right | done].
      * intros [?|(e & [->|He]%elem_of_cons & <-)]; [by auto | by auto |].
        right. by exists e.
Qed.

(** X27.  What [Stop] closes.  On a running server whose listener closes
    without error, [Stop] goes once through the registry and closes the
    socket of every registered session, one close per entry and nothing
    written before it; the server is then marked as stopped.  The sockets
    closed are those of the registered sessions and no others: a
    connection that has not sent its CONNECT, or whose session another
    CONNECT has replaced in the registry, keeps its socket open.  The
    registry itself is left as it is. *)
Theorem Stop_closes_sessions (rt : GoRuntime) (listener_Close : option mqtt.error)
    (ctl : Control) (st : State) :
  valid rt →
  running ctl = true →
  listener ctl = None ∨ listener_Close = None →
  ∃ conns st',
    Stop rt listener_Close ctl st
    = Done ({| running := false; listener := listener ctl |}, None) st' ∧
    conns ≡ₚ (λ entry, Conn (deref (heap st) entry.2)) <$> map_to_list (clients st) ∧
    trace st' = trace st ++ (EvClose <$> conns) ∧
    (∀ conn, conn ∈ closed st' ↔
             conn ∈ closed st ∨
             ∃ id p, clients st !! id = Some p ∧ Conn (deref (heap st) p) = conn) ∧
    clients st' = clients st ∧ heap st' = heap st ∧
    retainedMsgs st' = retainedMsgs st.
Proof.
  intros (Hclients & _ & _) Hrun Hlistener.
  destruct (closeAll_emit (range_clients rt (clients st)) st)
    as (st' & Hloop & Hc & Hr & Hh & Ht & Hclosed).
  exists ((λ entry, Conn (deref (heap st) entry.2)) <$> range_clients rt (clients st)),
         st'.
  split; [| split; [by rewrite Hclients | split; [| split; [| done]]]].
  - unfold Stop. rewrite Hrun. cbn [negb listener].
    assert (∀ k : Go (Control * option mqtt.error),
              match listener ctl, listener_Close with
              | Some _, Some err =>
                  go_ret ({| running := false; listener := listener ctl |},
                          Some (mqtt.Wrapped "error closing listener" err))
              | _, _ => k
              end = k) as ->.
    { intros k. destruct Hlistener as [-> | ->]; [done | by destruct (listener ctl)]. }
    unfold go_bind at 1. by rewrite Hloop.
  - by rewrite Ht, <- list_fmap_compose.
  - intros conn. rewrite Hclosed. split.
    + intros [?|([id p] & Hin & <-)]; [by left |]. right.
      exists id, p. split; [| done].
      rewrite Hclients in Hin. by apply elem_of_map_to_list in Hin.
    + intros [?|(id & p & Hid & <-)]; [by left |]. right.
      exists (id, p). split; [| done].
      rewrite Hclients. by apply elem_of_map_to_list.
Qed.

Lemma Stop_closes_sessions_witness :
  ∃ conns st',
    Stop scenario.runtime None (mkControl true (Some 0%nat)) scenario.mixedQoS
    = Done (mkControl false (Some 0%nat), None) st' ∧
    conns ≡ₚ [1%nat] ∧
    trace st' = trace scenario.mixedQoS ++ (EvClose <$> conns).
Proof.
  destruct (Stop_closes_sessions scenario.runtime None (mkControl true (Some 0%nat))
              scenario.mixedQoS runtime_valid eq_refl (or_intror eq_refl))
    as (conns & st' & Hrun & Hconns & Htrace & _).
  exists conns, st'. split; [exact Hrun |]. split; [| exact Htrace].
  rewrite Hconns. by vm_compute.
Defined.

(** X28.  When [Stop] closes nothing.  On a server that is not running,
    [Stop] does nothing at all.  On a running server whose listener fails
    to close, [Stop] returns that error having marked the server as
    stopped and closed no client socket; any later [Stop] then finds the
    server stopped and does nothing, whatever the listener would answer:
    the sockets of the sessions are left open. *)
Theorem Stop_closes_nothing (rt : GoRuntime) (listener_Close : option mqtt.error)
    (ctl : Control) (st : State) :
  (running ctl = false →
   Stop rt listener_Close ctl st = Done (ctl, None) st) ∧
  (∀ l err,
     running ctl = true → listener ctl = Some l → listener_Close = Some err →
     Stop rt listener_Close ctl st
     = Done ({| running := false; listener := Some l |},
             Some (mqtt.Wrapped "error closing listener" err)) st ∧
     ∀ again,
       Stop rt again {| running := false; listener := Some l |} st
       = Done ({| running := false; listener := Some l |}, None) st).
Proof.
  split.
  - intros Hrun. unfold Stop. by rewrite Hrun.
  - intros l err Hrun Hl ->. unfold Stop. rewrite Hrun, Hl. done.
Qed.

(** X29.  When [Start] refuses.  On a server marked as running, [Start]
    returns the error that the server is already running and changes
    nothing.  [Start] marks the server as running before it listens, and
    leaves the mark when listening fails: after a failed [Start], every
    later [Start] is refused as already running, without trying to listen
    again. *)
Theorem Start_refuses (net_Listen : string → mqtt.error + nat)
    (cfg : config.Config) (ctl : Control) :
  (running ctl = true →
   Start net_Listen cfg ctl
   = (ctl, inl (mqtt.Errorf "server is already running"))) ∧
  (∀ err,
     running ctl = false →
     net_Listen (config.Host (config.Server cfg) +:+ ":"
                 +:+ pretty (config.Port (config.Server cfg))) = inl err →
     Start net_Listen cfg ctl
     = ({| running := true; listener := listener ctl |},
        inl (mqtt.Wrapped "failed to start listener" err)) ∧
     ∀ net_Listen',
       Start net_Listen' cfg {| running := true; listener := listener ctl |}
       = ({| running := true; listener := listener ctl |},
          inl (mqtt.Errorf "server is already running"))).
Proof.
  split.
  - intros Hrun. unfold Start. by rewrite Hrun.
  - intros err Hrun Herr. unfold Start. rewrite Hrun.
    cbv zeta. by rewrite Herr.
Qed.

End Shutdown.

(* ===================================================================== *)
(** * The keys of the store                                               *)
(* ===================================================================== *)

Section StoreKeys.

Import store.


End StoreKeys.
